(** * Electric-Fields-Visualizer backend: wire codec, sessions and registry

    A shallow embedding of the C++ backend (src/backend) and the proofs of
    the properties its specification states about it.

    Conventions of the embedding:
    - [uint8_t] is [Byte.byte]; wider machine integers are [Z] with the
      wrap-around of each cast and operation written out;
    - [float] and [double] values are carried as their IEEE-754 bit
      patterns (the codec only ever [memcpy]s them to and from integers);
    - [std::string] is [string]; [std::vector<uint8_t>] is [list Byte.byte];
    - [std::unordered_map] is [gmap];
    - [std::chrono::steady_clock] readings are [Z] (clock ticks), passed to
      every operation that reads the clock. *)

From stdpp Require Import base option list gmap strings fin_maps.
From Stdlib Require Import ZArith Lia.
From Stdlib Require Strings.Byte.
From Stdlib Require Import Floats.SpecFloat.

Local Open Scope Z_scope.

(** ** Machine integers *)

Definition cast_uint8 (v : Z) : Byte.byte :=
  default Byte.x00 (Byte.of_N (Z.to_N (v mod 256))).

Definition byte_val (b : Byte.byte) : Z := Z.of_N (Byte.to_N b).

Definition cast_uint32 (v : Z) : Z := v mod 2 ^ 32.
Definition cast_int32 (v : Z) : Z := (v + 2 ^ 31) mod 2 ^ 32 - 2 ^ 31.
Definition cast_uint64 (v : Z) : Z := v mod 2 ^ 64.

(** [size_t] is 64 bits wide; no object is larger than [PTRDIFF_MAX]. *)
Definition cast_size_t (v : Z) : Z := v mod 2 ^ 64.
Definition PTRDIFF_MAX : Z := 2 ^ 63 - 1.

Definition is_uint32 (v : Z) : Prop := 0 <= v < 2 ^ 32.
Definition is_int32 (v : Z) : Prop := - 2 ^ 31 <= v < 2 ^ 31.
Definition is_uint64 (v : Z) : Prop := 0 <= v < 2 ^ 64.

(** [std::string::length] and [std::vector::size], as [size_t] values. *)
Definition str_length (s : string) : Z := Z.of_nat (String.length s).
Definition vec_size {A} (v : list A) : Z := Z.of_nat (length v).

(** ** Protocol.h: message types *)

(** [enum class MessageType : uint8_t]; a decoded header may hold any
    byte, so the type is its underlying [uint8_t]. *)
Definition MessageType := Byte.byte.
Definition CLIENT_INPUT : MessageType := Byte.x01.
Definition CLIENT_CONTROL : MessageType := Byte.x02.
Definition SERVER_FRAME : MessageType := Byte.x10.
Definition SERVER_STATE : MessageType := Byte.x11.
Definition SERVER_ERROR : MessageType := Byte.x12.

Record ClientInputMessage := {
  ci_x : Z; ci_y : Z; ci_z : Z;   (* float bit patterns *)
  ci_value : Z;                   (* float bit pattern *)
  ci_timestamp : Z                (* uint32_t *)
}.

(** [ClientControlMessage::Type : uint8_t] *)
Definition PAUSE : Byte.byte := Byte.x01.
Definition RESUME : Byte.byte := Byte.x02.
Definition RESET : Byte.byte := Byte.x03.
Definition SET_SPEED : Byte.byte := Byte.x04.

Record ClientControlMessage := {
  cc_type : Byte.byte;
  cc_parameter : Z                (* float bit pattern *)
}.

(** ** Protocol.cpp: ProtocolEncoder *)

Module ProtocolEncoder.

Record t := { buffer_ : list Byte.byte }.

(** The constructor only reserves capacity. *)
Definition new : t := {| buffer_ := [] |}.

Definition getBuffer (e : t) : list Byte.byte := buffer_ e.
Definition clear (e : t) : t := {| buffer_ := [] |}.

Definition push_back (b : Byte.byte) (e : t) : t :=
  {| buffer_ := buffer_ e ++ [b] |}.

(** [buffer_.insert(buffer_.end(), first, last)] *)
Definition insert_end (bs : list Byte.byte) (e : t) : t :=
  {| buffer_ := buffer_ e ++ bs |}.

Definition writeHeader (type : MessageType) (e : t) : t :=
  push_back type e.

Definition writeUInt32 (value : Z) (e : t) : t :=
  let e := push_back (cast_uint8 value) e in
  let e := push_back (cast_uint8 (Z.shiftr value 8)) e in
  let e := push_back (cast_uint8 (Z.shiftr value 16)) e in
  push_back (cast_uint8 (Z.shiftr value 24)) e.

Definition writeInt32 (value : Z) (e : t) : t :=
  let e := push_back (cast_uint8 value) e in
  let e := push_back (cast_uint8 (Z.shiftr value 8)) e in
  let e := push_back (cast_uint8 (Z.shiftr value 16)) e in
  push_back (cast_uint8 (Z.shiftr value 24)) e.

(** [memcpy(&bits, &value, sizeof(float))]: [bits] is the bit pattern. *)
Definition writeFloat (value : Z) (e : t) : t :=
  let bits := value in
  let e := push_back (cast_uint8 bits) e in
  let e := push_back (cast_uint8 (Z.shiftr bits 8)) e in
  let e := push_back (cast_uint8 (Z.shiftr bits 16)) e in
  push_back (cast_uint8 (Z.shiftr bits 24)) e.

(** [for (int i = 0; i < 8; ++i) push_back(uint8_t(bits >> (i * 8)))] *)
Fixpoint writeDouble_loop (bits : Z) (i : Z) (n : nat) (e : t) : t :=
  match n with
  | O => e
  | S n' =>
      writeDouble_loop bits (i + 1) n'
        (push_back (cast_uint8 (Z.shiftr bits (i * 8))) e)
  end.

Definition writeDouble (value : Z) (e : t) : t :=
  let bits := value in
  writeDouble_loop bits 0 8 e.

Definition writeString (str : string) (e : t) : t :=
  let e := writeUInt32 (cast_uint32 (str_length str)) e in
  insert_end (String.list_byte_of_string str) e.

Definition encodeFrame (sessionId : string) (textureData : list Byte.byte)
    (simulationTime : Z) (e : t) : t :=
  let e := clear e in
  let e := writeHeader SERVER_FRAME e in
  let e := writeString sessionId e in
  let e := writeDouble simulationTime e in
  let e := writeUInt32 (cast_uint32 (vec_size textureData)) e in
  insert_end textureData e.

Definition encodeState (sessionId : string) (time : Z)
    (width height depth : Z) (e : t) : t :=
  let e := clear e in
  let e := writeHeader SERVER_STATE e in
  let e := writeString sessionId e in
  let e := writeFloat time e in
  let e := writeInt32 width e in
  let e := writeInt32 height e in
  writeInt32 depth e.

Definition encodeError (sessionId : string) (error : string) (e : t) : t :=
  let e := clear e in
  let e := writeHeader SERVER_ERROR e in
  let e := writeString sessionId e in
  writeString error e.

End ProtocolEncoder.

(** ** Protocol.cpp: ProtocolDecoder *)

Module ProtocolDecoder.

Record t := { data_ : list Byte.byte; size_ : Z; offset_ : Z }.

(** [ProtocolDecoder(data, size)]: [data] points to [size] bytes. *)
Definition new (data : list Byte.byte) : t :=
  {| data_ := data; size_ := vec_size data; offset_ := 0 |}.

(** A member function either returns, throws [std::runtime_error(what)]
    (the decoder keeps the state it had at the [throw]), or indexes
    [data_] outside the buffer, which is undefined behaviour. *)
Inductive outcome (A : Type) : Type :=
| Ok (a : A) (d : t)
| Throw (what : string) (d : t)
| OutOfBounds.
Arguments Ok {A} a d.
Arguments Throw {A} what d.
Arguments OutOfBounds {A}.

Definition M (A : Type) : Type := t → outcome A.

#[export] Instance M_ret : MRet M := λ A a d, Ok a d.
#[export] Instance M_bind : MBind M := λ A B k m d,
  match m d with
  | Ok a d' => k a d'
  | Throw what d' => Throw what d'
  | OutOfBounds => OutOfBounds
  end.

Definition throw {A} (what : string) : M A := λ d, Throw what d.
Definition get_offset : M Z := λ d, Ok (offset_ d) d.
Definition get_size : M Z := λ d, Ok (size_ d) d.
Definition set_offset (o : Z) : M unit := λ d,
  Ok tt {| data_ := data_ d; size_ := size_ d; offset_ := o |}.

(** [data_[i]] *)
Definition at_ (i : Z) : M Byte.byte := λ d,
  if i <? 0 then OutOfBounds
  else match data_ d !! Z.to_nat i with
       | Some b => Ok b d
       | None => OutOfBounds
       end.

(** The [len] bytes at [data_ + i]. *)
Definition range_ (i len : Z) : M (list Byte.byte) := λ d,
  if (i <? 0) || (len <? 0) || (vec_size (data_ d) <? i + len)
  then OutOfBounds
  else Ok (take (Z.to_nat len) (drop (Z.to_nat i) (data_ d))) d.

(** [x << n] on [uint32_t], [int32_t] and [uint64_t]. *)
Definition shl_uint32 (x n : Z) : Z := cast_uint32 (Z.shiftl x n).
Definition shl_int32 (x n : Z) : Z := cast_int32 (Z.shiftl x n).
Definition shl_uint64 (x n : Z) : Z := cast_uint64 (Z.shiftl x n).

Definition decodeHeader : M MessageType :=
  offset ← get_offset; size ← get_size;
  if offset >=? size then throw "Invalid message: not enough data"
  else
    type ← at_ offset;
    set_offset (cast_size_t (offset + 1));;
    mret type.

Definition readUInt32 : M Z :=
  offset ← get_offset; size ← get_size;
  if cast_size_t (offset + 4) >? size
  then throw "Invalid message: not enough data for uint32"
  else
    b0 ← at_ offset;
    b1 ← at_ (cast_size_t (offset + 1));
    b2 ← at_ (cast_size_t (offset + 2));
    b3 ← at_ (cast_size_t (offset + 3));
    let result :=
      Z.lor (Z.lor (Z.lor (byte_val b0) (shl_uint32 (byte_val b1) 8))
                   (shl_uint32 (byte_val b2) 16))
            (shl_uint32 (byte_val b3) 24) in
    set_offset (cast_size_t (offset + 4));;
    mret result.

Definition readInt32 : M Z :=
  offset ← get_offset; size ← get_size;
  if cast_size_t (offset + 4) >? size
  then throw "Invalid message: not enough data for int32"
  else
    b0 ← at_ offset;
    b1 ← at_ (cast_size_t (offset + 1));
    b2 ← at_ (cast_size_t (offset + 2));
    b3 ← at_ (cast_size_t (offset + 3));
    let result :=
      Z.lor (Z.lor (Z.lor (byte_val b0) (shl_int32 (byte_val b1) 8))
                   (shl_int32 (byte_val b2) 16))
            (shl_int32 (byte_val b3) 24) in
    set_offset (cast_size_t (offset + 4));;
    mret result.

Definition readFloat : M Z :=
  offset ← get_offset; size ← get_size;
  if cast_size_t (offset + 4) >? size
  then throw "Invalid message: not enough data for float"
  else
    b0 ← at_ offset;
    b1 ← at_ (cast_size_t (offset + 1));
    b2 ← at_ (cast_size_t (offset + 2));
    b3 ← at_ (cast_size_t (offset + 3));
    let bits :=
      Z.lor (Z.lor (Z.lor (byte_val b0) (shl_uint32 (byte_val b1) 8))
                   (shl_uint32 (byte_val b2) 16))
            (shl_uint32 (byte_val b3) 24) in
    set_offset (cast_size_t (offset + 4));;
    (* memcpy(&result, &bits, sizeof(float)) *)
    mret bits.

(** [for (int i = 0; i < 8; ++i)
       bits |= uint64_t(data_[offset_ + i]) << (i * 8)] *)
Fixpoint readDouble_loop (offset bits i : Z) (n : nat) : M Z :=
  match n with
  | O => mret bits
  | S n' =>
      b ← at_ (cast_size_t (offset + i));
      readDouble_loop offset
        (Z.lor bits (shl_uint64 (byte_val b) (i * 8))) (i + 1) n'
  end.

Definition readDouble : M Z :=
  offset ← get_offset; size ← get_size;
  if cast_size_t (offset + 8) >? size
  then throw "Invalid message: not enough data for double"
  else
    bits ← readDouble_loop offset 0 0 8;
    set_offset (cast_size_t (offset + 8));;
    mret bits.

Definition readString : M string :=
  len ← readUInt32;
  offset ← get_offset; size ← get_size;
  if cast_size_t (offset + len) >? size
  then throw "Invalid message: string length exceeds buffer"
  else
    chars ← range_ offset len;
    set_offset (cast_size_t (offset + len));;
    mret (String.string_of_list_byte chars).

Definition decodeClientInput : M ClientInputMessage :=
  x ← readFloat;
  y ← readFloat;
  z ← readFloat;
  value ← readFloat;
  timestamp ← readUInt32;
  mret {| ci_x := x; ci_y := y; ci_z := z; ci_value := value;
          ci_timestamp := timestamp |}.

Definition decodeClientControl : M ClientControlMessage :=
  offset ← get_offset; size ← get_size;
  if offset >=? size
  then throw "Invalid message: not enough data for control"
  else
    type ← at_ offset;
    set_offset (cast_size_t (offset + 1));;
    parameter ← readFloat;
    mret {| cc_type := type; cc_parameter := parameter |}.

End ProtocolDecoder.

(** ** The wire codec as one pair of functions *)

Module Codec.
Import ProtocolDecoder.

(** The tagged union of the wire protocol. *)
Inductive Message : Type :=
| ClientInput (msg : ClientInputMessage)
| ClientControl (msg : ClientControlMessage)
| ServerFrame (sessionId : string) (simulationTime : Z)
    (textureData : list Byte.byte)
| ServerState (sessionId : string) (time : Z) (width height depth : Z)
| ServerError (sessionId : string) (error : string).

(** Field values the layout can carry: 32-bit floats and integers,
    64-bit doubles, strings and payloads whose length fits the
    [uint32] length prefix. *)
Definition valid (m : Message) : Prop :=
  match m with
  | ClientInput msg =>
      is_uint32 (ci_x msg) ∧ is_uint32 (ci_y msg) ∧ is_uint32 (ci_z msg) ∧
      is_uint32 (ci_value msg) ∧ is_uint32 (ci_timestamp msg)
  | ClientControl msg => is_uint32 (cc_parameter msg)
  | ServerFrame sessionId simulationTime textureData =>
      str_length sessionId < 2 ^ 32 ∧ is_uint64 simulationTime ∧
      vec_size textureData < 2 ^ 32
  | ServerState sessionId time width height depth =>
      str_length sessionId < 2 ^ 32 ∧ is_uint32 time ∧
      is_int32 width ∧ is_int32 height ∧ is_int32 depth
  | ServerError sessionId error =>
      str_length sessionId < 2 ^ 32 ∧ str_length error < 2 ^ 32
  end.

(** Modelled from the spec: the encoder of [ClientInput], which the
    backend only decodes.  The layout is the wire table's: tag 0x01, then
    float x, float y, float z, float value, uint32 timestamp, written
    with the encoder's own primitives. *)
Definition encodeClientInput (msg : ClientInputMessage)
    (e : ProtocolEncoder.t) : ProtocolEncoder.t :=
  let e := ProtocolEncoder.clear e in
  let e := ProtocolEncoder.writeHeader CLIENT_INPUT e in
  let e := ProtocolEncoder.writeFloat (ci_x msg) e in
  let e := ProtocolEncoder.writeFloat (ci_y msg) e in
  let e := ProtocolEncoder.writeFloat (ci_z msg) e in
  let e := ProtocolEncoder.writeFloat (ci_value msg) e in
  ProtocolEncoder.writeUInt32 (ci_timestamp msg) e.

(** Modelled from the spec: the encoder of [ClientControl], which the
    backend only decodes.  The layout is the wire table's: tag 0x02, then
    uint8 kind, float parameter. *)
Definition encodeClientControl (msg : ClientControlMessage)
    (e : ProtocolEncoder.t) : ProtocolEncoder.t :=
  let e := ProtocolEncoder.clear e in
  let e := ProtocolEncoder.writeHeader CLIENT_CONTROL e in
  let e := ProtocolEncoder.push_back (cc_type msg) e in
  ProtocolEncoder.writeFloat (cc_parameter msg) e.

(** Modelled from the spec: [encode(variant, fields) → bytes] over the
    five variants.  The three server messages are encoded by the
    encoder's own functions. *)
Definition encode (m : Message) : list Byte.byte :=
  let e := ProtocolEncoder.new in
  ProtocolEncoder.getBuffer
    match m with
    | ClientInput msg => encodeClientInput msg e
    | ClientControl msg => encodeClientControl msg e
    | ServerFrame sessionId simulationTime textureData =>
        ProtocolEncoder.encodeFrame sessionId textureData simulationTime e
    | ServerState sessionId time width height depth =>
        ProtocolEncoder.encodeState sessionId time width height depth e
    | ServerError sessionId error =>
        ProtocolEncoder.encodeError sessionId error e
    end.

(** Modelled from the spec: the reader of a frame payload, which the
    backend only writes: a uint32 payload length, then that many raw
    bytes; a declared length that exceeds the remaining buffer is a
    decode failure.  It follows [readString] of the decoder. *)
Definition readPayload : M (list Byte.byte) :=
  len ← readUInt32;
  offset ← get_offset; size ← get_size;
  if cast_size_t (offset + len) >? size
  then throw "Invalid message: payload length exceeds buffer"
  else
    bytes ← range_ offset len;
    set_offset (cast_size_t (offset + len));;
    mret bytes.

(** Modelled from the spec: the decoder of [ServerFrame], which the
    backend only encodes: string sessionId, double simTime, uint32
    payloadLen and the payload, read with the decoder's own functions. *)
Definition decodeFrame : M Message :=
  sessionId ← readString;
  simulationTime ← readDouble;
  textureData ← readPayload;
  mret (ServerFrame sessionId simulationTime textureData).

(** Modelled from the spec: the decoder of [ServerState], which the
    backend only encodes: string sessionId, float time, int32 width,
    int32 height, int32 depth. *)
Definition decodeState : M Message :=
  sessionId ← readString;
  time ← readFloat;
  width ← readInt32;
  height ← readInt32;
  depth ← readInt32;
  mret (ServerState sessionId time width height depth).

(** Modelled from the spec: the decoder of [ServerError], which the
    backend only encodes: string sessionId, string message. *)
Definition decodeError : M Message :=
  sessionId ← readString;
  error ← readString;
  mret (ServerError sessionId error).

(** Modelled from the spec: [decode(bytes) → variant], the dispatch on
    the header tag over the five variants.  [Server::handleWebSocket] has
    the two client cases, decoded by the decoder's own functions, and
    logs and drops every other tag; an unknown tag is not an exception:
    the result is [None]. *)
Definition decodeMessage : M (option Message) :=
  msgType ← decodeHeader;
  if Byte.eqb msgType CLIENT_INPUT then
    input ← decodeClientInput; mret (Some (ClientInput input))
  else if Byte.eqb msgType CLIENT_CONTROL then
    control ← decodeClientControl; mret (Some (ClientControl control))
  else if Byte.eqb msgType SERVER_FRAME then (m ← decodeFrame; mret (Some m))
  else if Byte.eqb msgType SERVER_STATE then (m ← decodeState; mret (Some m))
  else if Byte.eqb msgType SERVER_ERROR then (m ← decodeError; mret (Some m))
  else mret None.

Definition decode (bytes : list Byte.byte) : outcome (option Message) :=
  decodeMessage (new bytes).

End Codec.

(** ** Compression.cpp *)

(** [std::memcpy(dst + pos, src, n)] on vectors. *)
Definition memcpy_at {A} (dst : list A) (pos : nat) (src : list A) (n : nat)
    : list A :=
  take pos dst ++ take n src ++ drop (pos + n) dst.

Module Compression.

(** [data] points to [size] bytes. *)
Definition compress (data : list Byte.byte) (size : Z) : list Byte.byte :=
  let result := replicate (Z.to_nat size) Byte.x00 in
  memcpy_at result 0 data (Z.to_nat size).

Definition decompress (data : list Byte.byte) (size : Z)
    : list Byte.byte :=
  let result := replicate (Z.to_nat size) Byte.x00 in
  memcpy_at result 0 data (Z.to_nat size).

End Compression.

(** ** Floating point and raw memory *)

(** IEEE-754 binary64 addition on bit patterns (round to nearest even),
    through the specification floats of the standard library. *)
Module Double.

Definition prec : Z := 53.
Definition emax : Z := 1024.

Definition of_bits (b : Z) : spec_float :=
  let s := Z.testbit b 63 in
  let e := Z.land (Z.shiftr b 52) 2047 in
  let m := Z.land b (2 ^ 52 - 1) in
  if e =? 0 then
    match m with Zpos p => S754_finite s p (-1074) | _ => S754_zero s end
  else if e =? 2047 then
    if m =? 0 then S754_infinity s else S754_nan
  else
    match m + 2 ^ 52 with
    | Zpos p => S754_finite s p (e - 1075)
    | _ => S754_nan
    end.

Definition to_bits (f : spec_float) : Z :=
  let sign (s : bool) := if s then 2 ^ 63 else 0 in
  match f with
  | S754_zero s => sign s
  | S754_infinity s => sign s + 2047 * 2 ^ 52
  | S754_nan => 0x7FF8000000000000
  | S754_finite s m e =>
      if Zpos m <? 2 ^ 52 then sign s + Zpos m
      else sign s + (e + 1075) * 2 ^ 52 + (Zpos m - 2 ^ 52)
  end.

Definition add (a b : Z) : Z :=
  to_bits (SFadd prec emax (of_bits a) (of_bits b)).

End Double.

(** The object representation of a [float] on the (little-endian) host,
    and the views of a [std::vector<float>] as raw bytes and back, as
    [memcpy] sees them. *)
Definition float_bytes (bits : Z) : list Byte.byte :=
  [cast_uint8 bits; cast_uint8 (Z.shiftr bits 8);
   cast_uint8 (Z.shiftr bits 16); cast_uint8 (Z.shiftr bits 24)].

Definition bytes_of_floats (v : list Z) : list Byte.byte :=
  v ≫= float_bytes.

Fixpoint floats_of_bytes (bs : list Byte.byte) : list Z :=
  match bs with
  | b0 :: b1 :: b2 :: b3 :: rest =>
      (byte_val b0 + 2 ^ 8 * byte_val b1 + 2 ^ 16 * byte_val b2
       + 2 ^ 24 * byte_val b3) :: floats_of_bytes rest
  | _ => []
  end.

(** ** VulkanManager.cpp *)

Module VulkanManager.

Record t := { initialized_ : bool }.

Definition new : t := {| initialized_ := false |}.

(** [initialize] succeeds or fails with the Vulkan runtime of the host:
    [vulkan_ok] says which. *)
Definition initialize (vulkan_ok : bool) (v : t) : bool * t :=
  if initialized_ v then (true, v)
  else if vulkan_ok then (true, {| initialized_ := true |})
  else (false, {| initialized_ := false |}).

(** [*ptr = malloc(size)] when [malloc] succeeds: [size] bytes of
    indeterminate content, which [junk] supplies.  On a null result the
    source throws; that case is in [Lifetime.allocate]. *)
Definition allocateBuffer (junk : nat → Byte.byte) (size : Z)
    : list Byte.byte :=
  junk <$> seq 0 (Z.to_nat size).

Definition copyToDevice (dst src : list Byte.byte) (size : Z)
    : list Byte.byte :=
  memcpy_at dst 0 src (Z.to_nat size).

Definition copyFromDevice (dst src : list Byte.byte) (size : Z)
    : list Byte.byte :=
  memcpy_at dst 0 src (Z.to_nat size).

(** The compute dispatches are stubs that only log a warning: each
    returns the buffer it would write to, unchanged. *)
Definition updateAlphaBeta (materialField alphaBetaField : list Byte.byte)
    (w h d : Z) : list Byte.byte := alphaBetaField.
Definition updateElectricField
    (electricField electricFieldNext magneticField alphaBetaField
       : list Byte.byte) (w h d : Z) : list Byte.byte := electricFieldNext.
Definition updateMagneticField
    (electricField magneticField magneticFieldNext alphaBetaField
       : list Byte.byte) (w h d : Z) : list Byte.byte := magneticFieldNext.
Definition injectSource (sourceField field output : list Byte.byte)
    (dt : Z) (w h d : Z) : list Byte.byte := output.
Definition decaySource (sourceField output : list Byte.byte)
    (dt : Z) (w h d : Z) : list Byte.byte := output.
Definition drawEllipse (input output : list Byte.byte)
    (rx ry rz : Z) (value : Z) (w h d : Z) : list Byte.byte := output.

End VulkanManager.

(** ** FDTD3D.cpp: the field solver *)

Module FDTD3D.

(** Grid dimensions are [int]s; their products are taken in [Z] (signed
    overflow is undefined) and converted to [size_t] where the source
    does.  [time_], [dt_] and [cellSize_] are double bit patterns.
    [step_calls] is a ghost counter of the calls of [step]. *)
Record t := {
  width_ : Z; height_ : Z; depth_ : Z;
  time_ : Z; dt_ : Z; cellSize_ : Z;
  vulkanManager_ : VulkanManager.t;
  electricField_d_ : list Byte.byte;
  electricFieldNext_d_ : list Byte.byte;
  magneticField_d_ : list Byte.byte;
  magneticFieldNext_d_ : list Byte.byte;
  sourceField_d_ : list Byte.byte;
  sourceFieldNext_d_ : list Byte.byte;
  materialField_d_ : list Byte.byte;
  alphaBetaField_d_ : list Byte.byte;
  step_calls : nat
}.

(** [time_(0.0), dt_(0.001), cellSize_(0.01)]; the device pointers are
    not set before [initialize]. *)
Definition new (width height depth : Z) : t := {|
  width_ := width; height_ := height; depth_ := depth;
  time_ := 0; dt_ := 0x3F50624DD2F1A9FC; cellSize_ := 0x3F847AE147AE147B;
  vulkanManager_ := VulkanManager.new;
  electricField_d_ := []; electricFieldNext_d_ := [];
  magneticField_d_ := []; magneticFieldNext_d_ := [];
  sourceField_d_ := []; sourceFieldNext_d_ := [];
  materialField_d_ := []; alphaBetaField_d_ := [];
  step_calls := 0
|}.

Definition textureSize (s : t) : Z :=
  cast_size_t (width_ s * height_ s * depth_ s * 3).

(** Vacuum: permeability 255, permittivity 255, conductivity 0,
    alpha 255 for every cell. *)
Definition materialData (s : t) : list Byte.byte :=
  let size := cast_size_t (width_ s * height_ s * depth_ s * 4) in
  mjoin (replicate (Z.to_nat (size / 4))
           [Byte.xff; Byte.xff; Byte.x00; Byte.xff]).

Definition initializeMaterialField (s : t) : list Byte.byte :=
  let data := materialData s in
  VulkanManager.copyToDevice (materialField_d_ s) data
    (cast_size_t (vec_size data * 1)).

(** [initialize] throws when Vulkan cannot be initialised: [None].
    [junk k] is the content of the [k]-th allocation; the allocations
    succeed here, [Lifetime.initialize] has those that fail.  The
    products of [width_], [height_] and [depth_] are the source's as
    long as they fit an [int]. *)
Definition initialize (vulkan_ok : bool) (junk : nat → nat → Byte.byte)
    (s : t) : option t :=
  let '(ok, vm) := VulkanManager.initialize vulkan_ok (vulkanManager_ s) in
  if negb ok then None
  else
    let bufferSize := cast_size_t (textureSize s * 4) in
    let cells := width_ s * height_ s * depth_ s in
    let s1 := {|
      width_ := width_ s; height_ := height_ s; depth_ := depth_ s;
      time_ := time_ s; dt_ := dt_ s; cellSize_ := cellSize_ s;
      vulkanManager_ := vm;
      electricField_d_ := VulkanManager.allocateBuffer (junk 0%nat) bufferSize;
      electricFieldNext_d_ :=
        VulkanManager.allocateBuffer (junk 1%nat) bufferSize;
      magneticField_d_ := VulkanManager.allocateBuffer (junk 2%nat) bufferSize;
      magneticFieldNext_d_ :=
        VulkanManager.allocateBuffer (junk 3%nat) bufferSize;
      sourceField_d_ := VulkanManager.allocateBuffer (junk 4%nat) bufferSize;
      sourceFieldNext_d_ :=
        VulkanManager.allocateBuffer (junk 5%nat) bufferSize;
      materialField_d_ :=
        VulkanManager.allocateBuffer (junk 6%nat) (cast_size_t (cells * 4 * 1));
      alphaBetaField_d_ :=
        VulkanManager.allocateBuffer (junk 7%nat) (cast_size_t (cells * 4 * 4));
      step_calls := step_calls s
    |} in
    let material := initializeMaterialField s1 in
    let alphaBeta :=
      VulkanManager.updateAlphaBeta material (alphaBetaField_d_ s1)
        (width_ s) (height_ s) (depth_ s) in
    Some {|
      width_ := width_ s1; height_ := height_ s1; depth_ := depth_ s1;
      time_ := time_ s1; dt_ := dt_ s1; cellSize_ := cellSize_ s1;
      vulkanManager_ := vulkanManager_ s1;
      electricField_d_ := electricField_d_ s1;
      electricFieldNext_d_ := electricFieldNext_d_ s1;
      magneticField_d_ := magneticField_d_ s1;
      magneticFieldNext_d_ := magneticFieldNext_d_ s1;
      sourceField_d_ := sourceField_d_ s1;
      sourceFieldNext_d_ := sourceFieldNext_d_ s1;
      materialField_d_ := material;
      alphaBetaField_d_ := alphaBeta;
      step_calls := step_calls s1
    |}.

(** Source injection and decay, the two field updates, [swapBuffers],
    then [time_ += dt_]. *)
Definition step (s : t) : t :=
  let w := width_ s in let h := height_ s in let d := depth_ s in
  let electricFieldNext :=
    VulkanManager.injectSource (sourceField_d_ s) (electricField_d_ s)
      (electricFieldNext_d_ s) (dt_ s) w h d in
  let sourceFieldNext :=
    VulkanManager.decaySource (sourceField_d_ s) (sourceFieldNext_d_ s)
      (dt_ s) w h d in
  let electricFieldNext :=
    VulkanManager.updateElectricField (electricField_d_ s)
      electricFieldNext (magneticField_d_ s) (alphaBetaField_d_ s) w h d in
  let magneticFieldNext :=
    VulkanManager.updateMagneticField (electricField_d_ s)
      (magneticField_d_ s) (magneticFieldNext_d_ s) (alphaBetaField_d_ s)
      w h d in
  {|
    width_ := w; height_ := h; depth_ := d;
    time_ := Double.add (time_ s) (dt_ s);
    dt_ := dt_ s; cellSize_ := cellSize_ s;
    vulkanManager_ := vulkanManager_ s;
    electricField_d_ := electricFieldNext;
    electricFieldNext_d_ := electricField_d_ s;
    magneticField_d_ := magneticFieldNext;
    magneticFieldNext_d_ := magneticField_d_ s;
    sourceField_d_ := sourceFieldNext;
    sourceFieldNext_d_ := sourceField_d_ s;
    materialField_d_ := materialField_d_ s;
    alphaBetaField_d_ := alphaBetaField_d_ s;
    step_calls := S (step_calls s)
  |}.

(** The grid coordinates [int(x * width_)], ... are computed in floating
    point and handed to [drawEllipse], which ignores them; then
    [swapBuffers]. *)
Definition addSource (x y z value : Z) (s : t) : t :=
  let sourceFieldNext :=
    VulkanManager.drawEllipse (sourceField_d_ s) (sourceFieldNext_d_ s)
      2 2 2 value (width_ s) (height_ s) (depth_ s) in
  {|
    width_ := width_ s; height_ := height_ s; depth_ := depth_ s;
    time_ := time_ s; dt_ := dt_ s; cellSize_ := cellSize_ s;
    vulkanManager_ := vulkanManager_ s;
    electricField_d_ := electricFieldNext_d_ s;
    electricFieldNext_d_ := electricField_d_ s;
    magneticField_d_ := magneticFieldNext_d_ s;
    magneticFieldNext_d_ := magneticField_d_ s;
    sourceField_d_ := sourceFieldNext;
    sourceFieldNext_d_ := sourceField_d_ s;
    materialField_d_ := materialField_d_ s;
    alphaBetaField_d_ := alphaBetaField_d_ s;
    step_calls := step_calls s
  |}.

(** [buffer.resize(size)], then [size * sizeof(float)] bytes are copied
    from the device into it. *)
Definition getElectricField (buffer : list Z) (s : t) : list Z :=
  let size := textureSize s in
  let buffer := resize (Z.to_nat size) 0 buffer in
  floats_of_bytes
    (VulkanManager.copyFromDevice (bytes_of_floats buffer)
       (electricField_d_ s) (cast_size_t (size * 4))).

Definition getMagneticField (buffer : list Z) (s : t) : list Z :=
  let size := textureSize s in
  let buffer := resize (Z.to_nat size) 0 buffer in
  floats_of_bytes
    (VulkanManager.copyFromDevice (bytes_of_floats buffer)
       (magneticField_d_ s) (cast_size_t (size * 4))).

Definition getTime (s : t) : Z := time_ s.

End FDTD3D.

(** ** Session.cpp *)

Module Session.

(** [std::chrono::minutes(30)] in ticks of the steady clock
    (nanoseconds). *)
Definition SESSION_TIMEOUT : Z := 30 * 60 * 10 ^ 9.

Record t := {
  sessionId_ : string;
  simulation_ : option FDTD3D.t;   (* std::unique_ptr<FDTD3D> *)
  hasNewFrame_ : bool;
  needsUpdate_ : bool;
  lastActivity_ : Z;
  electricFieldBuffer_ : list Z;   (* std::vector<float> *)
  magneticFieldBuffer_ : list Z
}.

Definition new (sessionId : string) (now : Z) : t := {|
  sessionId_ := sessionId; simulation_ := None;
  hasNewFrame_ := false; needsUpdate_ := true; lastActivity_ := now;
  electricFieldBuffer_ := []; magneticFieldBuffer_ := []
|}.

Definition getId (s : t) : string := sessionId_ s.
Definition hasNewFrame (s : t) : bool := hasNewFrame_ s.

(** [None] when the solver's [initialize] throws. *)
Definition initialize (vulkan_ok : bool) (junk : nat → nat → Byte.byte)
    (width height depth : Z) (s : t) : option t :=
  match FDTD3D.initialize vulkan_ok junk (FDTD3D.new width height depth) with
  | None => None
  | Some sim =>
      let textureSize := cast_size_t (width * height * depth * 3) in
      Some {|
        sessionId_ := sessionId_ s; simulation_ := Some sim;
        hasNewFrame_ := hasNewFrame_ s; needsUpdate_ := needsUpdate_ s;
        lastActivity_ := lastActivity_ s;
        electricFieldBuffer_ :=
          resize (Z.to_nat textureSize) 0 (electricFieldBuffer_ s);
        magneticFieldBuffer_ :=
          resize (Z.to_nat textureSize) 0 (magneticFieldBuffer_ s)
      |}
  end.

Definition step (now : Z) (s : t) : t :=
  match simulation_ s with
  | None => s
  | Some sim => {|
      sessionId_ := sessionId_ s; simulation_ := Some (FDTD3D.step sim);
      hasNewFrame_ := true; needsUpdate_ := needsUpdate_ s;
      lastActivity_ := now;
      electricFieldBuffer_ := electricFieldBuffer_ s;
      magneticFieldBuffer_ := magneticFieldBuffer_ s
    |}
  end.

Definition handleInput (now : Z) (x y z value : Z) (s : t) : t :=
  match simulation_ s with
  | None => s
  | Some sim => {|
      sessionId_ := sessionId_ s;
      simulation_ := Some (FDTD3D.addSource x y z value sim);
      hasNewFrame_ := hasNewFrame_ s; needsUpdate_ := needsUpdate_ s;
      lastActivity_ := now;
      electricFieldBuffer_ := electricFieldBuffer_ s;
      magneticFieldBuffer_ := magneticFieldBuffer_ s
    |}
  end.

(** [buffer] is the caller's vector; the result is the session (its two
    snapshot buffers are refilled) and the vector afterwards. *)
Definition getFrameData (buffer : list Byte.byte) (s : t)
    : t * list Byte.byte :=
  match simulation_ s with
  | None => (s, [])
  | Some sim =>
      if negb (hasNewFrame_ s) then (s, [])
      else
        let electric := FDTD3D.getElectricField (electricFieldBuffer_ s) sim in
        let magnetic := FDTD3D.getMagneticField (magneticFieldBuffer_ s) sim in
        let totalSize := cast_size_t (vec_size electric * 4 * 2) in
        let buffer := resize (Z.to_nat totalSize) Byte.x00 buffer in
        let buffer :=
          memcpy_at buffer 0 (bytes_of_floats electric)
            (Z.to_nat (cast_size_t (vec_size electric * 4))) in
        let buffer :=
          memcpy_at buffer (Z.to_nat (cast_size_t (vec_size electric * 4)))
            (bytes_of_floats magnetic)
            (Z.to_nat (cast_size_t (vec_size magnetic * 4))) in
        ({| sessionId_ := sessionId_ s; simulation_ := simulation_ s;
            hasNewFrame_ := hasNewFrame_ s; needsUpdate_ := needsUpdate_ s;
            lastActivity_ := lastActivity_ s;
            electricFieldBuffer_ := electric;
            magneticFieldBuffer_ := magnetic |}, buffer)
  end.

Definition markFrameSent (s : t) : t := {|
  sessionId_ := sessionId_ s; simulation_ := simulation_ s;
  hasNewFrame_ := false; needsUpdate_ := needsUpdate_ s;
  lastActivity_ := lastActivity_ s;
  electricFieldBuffer_ := electricFieldBuffer_ s;
  magneticFieldBuffer_ := magneticFieldBuffer_ s
|}.

(** [0.0] without a solver. *)
Definition getSimulationTime (s : t) : Z :=
  match simulation_ s with
  | None => 0
  | Some sim => FDTD3D.getTime sim
  end.

Definition update (now : Z) (s : t) : t :=
  if needsUpdate_ s then
    let s := step now s in
    {| sessionId_ := sessionId_ s; simulation_ := simulation_ s;
       hasNewFrame_ := hasNewFrame_ s; needsUpdate_ := false;
       lastActivity_ := lastActivity_ s;
       electricFieldBuffer_ := electricFieldBuffer_ s;
       magneticFieldBuffer_ := magneticFieldBuffer_ s |}
  else s.

Definition isExpired (now : Z) (s : t) : bool :=
  now - lastActivity_ s >? SESSION_TIMEOUT.

(** Ghost: the number of solver steps the session has performed. *)
Definition solver_steps (s : t) : nat :=
  match simulation_ s with
  | None => 0%nat
  | Some sim => FDTD3D.step_calls sim
  end.

End Session.

(** ** SessionManager.cpp: the session registry *)

(** A [WebSocketType *] is its address. *)
Abbreviation WebSocketPtr := Z (only parsing).

Module SessionManager.

Record t := {
  connectionToSession_ : gmap Z string;
  sessions_ : gmap string Session.t;
  sessionToConnection_ : gmap string Z
}.

Definition new : t := {|
  connectionToSession_ := ∅; sessions_ := ∅; sessionToConnection_ := ∅
|}.

(** What [createSession] takes from its environment: the clock, the 32
    draws of [uniform_int_distribution<>(0, 15)], whether Vulkan
    initialises, and the content of freshly allocated memory. *)
Record Env := {
  env_now : Z;
  env_draws : nat → Z;
  env_vulkan_ok : bool;
  env_junk : nat → nat → Byte.byte
}.

(** [oss << std::hex << v] for a draw [v] of [dis(gen)]. *)
Definition hex_digit (v : Z) : string :=
  match v with
  | 0 => "0" | 1 => "1" | 2 => "2" | 3 => "3" | 4 => "4" | 5 => "5"
  | 6 => "6" | 7 => "7" | 8 => "8" | 9 => "9" | 10 => "a" | 11 => "b"
  | 12 => "c" | 13 => "d" | 14 => "e" | 15 => "f"
  | _ => EmptyString
  end.

Definition generateSessionId (draws : nat → Z) : string :=
  String.concat EmptyString ((λ i, hex_digit (draws i)) <$> seq 0 32).

(** The id returned and the three maps after a call that returns.
    When [initialize] throws no map is touched: [None].  What the
    exception does to the session under construction, and what the
    assignment to [sessions_[sessionId]] does to a session already
    stored there, is in [Lifetime.createSession]. *)
Definition createSession (env : Env) (ws : WebSocketPtr) (m : t)
    : option string * t :=
  let sessionId := generateSessionId (env_draws env) in
  let session := Session.new sessionId (env_now env) in
  match Session.initialize (env_vulkan_ok env) (env_junk env)
          128 128 128 session with
  | None => (None, m)
  | Some session =>
      (Some sessionId,
       {| sessions_ := <[sessionId := session]> (sessions_ m);
          connectionToSession_ := <[ws := sessionId]> (connectionToSession_ m);
          sessionToConnection_ :=
            <[sessionId := ws]> (sessionToConnection_ m) |})
  end.

(** The three maps after a call that returns; the destruction of the
    erased session is in [Lifetime.removeSession]. *)
Definition removeSession (ws : WebSocketPtr) (m : t) : t :=
  match connectionToSession_ m !! ws with
  | Some sessionId =>
      {| sessions_ := delete sessionId (sessions_ m);
         sessionToConnection_ := delete sessionId (sessionToConnection_ m);
         connectionToSession_ := delete ws (connectionToSession_ m) |}
  | None => m
  end.

Definition getSessionId (ws : WebSocketPtr) (m : t) : option string :=
  connectionToSession_ m !! ws.

Definition handleInput (now : Z) (sessionId : string)
    (input : ClientInputMessage) (m : t) : t :=
  match sessions_ m !! sessionId with
  | Some session =>
      {| sessions_ :=
           <[sessionId := Session.handleInput now (ci_x input) (ci_y input)
                            (ci_z input) (ci_value input) session]>
             (sessions_ m);
         connectionToSession_ := connectionToSession_ m;
         sessionToConnection_ := sessionToConnection_ m |}
  | None => m
  end.

(** The body of the [if] is two comments. *)
Definition handleControl (sessionId : string)
    (control : ClientControlMessage) (m : t) : t :=
  match sessions_ m !! sessionId with
  | Some session => m
  | None => m
  end.

(** The inner loop of [cleanupExpiredSessions]: every entry of the
    connection map whose value is [sessionId] is erased. *)
Definition erase_connections_of (sessionId : string)
    (connectionToSession : gmap Z string) : gmap Z string :=
  filter (λ kv, kv.2 ≠ sessionId) connectionToSession.

(** One iteration of the outer loop, at the entry [(sessionId, session)]
    of [sessions_]: the three maps after it, when it returns; the
    destruction of the erased session is in [Lifetime.cleanup_entry]. *)
Definition cleanup_entry (now : Z) (sessionId : string)
    (session : Session.t) (m : t) : t :=
  if Session.isExpired now session then
    {| sessions_ := delete sessionId (sessions_ m);
       sessionToConnection_ := delete sessionId (sessionToConnection_ m);
       connectionToSession_ :=
         erase_connections_of sessionId (connectionToSession_ m) |}
  else m.

(** The loop visits every entry of [sessions_] once (an erased entry is
    the one just visited), in the map's iteration order. *)
Definition cleanupExpiredSessions (now : Z) (m : t) : t :=
  map_fold (cleanup_entry now) m (sessions_ m).

Definition updateAll (now : Z) (m : t) : t :=
  let m := {| sessions_ := Session.update now <$> sessions_ m;
              connectionToSession_ := connectionToSession_ m;
              sessionToConnection_ := sessionToConnection_ m |} in
  cleanupExpiredSessions now m.

(** One iteration of the loop of [broadcastFrames]: the session
    afterwards and what was sent, to which connection. *)
Definition broadcast_entry (sessionToConnection : gmap string Z)
    (sessionId : string) (session : Session.t)
    : Session.t * list (Z * list Byte.byte) :=
  if negb (Session.hasNewFrame session) then (session, [])
  else
    match sessionToConnection !! sessionId with
    | None => (session, [])
    | Some ws =>
        let '(session, frameData) := Session.getFrameData [] session in
        match frameData with
        | [] => (session, [])
        | _ :: _ =>
            let encoder :=
              ProtocolEncoder.encodeFrame sessionId frameData
                (Session.getSimulationTime session) ProtocolEncoder.new in
            (Session.markFrameSent session,
             [(ws, ProtocolEncoder.getBuffer encoder)])
        end
    end.

(** The registry afterwards and the messages handed to [ws->send], in
    the map's iteration order. *)
Definition broadcastFrames (m : t) : t * list (Z * list Byte.byte) :=
  let s2c := sessionToConnection_ m in
  ({| sessions_ :=
        map_imap (λ sessionId session,
                    Some (broadcast_entry s2c sessionId session).1)
          (sessions_ m);
      connectionToSession_ := connectionToSession_ m;
      sessionToConnection_ := sessionToConnection_ m |},
   map_to_list (sessions_ m) ≫=
     (λ kv, (broadcast_entry s2c kv.1 kv.2).2)).

(** *** Runs of the registry *)

Inductive Op : Type :=
| CreateSession (env : Env) (ws : WebSocketPtr)
| RemoveSession (ws : WebSocketPtr)
| HandleInput (now : Z) (sessionId : string) (input : ClientInputMessage)
| HandleControl (sessionId : string) (control : ClientControlMessage)
| UpdateAll (now : Z)
| BroadcastFrames.

Definition exec (op : Op) (m : t) : t :=
  match op with
  | CreateSession env ws => (createSession env ws m).2
  | RemoveSession ws => removeSession ws m
  | HandleInput now sessionId input => handleInput now sessionId input m
  | HandleControl sessionId control => handleControl sessionId control m
  | UpdateAll now => updateAll now m
  | BroadcastFrames => (broadcastFrames m).1
  end.

Fixpoint run (ops : list Op) (m : t) : t :=
  match ops with
  | [] => m
  | op :: ops' => run ops' (exec op m)
  end.

(** A [createSession] is fresh when its connection is not bound and the
    generated id is not in use. *)
Definition fresh_op (op : Op) (m : t) : Prop :=
  match op with
  | CreateSession env ws =>
      connectionToSession_ m !! ws = None ∧
      sessions_ m !! generateSessionId (env_draws env) = None
  | _ => True
  end.

Fixpoint fresh_run (ops : list Op) (m : t) : Prop :=
  match ops with
  | [] => True
  | op :: ops' => fresh_op op m ∧ fresh_run ops' (exec op m)
  end.

(** The consistency of the three maps: a session id is a key of
    [sessions_] and of [sessionToConnection_] exactly when some
    connection is bound to it in [connectionToSession_], and then
    [sessionToConnection_] points back to that connection. *)
Definition consistent (m : t) : Prop :=
  ∀ sessionId : string,
    (is_Some (sessions_ m !! sessionId) ∧
     is_Some (sessionToConnection_ m !! sessionId))
    ↔ (∃ ws : Z, connectionToSession_ m !! ws = Some sessionId ∧
                 sessionToConnection_ m !! sessionId = Some ws).

End SessionManager.

(** ** Construction and destruction of solvers and sessions *)

(** The definitions of [SessionManager] above give the three maps after a
    call that returns.  This module has what they leave out: the device
    pointers of a solver, the calls of [malloc] that can fail, and the
    destructors that run when a session is erased, overwritten or
    abandoned by an exception.  The allocations of the C++ runtime
    ([make_unique], the containers, the strings) are taken to
    succeed. *)
Module Lifetime.

(** A device pointer of [FDTD3D].  The constructor does not initialise
    the eight pointers; [allocateBuffer] stores what [malloc] returned,
    or throws when that is null; [freeBuffer] frees the block and
    leaves the pointer as it is. *)
Inductive pointer : Type :=
| Null
| Indeterminate
| Live
| Dangling.

(** A call returns, throws [std::runtime_error(what)], or has undefined
    behaviour. *)
Inductive outcome (A : Type) : Type :=
| Returns (a : A)
| Throws (what : string)
| Undefined.
Arguments Returns {A} a.
Arguments Throws {A} what.
Arguments Undefined {A}.

(** [if (ptr) free(ptr)]: reading a pointer that was never set and
    freeing a block a second time are undefined. *)
Definition freeBuffer (ptr : pointer) : option pointer :=
  match ptr with
  | Null => Some Null
  | Live => Some Dangling
  | Indeterminate => None
  | Dangling => None
  end.

(** [FDTD3D::cleanup]: [freeBuffer] on each pointer in turn
    ([vulkanManager_] is set by the constructor); no pointer is
    reset. *)
Fixpoint cleanup (ptrs : list pointer) : option (list pointer) :=
  match ptrs with
  | [] => Some []
  | ptr :: rest =>
      ptr' ← freeBuffer ptr; rest' ← cleanup rest; Some (ptr' :: rest')
  end.

(** The destruction of a session that has a solver: [~Session] calls
    [simulation_->cleanup()], then the member [simulation_] is
    destroyed and [~FDTD3D] calls [cleanup()] again. *)
Definition destroy_solver (ptrs : list pointer) : option unit :=
  ptrs ← cleanup ptrs; _ ← cleanup ptrs; Some ().

(** The eight pointers of a solver of the model: all allocated once
    [initialize] has returned, all as the constructor left them
    before. *)
Definition pointers (sim : FDTD3D.t) : list pointer :=
  replicate 8
    (if VulkanManager.initialized_ (FDTD3D.vulkanManager_ sim)
     then Live else Indeterminate).

(** [~Session]: nothing to do without a solver. *)
Definition destroy (s : Session.t) : option unit :=
  match Session.simulation_ s with
  | None => Some ()
  | Some sim => destroy_solver (pointers sim)
  end.

(** The pointers after [n] calls of [allocateBuffer] from the [k]-th
    on, where [alloc_ok k] says whether [malloc] succeeds: the call
    stores what [malloc] returned; when that is null it throws, and the
    remaining pointers stay as the constructor left them. *)
Fixpoint allocate (alloc_ok : nat → bool) (k n : nat) : list pointer :=
  match n with
  | O => []
  | S n' =>
      if alloc_ok k then Live :: allocate alloc_ok (S k) n'
      else Null :: replicate n' Indeterminate
  end.

(** [FDTD3D::initialize] on a solver as constructed, with allocations
    that can fail: the outcome and the eight pointers afterwards. *)
Definition initialize (vulkan_ok : bool) (alloc_ok : nat → bool)
    (junk : nat → nat → Byte.byte) (s : FDTD3D.t)
    : outcome FDTD3D.t * list pointer :=
  match FDTD3D.initialize vulkan_ok junk s with
  | None => (Throws "Failed to initialize Vulkan", pointers s)
  | Some s' =>
      if forallb alloc_ok (seq 0 8)
      then (Returns s', allocate alloc_ok 0 8)
      else (Throws "Failed to allocate buffer", allocate alloc_ok 0 8)
  end.

(** [sessions_.erase(sessionId)], and the assignment
    [sessions_[sessionId] = std::move(session)] alike, destroy the
    session stored under the id, if there is one. *)
Definition destroy_stored (sessionId : string)
    (sessions : gmap string Session.t) : option unit :=
  match sessions !! sessionId with
  | Some s => destroy s
  | None => Some ()
  end.

(** [createSession].  [Session::initialize] stores the constructed
    solver in [simulation_] before it calls [FDTD3D::initialize]: an
    exception from there unwinds through the [unique_ptr<Session>],
    which destroys the session with the solver as the failed
    [initialize] left it.  When [initialize] returns, the assignment to
    [sessions_[sessionId]] destroys a session stored under that id. *)
Definition createSession (alloc_ok : nat → bool) (env : SessionManager.Env)
    (ws : WebSocketPtr) (m : SessionManager.t)
    : outcome (string * SessionManager.t) :=
  let sessionId := SessionManager.generateSessionId
                     (SessionManager.env_draws env) in
  match initialize (SessionManager.env_vulkan_ok env) alloc_ok
          (SessionManager.env_junk env) (FDTD3D.new 128 128 128) with
  | (Returns _, _) =>
      match destroy_stored sessionId (SessionManager.sessions_ m) with
      | Some _ =>
          Returns (sessionId, (SessionManager.createSession env ws m).2)
      | None => Undefined
      end
  | (Throws what, ptrs) =>
      match destroy_solver ptrs with
      | Some _ => Throws what
      | None => Undefined
      end
  | (Undefined, _) => Undefined
  end.

(** [removeSession]: [sessions_.erase(sessionId)] comes first. *)
Definition removeSession (ws : WebSocketPtr) (m : SessionManager.t)
    : option SessionManager.t :=
  match SessionManager.connectionToSession_ m !! ws with
  | Some sessionId =>
      _ ← destroy_stored sessionId (SessionManager.sessions_ m);
      Some (SessionManager.removeSession ws m)
  | None => Some m
  end.

(** One iteration of the loop of [cleanupExpiredSessions]:
    [sessions_.erase(it++)] destroys the session visited. *)
Definition cleanup_entry (now : Z) (sessionId : string)
    (session : Session.t) (acc : option SessionManager.t)
    : option SessionManager.t :=
  m ← acc;
  if Session.isExpired now session then
    _ ← destroy session;
    Some (SessionManager.cleanup_entry now sessionId session m)
  else Some m.

Definition cleanupExpiredSessions (now : Z) (m : SessionManager.t)
    : option SessionManager.t :=
  map_fold (cleanup_entry now) (Some m) (SessionManager.sessions_ m).

Definition updateAll (now : Z) (m : SessionManager.t)
    : option SessionManager.t :=
  let m :=
    {| SessionManager.sessions_ :=
         Session.update now <$> SessionManager.sessions_ m;
       SessionManager.connectionToSession_ :=
         SessionManager.connectionToSession_ m;
       SessionManager.sessionToConnection_ :=
         SessionManager.sessionToConnection_ m |} in
  cleanupExpiredSessions now m.

(** *** Runs of the registry *)

Inductive Op : Type :=
| CreateSession (alloc_ok : nat → bool) (env : SessionManager.Env)
    (ws : WebSocketPtr)
| RemoveSession (ws : WebSocketPtr)
| HandleInput (now : Z) (sessionId : string) (input : ClientInputMessage)
| HandleControl (sessionId : string) (control : ClientControlMessage)
| UpdateAll (now : Z)
| BroadcastFrames.

(** The registry after the call; [None] when the call does not
    return. *)
Definition exec (op : Op) (m : SessionManager.t) : option SessionManager.t :=
  match op with
  | CreateSession alloc_ok env ws =>
      match createSession alloc_ok env ws m with
      | Returns (_, m') => Some m'
      | _ => None
      end
  | RemoveSession ws => removeSession ws m
  | HandleInput now sessionId input =>
      Some (SessionManager.handleInput now sessionId input m)
  | HandleControl sessionId control =>
      Some (SessionManager.handleControl sessionId control m)
  | UpdateAll now => updateAll now m
  | BroadcastFrames => Some (SessionManager.broadcastFrames m).1
  end.

Fixpoint run (ops : list Op) (m : SessionManager.t)
    : option SessionManager.t :=
  match ops with
  | [] => Some m
  | op :: ops' => m' ← exec op m; run ops' m'
  end.

(** The operation without its allocations. *)
Definition forget (op : Op) : SessionManager.Op :=
  match op with
  | CreateSession _ env ws => SessionManager.CreateSession env ws
  | RemoveSession ws => SessionManager.RemoveSession ws
  | HandleInput now sessionId input =>
      SessionManager.HandleInput now sessionId input
  | HandleControl sessionId control =>
      SessionManager.HandleControl sessionId control
  | UpdateAll now => SessionManager.UpdateAll now
  | BroadcastFrames => SessionManager.BroadcastFrames
  end.

(** Every [createSession] of the run is for a connection that is not
    bound when it is called. *)
Definition unbound_op (op : Op) (m : SessionManager.t) : Prop :=
  match op with
  | CreateSession _ _ ws => SessionManager.connectionToSession_ m !! ws = None
  | _ => True
  end.

Fixpoint unbound_run (ops : list Op) (m : SessionManager.t) : Prop :=
  match ops with
  | [] => True
  | op :: ops' =>
      unbound_op op m ∧
      match exec op m with
      | Some m' => unbound_run ops' m'
      | None => True
      end
  end.

End Lifetime.

(** ** Reading a decoder state *)

Module DecoderView.
Import ProtocolDecoder.

Definition remaining (d : t) : Z := size_ d - offset_ d.

(** The states a decoder goes through: [size_] is the length of the
    buffer, which is an object, and [offset_] is inside it. *)
Definition wf (d : t) : Prop :=
  size_ d = vec_size (data_ d) ∧ 0 <= offset_ d <= size_ d ∧
  size_ d <= PTRDIFF_MAX.

Definition skip (n : Z) (d : t) : t :=
  {| data_ := data_ d; size_ := size_ d; offset_ := offset_ d + n |}.

(** The bytes from the cursor on, and the first [n] of them. *)
Definition pending (d : t) : list Byte.byte :=
  drop (Z.to_nat (offset_ d)) (data_ d).
Definition peek_bytes (n : Z) (d : t) : list Byte.byte :=
  take (Z.to_nat n) (pending d).

(** The value of a little-endian byte sequence. *)
Fixpoint le_value (bs : list Byte.byte) : Z :=
  match bs with
  | [] => 0
  | b :: rest => byte_val b + 256 * le_value rest
  end.

Definition peek_le (n : Z) (d : t) : Z := le_value (peek_bytes n d).
Definition peek_byte (d : t) : Byte.byte := default Byte.x00 (head (pending d)).

End DecoderView.

(** ** Little-endian byte sequences *)

(** The [n] low bytes of [v], least significant first. *)
Fixpoint le_split (n : nat) (v : Z) : list Byte.byte :=
  match n with
  | O => []
  | S n' => cast_uint8 v :: le_split n' (Z.shiftr v 8)
  end.

Module Cursor.
Import ProtocolDecoder DecoderView.

(** The decoder [d] works on the buffer [buf] and has [rest] left to
    read. *)
Definition at_rest (buf rest : list Byte.byte) (d : t) : Prop :=
  wf d ∧ data_ d = buf ∧ pending d = rest.

(** The decoder that has read all of [buf]. *)
Definition finished (buf : list Byte.byte) : t :=
  {| data_ := buf; size_ := vec_size buf; offset_ := vec_size buf |}.

End Cursor.

(** ** The fields of a [ClientInput] message *)

Module InputLayout.
Import ProtocolDecoder.

Inductive field : Type := X | Y | Z_ | Value | Timestamp.

(** The field that starts at an offset of a [ClientInput] message
    (tag at 0, then four floats and a uint32). *)
Definition field_at (offset : Z) : option field :=
  match offset with
  | 1 => Some X
  | 5 => Some Y
  | 9 => Some Z_
  | 13 => Some Value
  | 17 => Some Timestamp
  | _ => None
  end.

(** The failures of decoding a [ClientInput] identify the field they
    occurred on: the field at the decoder's offset can be told from the
    message of the exception. *)
Definition failure_identifies_field : Prop :=
  ∃ field_of : string → field,
    ∀ (payload : list Byte.byte) (what : string) (d : t),
      Codec.decode (CLIENT_INPUT :: payload) = Throw what d →
      field_at (offset_ d) = Some (field_of what).

End InputLayout.


(** ** Well-formed solvers and sessions *)

Module Invariants.

(** A solver as [initialize] leaves it and [step] and [addSource] keep
it: the grid has cells, its size fits an [int], and each field buffer
on the device holds one float triple per cell. *)
Definition solver_wf (s : FDTD3D.t) : Prop :=
let cells3 := FDTD3D.width_ s * FDTD3D.height_ s * FDTD3D.depth_ s * 3 in
0 < cells3 < 2 ^ 31 ∧
vec_size (FDTD3D.electricField_d_ s) = cells3 * 4 ∧
vec_size (FDTD3D.electricFieldNext_d_ s) = cells3 * 4 ∧
vec_size (FDTD3D.magneticField_d_ s) = cells3 * 4 ∧
vec_size (FDTD3D.magneticFieldNext_d_ s) = cells3 * 4.

Definition session_wf (s : Session.t) : Prop :=
match Session.simulation_ s with
| Some sim => solver_wf sim
| None => True
end.

(** The session is [Active]: its solver has been initialised. *)
Definition initialized (s : Session.t) : bool :=
match Session.simulation_ s with
| Some _ => true
| None => false
end.

End Invariants.

(** ** Runs of one session *)

Module SessionRun.

(** What can happen to a session: the calls of the registry on it
([handleInput], [update], [getFrameData], [markFrameSent], and a
control message, which reaches no member function), and a direct call
of the public [step]. *)
Inductive Op : Type :=
| HandleInput (now : Z) (x y z value : Z)
| GetFrameData
| MarkFrameSent
| Control (control : ClientControlMessage)
| Update (now : Z)
| Step (now : Z).

Definition exec (op : Op) (s : Session.t) : Session.t :=
match op with
| HandleInput now x y z value => Session.handleInput now x y z value s
| GetFrameData => (Session.getFrameData [] s).1
| MarkFrameSent => Session.markFrameSent s
| Control _ => s
| Update now => Session.update now s
| Step now => Session.step now s
end.

Fixpoint run (ops : list Op) (s : Session.t) : Session.t :=
match ops with
| [] => s
| op :: ops' => run ops' (exec op s)
end.

Definition is_update (op : Op) : bool :=
match op with Update _ => true | _ => false end.

Definition is_step (op : Op) : bool :=
match op with Step _ => true | _ => false end.

(** The run is driven by the registry: no direct call of [step]. *)
Definition registry_driven (ops : list Op) : Prop :=
forallb (λ op, negb (is_step op)) ops = true.

(** What [update] promises when [needsUpdate] is set: one solver step,
[hasNewFrame] set, [lastActivity] refreshed, [needsUpdate] cleared. *)
Definition update_steps_once (now : Z) (s : Session.t) : Prop :=
Session.solver_steps (Session.update now s) = S (Session.solver_steps s) ∧
Session.hasNewFrame_ (Session.update now s) = true ∧
Session.lastActivity_ (Session.update now s) = now ∧
Session.needsUpdate_ (Session.update now s) = false.

End SessionRun.

(** ** The registry's invariant *)

Module Registry.

(** Connections and session ids are bound one to one, and the two maps
  keyed by session id have the same keys. *)
Definition bound_both_ways (m : SessionManager.t) : Prop :=
∀ (ws : Z) (sessionId : string),
  SessionManager.connectionToSession_ m !! ws = Some sessionId
  ↔ SessionManager.sessionToConnection_ m !! sessionId = Some ws.

Definition same_ids (m : SessionManager.t) : Prop :=
∀ sessionId : string,
  is_Some (SessionManager.sessions_ m !! sessionId)
  ↔ is_Some (SessionManager.sessionToConnection_ m !! sessionId).

Definition inv (m : SessionManager.t) : Prop :=
bound_both_ways m ∧ same_ids m.

(** Every session of the registry has a solver. *)
Definition all_initialized (m : SessionManager.t) : Prop :=
∀ (sessionId : string) (s : Session.t),
  SessionManager.sessions_ m !! sessionId = Some s →
  Invariants.initialized s = true.

(** The session [sessionId] of [sessions] is there and expired. *)
Definition expired_id (now : Z) (sessions : gmap string Session.t)
  (sessionId : string) : bool :=
match sessions !! sessionId with
| Some session => Session.isExpired now session
| None => false
end.



End Registry.


(** ** Concrete inputs *)

Module Examples.

(** An environment in which every draw is 10 (hex digit a), and one in
  which every draw is 11 (hex digit b). *)
Definition env_a : SessionManager.Env :=
{| SessionManager.env_now := 0;
   SessionManager.env_draws := λ _, 10;
   SessionManager.env_vulkan_ok := true;
   SessionManager.env_junk := λ _ _, Byte.x00 |}.

Definition env_b : SessionManager.Env :=
{| SessionManager.env_now := 1;
   SessionManager.env_draws := λ _, 11;
   SessionManager.env_vulkan_ok := true;
   SessionManager.env_junk := λ _ _, Byte.x00 |}.

Definition id_a : string := "aaaaaaaaaaaaaaaaaaaaaaaaaaaaaaaa".
Definition id_b : string := "bbbbbbbbbbbbbbbbbbbbbbbbbbbbbbbb".

(** [ClientInput{x=0.5, y=0.5, z=0.5, value=1.0, timestamp=42}] *)
Definition input_message : ClientInputMessage :=
{| ci_x := 0x3F000000; ci_y := 0x3F000000; ci_z := 0x3F000000;
   ci_value := 0x3F800000; ci_timestamp := 42 |}.

(** A frame with an empty session id and a zero-length payload. *)
Definition empty_frame : Codec.Message :=
Codec.ServerFrame EmptyString 0 [].

(** A session constructed and not initialised. *)
Definition created_session : Session.t := Session.new "s" 0.

(** A session initialised on a grid of one cell. *)
Definition small_session : Session.t :=
default created_session
  (Session.initialize true (λ _ _, Byte.x00) 1 1 1 created_session).

(** A session without solver whose flag is clear, idle since time 0, and
  a registry that holds it, bound to connection 7. *)
Definition idle_session : Session.t :=
{| Session.sessionId_ := "s"; Session.simulation_ := None;
   Session.hasNewFrame_ := false; Session.needsUpdate_ := false;
   Session.lastActivity_ := 0;
   Session.electricFieldBuffer_ := [];
   Session.magneticFieldBuffer_ := [] |}.

Definition idle_registry : SessionManager.t :=
{| SessionManager.sessions_ := {["s" := idle_session]};
   SessionManager.connectionToSession_ := {[7 := "s"]};
   SessionManager.sessionToConnection_ := {["s" := 7]} |}.

(** 31 minutes, in clock ticks. *)
Definition after_31_minutes : Z := 31 * 60 * 10 ^ 9.

Definition session_ops : list SessionRun.Op :=
[SessionRun.HandleInput 1 0 0 0 0; SessionRun.Update 2;
 SessionRun.GetFrameData; SessionRun.MarkFrameSent; SessionRun.Update 3;
 SessionRun.Control {| cc_type := PAUSE; cc_parameter := 0 |};
 SessionRun.Update 4].

(** The same connection bound twice. *)
Definition rebinding_ops : list SessionManager.Op :=
[SessionManager.CreateSession env_a 7; SessionManager.CreateSession env_b 7].

(** A [ClientInput] tag and one byte. *)
Definition truncated_input : list Byte.byte := [Byte.x01; Byte.x00].

End Examples.

(** ** Server.cpp: the WebSocket handlers and the simulation loop *)

Module Server.

(** [uWS::OpCode], of the uWebSockets library. *)
Inductive OpCode : Type :=
| CONTINUATION | TEXT | BINARY | CLOSE | PING | PONG.

(** The lines the handlers themselves write to [std::cout] and
    [std::cerr]; what the functions they call write (the messages of
    [VulkanManager]) is not part of it. *)
Inductive LogEntry : Type :=
| ConnectionOpened (sessionId : string)
| TextMessage (message : list Byte.byte)
| UnknownMessageType (msgType : MessageType)
| HandlingError (what : string)
| Disconnected (code : Z).

(** A handler returns, with the registry it leaves and what it logged,
    or lets an exception escape, or has undefined behaviour. *)
Inductive handled : Type :=
| Returned (m : SessionManager.t) (log : list LogEntry)
| Escaped
| Undefined.

(** The [try] block decodes the header and the message and routes it;
    the [catch] logs [e.what()].  [now] is the clock reading of
    [Session::handleInput].  The worker threads of [run] are not part
    of this model: the two calls of the registry follow each other. *)
Definition handleWebSocket (now : Z) (ws : WebSocketPtr)
    (message : list Byte.byte) (opCode : OpCode) (m : SessionManager.t)
    : handled :=
  let decoder := ProtocolDecoder.new message in
  match ProtocolDecoder.decodeHeader decoder with
  | ProtocolDecoder.OutOfBounds => Undefined
  | ProtocolDecoder.Throw what _ => Returned m [HandlingError what]
  | ProtocolDecoder.Ok msgType decoder =>
      if Byte.eqb msgType CLIENT_INPUT then
        match ProtocolDecoder.decodeClientInput decoder with
        | ProtocolDecoder.OutOfBounds => Undefined
        | ProtocolDecoder.Throw what _ => Returned m [HandlingError what]
        | ProtocolDecoder.Ok input _ =>
            match SessionManager.getSessionId ws m with
            | Some sessionId =>
                Returned (SessionManager.handleInput now sessionId input m) []
            | None => Returned m []
            end
        end
      else if Byte.eqb msgType CLIENT_CONTROL then
        match ProtocolDecoder.decodeClientControl decoder with
        | ProtocolDecoder.OutOfBounds => Undefined
        | ProtocolDecoder.Throw what _ => Returned m [HandlingError what]
        | ProtocolDecoder.Ok control _ =>
            match SessionManager.getSessionId ws m with
            | Some sessionId =>
                Returned (SessionManager.handleControl sessionId control m) []
            | None => Returned m []
            end
        end
      else Returned m [UnknownMessageType msgType]
  end.

(** [removeSession] destroys the session of the connection. *)
Definition handleDisconnect (ws : WebSocketPtr) (code : Z)
    (message : list Byte.byte) (m : SessionManager.t) : handled :=
  match Lifetime.removeSession ws m with
  | Some m' => Returned m' [Disconnected code]
  | None => Undefined
  end.

(** The [.open], [.message] and [.close] handlers of [setupRoutes].
    [.open] does not catch what [createSession] throws. *)
Definition on_open (alloc_ok : nat → bool) (env : SessionManager.Env)
    (ws : WebSocketPtr) (m : SessionManager.t) : handled :=
  match Lifetime.createSession alloc_ok env ws m with
  | Lifetime.Returns (sessionId, m') =>
      Returned m' [ConnectionOpened sessionId]
  | Lifetime.Throws _ => Escaped
  | Lifetime.Undefined => Undefined
  end.

Definition on_message (now : Z) (ws : WebSocketPtr)
    (message : list Byte.byte) (opCode : OpCode) (m : SessionManager.t)
    : handled :=
  match opCode with
  | BINARY => handleWebSocket now ws message opCode m
  | TEXT => Returned m [TextMessage message]
  | _ => Returned m []
  end.

Definition on_close (ws : WebSocketPtr) (code : Z)
    (message : list Byte.byte) (m : SessionManager.t) : handled :=
  handleDisconnect ws code message m.

(** One iteration of the loop of a simulation thread in [run]:
    [updateAll], then [broadcastFrames]. *)
Definition simulation_tick (now : Z) (m : SessionManager.t)
    : SessionManager.t * list (Z * list Byte.byte) :=
  SessionManager.broadcastFrames (SessionManager.updateAll now m).

End Server.

(** ** Positions in a buffer *)

Module Wire.

(** The decoder over [buf] with its cursor at [offset]. *)
Definition reading (buf : list Byte.byte) (offset : Z) : ProtocolDecoder.t :=
  {| ProtocolDecoder.data_ := buf;
     ProtocolDecoder.size_ := vec_size buf;
     ProtocolDecoder.offset_ := offset |}.

(** The state a decoder function leaves behind, if it returned or
    threw. *)
Definition state_after {A} (o : ProtocolDecoder.outcome A)
    : option ProtocolDecoder.t :=
  match o with
  | ProtocolDecoder.Ok _ d => Some d
  | ProtocolDecoder.Throw _ d => Some d
  | ProtocolDecoder.OutOfBounds => None
  end.

(** [d'] works on the buffer of [d], no further back than [d]. *)
Definition advanced (d d' : ProtocolDecoder.t) : Prop :=
  ProtocolDecoder.data_ d' = ProtocolDecoder.data_ d ∧
  ProtocolDecoder.size_ d' = ProtocolDecoder.size_ d ∧
  ProtocolDecoder.offset_ d <= ProtocolDecoder.offset_ d'
    <= ProtocolDecoder.size_ d.

(** [f], called on [d], returns or throws and leaves a decoder on the
    same buffer, its cursor advanced and inside the buffer. *)
Definition stays_inside {A} (f : ProtocolDecoder.M A)
    (d : ProtocolDecoder.t) : Prop :=
  ∃ d', state_after (f d) = Some d' ∧ advanced d d' ∧ DecoderView.wf d'.

End Wire.

(** ** Runs of a solver *)

Module SolverRun.

Inductive Op : Type :=
| Step
| AddSource (x y z value : Z).

Definition exec (op : Op) (s : FDTD3D.t) : FDTD3D.t :=
  match op with
  | Step => FDTD3D.step s
  | AddSource x y z value => FDTD3D.addSource x y z value s
  end.

Fixpoint run (ops : list Op) (s : FDTD3D.t) : FDTD3D.t :=
  match ops with
  | [] => s
  | op :: ops' => run ops' (exec op s)
  end.

End SolverRun.

(** ** What the registry sends *)

Module Traffic.

(** The messages an operation of the registry hands to [ws->send]. *)
Definition sent (op : SessionManager.Op) (m : SessionManager.t)
    : list (Z * list Byte.byte) :=
  match op with
  | SessionManager.BroadcastFrames => (SessionManager.broadcastFrames m).2
  | _ => []
  end.

Fixpoint run_sent (ops : list SessionManager.Op) (m : SessionManager.t)
    : list (Z * list Byte.byte) :=
  match ops with
  | [] => []
  | op :: ops' => sent op m ++ run_sent ops' (SessionManager.exec op m)
  end.

Definition is_create (op : SessionManager.Op) : bool :=
  match op with SessionManager.CreateSession _ _ => true | _ => false end.

(** Every session of the registry is well formed. *)
Definition all_wf (m : SessionManager.t) : Prop :=
  ∀ (sessionId : string) (s : Session.t),
    SessionManager.sessions_ m !! sessionId = Some s →
    Invariants.session_wf s.

(** Nothing is left to send and nothing will be stepped: every session
    is well formed, has had its update, and has no frame pending that
    [broadcastFrames] would send. *)
Definition quiet (m : SessionManager.t) : Prop :=
  ∀ (sessionId : string) (s : Session.t),
    SessionManager.sessions_ m !! sessionId = Some s →
    Invariants.session_wf s ∧ Session.needsUpdate_ s = false ∧
    (Session.hasNewFrame_ s = true →
     Invariants.initialized s = false ∨
     SessionManager.sessionToConnection_ m !! sessionId = None).

(** The frame [broadcastFrames] sends for the session [s]. *)
Definition frame_of (sessionId : string) (s : Session.t) : list Byte.byte :=
  ProtocolEncoder.getBuffer
    (ProtocolEncoder.encodeFrame sessionId (Session.getFrameData [] s).2
       (Session.getSimulationTime (Session.getFrameData [] s).1)
       ProtocolEncoder.new).

End Traffic.

(** ** The solver after [initialize] *)

Module FreshSolver.

(** The vacuum pattern of [initializeMaterialField], once per cell. *)
Definition vacuum (cells : Z) : list Byte.byte :=
  mjoin (replicate (Z.to_nat cells) [Byte.xff; Byte.xff; Byte.x00; Byte.xff]).

(** The solver on a [w] x [h] x [d] grid with its device memory written
    out: the six field buffers of three floats per cell and the buffer
    of four floats per cell hold what their allocation held, the
    material buffer holds the vacuum pattern. *)
Definition state (junk : nat → nat → Byte.byte) (w h d : Z) : FDTD3D.t := {|
  FDTD3D.width_ := w; FDTD3D.height_ := h; FDTD3D.depth_ := d;
  FDTD3D.time_ := 0; FDTD3D.dt_ := 0x3F50624DD2F1A9FC;
  FDTD3D.cellSize_ := 0x3F847AE147AE147B;
  FDTD3D.vulkanManager_ := {| VulkanManager.initialized_ := true |};
  FDTD3D.electricField_d_ :=
    VulkanManager.allocateBuffer (junk 0%nat) (w * h * d * 12);
  FDTD3D.electricFieldNext_d_ :=
    VulkanManager.allocateBuffer (junk 1%nat) (w * h * d * 12);
  FDTD3D.magneticField_d_ :=
    VulkanManager.allocateBuffer (junk 2%nat) (w * h * d * 12);
  FDTD3D.magneticFieldNext_d_ :=
    VulkanManager.allocateBuffer (junk 3%nat) (w * h * d * 12);
  FDTD3D.sourceField_d_ :=
    VulkanManager.allocateBuffer (junk 4%nat) (w * h * d * 12);
  FDTD3D.sourceFieldNext_d_ :=
    VulkanManager.allocateBuffer (junk 5%nat) (w * h * d * 12);
  FDTD3D.materialField_d_ := vacuum (w * h * d);
  FDTD3D.alphaBetaField_d_ :=
    VulkanManager.allocateBuffer (junk 7%nat) (w * h * d * 16);
  FDTD3D.step_calls := 0
|}.

End FreshSolver.

(** ** More concrete inputs *)

Module Samples.

(** The twenty bytes of [ClientInput{x=0.5, y=0.5, z=0.5, value=1.0,
    timestamp=42}]. *)
Definition input_body : list Byte.byte :=
  [Byte.x00; Byte.x00; Byte.x00; Byte.x3f;
   Byte.x00; Byte.x00; Byte.x00; Byte.x3f;
   Byte.x00; Byte.x00; Byte.x00; Byte.x3f;
   Byte.x00; Byte.x00; Byte.x80; Byte.x3f;
   Byte.x2a; Byte.x00; Byte.x00; Byte.x00].

(** The one-cell session after its update, and its solver. *)
Definition stepped_solver : FDTD3D.t :=
  FDTD3D.step (FreshSolver.state (λ _ _, Byte.x00) 1 1 1).

Definition stepped_session : Session.t :=
  Session.update 5 Examples.small_session.

(** Registries that hold the one-cell session, before and after its
    update, bound to connection 7. *)
Definition small_registry : SessionManager.t :=
  {| SessionManager.sessions_ := {["s" := Examples.small_session]};
     SessionManager.connectionToSession_ := {[7 := "s"]};
     SessionManager.sessionToConnection_ := {["s" := 7]} |}.

Definition stepped_registry : SessionManager.t :=
  {| SessionManager.sessions_ := {["s" := stepped_session]};
     SessionManager.connectionToSession_ := {[7 := "s"]};
     SessionManager.sessionToConnection_ := {["s" := 7]} |}.

(** Allocations that all succeed. *)
Definition all_ok : nat → bool := λ _, true.

(** The same connection opened twice. *)
Definition rebinding : list Lifetime.Op :=
  [Lifetime.CreateSession all_ok Examples.env_a 7;
   Lifetime.CreateSession all_ok Examples.env_b 7].

(** A connection is opened and sends an input; the loop goes round
    once; a connection that was never opened is closed. *)
Definition opening : list Lifetime.Op :=
  [Lifetime.CreateSession all_ok Examples.env_a 7;
   Lifetime.HandleInput 1 Examples.id_a Examples.input_message;
   Lifetime.UpdateAll 5; Lifetime.BroadcastFrames;
   Lifetime.RemoveSession 8].

End Samples.


(** * Proofs *)

(** * Facts on machine integers and bytes *)

Lemma byte_val_range (b : Byte.byte) : 0 <= byte_val b < 256.
Proof.
  unfold byte_val. pose proof (Byte.to_N_bounded b). lia.
Qed.

Lemma byte_val_cast_uint8 (v : Z) : byte_val (cast_uint8 v) = v mod 256.
Proof.
  unfold byte_val, cast_uint8.
  pose proof (Z.mod_pos_bound v 256 ltac:(lia)) as Hr.
  destruct (Byte.of_N (Z.to_N (v mod 256))) as [b|] eqn:E.
  - apply Byte.to_of_N in E. simpl. rewrite E. lia.
  - apply Byte.of_N_None_iff in E. lia.
Qed.

Lemma cast_uint8_byte_val (b : Byte.byte) : cast_uint8 (byte_val b) = b.
Proof.
  unfold cast_uint8, byte_val.
  pose proof (Byte.to_N_bounded b).
  rewrite Z.mod_small by lia.
  rewrite N2Z.id, Byte.of_to_N. reflexivity.
Qed.

Lemma byte_val_inj (a b : Byte.byte) : byte_val a = byte_val b → a = b.
Proof.
  intros H. rewrite <- (cast_uint8_byte_val a), <- (cast_uint8_byte_val b).
  by rewrite H.
Qed.

(** Bits that do not overlap: [|] is [+]. *)
Lemma lor_disjoint_add (lo hi n : Z) :
  0 <= n → 0 <= lo < 2 ^ n → Z.lor lo (hi * 2 ^ n) = lo + hi * 2 ^ n.
Proof.
  intros Hn Hlo.
  rewrite <- Z.add_lor_land.
  assert (Z.land lo (hi * 2 ^ n) = 0) as ->; [|lia].
  apply Z.bits_inj'. intros k Hk.
  rewrite Z.land_spec, Z.bits_0.
  destruct (Z.lt_ge_cases k n) as [Hlt|Hge].
  - rewrite Z.mul_pow2_bits_low by lia. apply andb_false_r.
  - destruct (Z.eq_dec lo 0) as [->|Hne].
    + by rewrite Z.bits_0.
    + rewrite (Z.bits_above_log2 lo k); [done|lia|].
      apply Z.log2_lt_pow2; [lia|].
      apply Z.lt_le_trans with (2 ^ n); [lia|].
      apply Z.pow_le_mono_r; lia.
Qed.

Lemma shl_uint32_byte (b : Byte.byte) (n : Z) :
  0 <= n <= 24 → ProtocolDecoder.shl_uint32 (byte_val b) n = byte_val b * 2 ^ n.
Proof.
  intros Hn. unfold ProtocolDecoder.shl_uint32, cast_uint32.
  rewrite Z.shiftl_mul_pow2 by lia.
  pose proof (byte_val_range b).
  assert (2 ^ n <= 2 ^ 24) by (apply Z.pow_le_mono_r; lia).
  assert (0 < 2 ^ n) by (apply Z.pow_pos_nonneg; lia).
  apply Z.mod_small. change (2 ^ 32) with (256 * 2 ^ 24). nia.
Qed.

Lemma shl_uint64_byte (b : Byte.byte) (n : Z) :
  0 <= n <= 56 → ProtocolDecoder.shl_uint64 (byte_val b) n = byte_val b * 2 ^ n.
Proof.
  intros Hn. unfold ProtocolDecoder.shl_uint64, cast_uint64.
  rewrite Z.shiftl_mul_pow2 by lia.
  pose proof (byte_val_range b).
  assert (2 ^ n <= 2 ^ 56) by (apply Z.pow_le_mono_r; lia).
  assert (0 < 2 ^ n) by (apply Z.pow_pos_nonneg; lia).
  apply Z.mod_small. change (2 ^ 64) with (256 * 2 ^ 56). nia.
Qed.

(** The signed shift wraps only for the top byte. *)
Lemma shl_int32_byte_low (b : Byte.byte) (n : Z) :
  0 <= n <= 16 → ProtocolDecoder.shl_int32 (byte_val b) n = byte_val b * 2 ^ n.
Proof.
  intros Hn. unfold ProtocolDecoder.shl_int32, cast_int32.
  rewrite Z.shiftl_mul_pow2 by lia.
  pose proof (byte_val_range b).
  assert (2 ^ n <= 2 ^ 16) by (apply Z.pow_le_mono_r; lia).
  assert (0 < 2 ^ n) by (apply Z.pow_pos_nonneg; lia).
  rewrite Z.mod_small; [lia|].
  change (2 ^ 32) with (65536 * 2 ^ 16). change (2 ^ 31) with (32768 * 2 ^ 16).
  nia.
Qed.

Lemma shl_int32_byte_top (b : Byte.byte) :
  ProtocolDecoder.shl_int32 (byte_val b) 24 =
  (if byte_val b <? 128 then byte_val b else byte_val b - 256) * 2 ^ 24.
Proof.
  unfold ProtocolDecoder.shl_int32, cast_int32.
  rewrite Z.shiftl_mul_pow2 by lia.
  pose proof (byte_val_range b).
  destruct (Z.ltb_spec (byte_val b) 128).
  - rewrite Z.mod_small; lia.
  - replace (byte_val b * 2 ^ 24 + 2 ^ 31)
      with ((byte_val b * 2 ^ 24 - 2 ^ 31) + 1 * 2 ^ 32) by lia.
    rewrite Z.mod_add by lia. rewrite Z.mod_small; lia.
Qed.

(** The four bytes of a little-endian 32-bit value. *)
Lemma le32_digits (v : Z) :
  v mod 2 ^ 32 =
  v mod 256 + Z.shiftr v 8 mod 256 * 2 ^ 8 + Z.shiftr v 16 mod 256 * 2 ^ 16
  + Z.shiftr v 24 mod 256 * 2 ^ 24.
Proof.
  rewrite !Z.shiftr_div_pow2 by lia.
  change (2 ^ 32) with 4294967296. change (2 ^ 8) with 256.
  change (2 ^ 16) with 65536. change (2 ^ 24) with 16777216.
  Z.div_mod_to_equations. lia.
Qed.

(** * The decoder, function by function *)

Section decoder_facts.
Import ProtocolDecoder DecoderView.

Lemma cast_size_t_small (v : Z) : 0 <= v < 2 ^ 64 → cast_size_t v = v.
Proof. intros. unfold cast_size_t. by apply Z.mod_small. Qed.

Lemma length_pending (d : t) :
  wf d → vec_size (pending d) = remaining d.
Proof.
  intros (Hs & Ho & _). unfold pending, remaining, vec_size in *.
  rewrite length_drop. lia.
Qed.

Lemma wf_skip (d : t) (n : Z) :
  wf d → 0 <= n <= remaining d → wf (skip n d).
Proof.
  unfold wf, remaining, skip. simpl. intros (Hs & Ho & Hm) Hn.
  repeat split; lia.
Qed.

Lemma remaining_skip (d : t) (n : Z) :
  remaining (skip n d) = remaining d - n.
Proof. unfold remaining, skip. simpl. lia. Qed.

Lemma pending_skip (d : t) (n : Z) :
  0 <= offset_ d → 0 <= n → pending (skip n d) = drop (Z.to_nat n) (pending d).
Proof.
  intros Ho Hn. unfold pending, skip. simpl.
  rewrite drop_drop. f_equal. lia.
Qed.

Lemma skip_skip (d : t) (n k : Z) : skip k (skip n d) = skip (n + k) d.
Proof. unfold skip. simpl. f_equal. lia. Qed.

(** [data_[offset_ + k]] is the [k]-th pending byte. *)
Lemma at_pending (d : t) (k : Z) :
  wf d → 0 <= k < remaining d →
  at_ (offset_ d + k) d =
  match pending d !! Z.to_nat k with
  | Some b => Ok b d
  | None => OutOfBounds
  end.
Proof.
  intros (Hs & Ho & _) Hk. unfold at_, pending.
  destruct (Z.ltb_spec (offset_ d + k) 0); [lia|].
  rewrite lookup_drop. by replace (Z.to_nat (offset_ d + k))
    with (Z.to_nat (offset_ d) + Z.to_nat k)%nat by lia.
Qed.

Lemma at_pending_cast (d : t) (k : Z) :
  wf d → 0 <= k < remaining d →
  at_ (cast_size_t (offset_ d + k)) d =
  match pending d !! Z.to_nat k with
  | Some b => Ok b d
  | None => OutOfBounds
  end.
Proof.
  intros Hwf Hk. rewrite cast_size_t_small; [by apply at_pending|].
  destruct Hwf as (_ & Ho & Hm). unfold remaining, PTRDIFF_MAX in *. lia.
Qed.

Lemma at_pending_byte (d : t) (k : Z) (b : Byte.byte) :
  wf d → 0 <= k → pending d !! Z.to_nat k = Some b →
  at_ (cast_size_t (offset_ d + k)) d = Ok b d.
Proof.
  intros Hwf Hk Hb.
  assert (k < remaining d).
  { apply lookup_lt_Some in Hb. rewrite <- length_pending by done.
    unfold vec_size. lia. }
  rewrite at_pending_cast, Hb by (done || lia). done.
Qed.

Lemma at_pending_head (d : t) (b : Byte.byte) :
  wf d → pending d !! 0%nat = Some b → at_ (offset_ d) d = Ok b d.
Proof.
  intros Hwf Hb. rewrite <- (at_pending_byte d 0 b) by (done || lia).
  rewrite cast_size_t_small; [f_equal; lia|].
  destruct Hwf as (_ & ? & ?). unfold PTRDIFF_MAX in *. lia.
Qed.

Lemma range_pending (d : t) (len : Z) :
  wf d → 0 <= len <= remaining d →
  range_ (offset_ d) len d = Ok (peek_bytes len d) d.
Proof.
  intros (Hs & Ho & _) Hl. unfold range_, peek_bytes, pending, remaining in *.
  destruct (Z.ltb_spec (offset_ d) 0); [lia|].
  destruct (Z.ltb_spec len 0); [lia|].
  destruct (Z.ltb_spec (vec_size (data_ d)) (offset_ d + len)); [lia|].
  done.
Qed.

Lemma set_offset_skip (d : t) (n : Z) :
  wf d → 0 <= n <= remaining d →
  set_offset (cast_size_t (offset_ d + n)) d = Ok tt (skip n d).
Proof.
  intros (_ & Ho & Hm) Hn. unfold set_offset, skip.
  rewrite cast_size_t_small; [done|].
  unfold remaining, PTRDIFF_MAX in *. lia.
Qed.

Lemma overrun_iff (d : t) (n : Z) :
  wf d → 0 <= n < 2 ^ 63 →
  (cast_size_t (offset_ d + n) >? size_ d) = (remaining d <? n).
Proof.
  intros (_ & Ho & Hm) Hn. rewrite cast_size_t_small.
  - unfold remaining. destruct (Z.gtb_spec (offset_ d + n) (size_ d)),
      (Z.ltb_spec (size_ d - offset_ d) n); lia.
  - unfold PTRDIFF_MAX in *. lia.
Qed.

Lemma exhausted_iff (d : t) :
  wf d → (offset_ d >=? size_ d) = (remaining d <? 1).
Proof.
  intros (_ & Ho & _). unfold remaining.
  destruct (Z.geb_spec (offset_ d) (size_ d)),
    (Z.ltb_spec (size_ d - offset_ d) 1); lia.
Qed.

End decoder_facts.

Section decoder_bind.
Import ProtocolDecoder.

Lemma bind_eq {A B} (m : M A) (k : A → M B) (d : t) :
  (m ≫= k) d =
  match m d with
  | Ok a d' => k a d'
  | Throw what d' => Throw what d'
  | OutOfBounds => OutOfBounds
  end.
Proof. reflexivity. Qed.

End decoder_bind.

Ltac m_enter :=
  rewrite bind_eq; unfold ProtocolDecoder.get_offset; cbv beta iota;
  rewrite bind_eq; unfold ProtocolDecoder.get_size; cbv beta iota.

Ltac m_at Hp :=
  rewrite bind_eq;
  first [erewrite at_pending_byte by (done || lia || (rewrite Hp; reflexivity))
        | erewrite at_pending_head by (done || (rewrite Hp; reflexivity))];
  cbv beta iota.

Section decoder_reads.
Import ProtocolDecoder DecoderView.

(** With [n] bytes pending, the first [n] can be named. *)
Lemma pending_cons (d : t) :
  wf d → 1 <= remaining d →
  ∃ b rest, pending d = b :: rest.
Proof.
  intros Hwf Hr. pose proof (length_pending d Hwf) as Hl.
  destruct (pending d) as [|b rest]; [unfold vec_size in Hl; simpl in Hl; lia|].
  eauto.
Qed.

Lemma pending_four (d : t) :
  wf d → 4 <= remaining d →
  ∃ b0 b1 b2 b3 rest, pending d = b0 :: b1 :: b2 :: b3 :: rest.
Proof.
  intros Hwf Hr. pose proof (length_pending d Hwf) as Hl.
  unfold vec_size in Hl.
  destruct (pending d) as [|b0 [|b1 [|b2 [|b3 rest]]]];
    simpl in Hl; try lia.
  eauto 6.
Qed.

Lemma le_value_four (b0 b1 b2 b3 : Byte.byte) :
  le_value [b0; b1; b2; b3] =
  byte_val b0 + byte_val b1 * 2 ^ 8 + byte_val b2 * 2 ^ 16
  + byte_val b3 * 2 ^ 24.
Proof. simpl le_value. lia. Qed.

Lemma lor_four_uint32 (b0 b1 b2 b3 : Byte.byte) :
  Z.lor (Z.lor (Z.lor (byte_val b0) (shl_uint32 (byte_val b1) 8))
               (shl_uint32 (byte_val b2) 16))
        (shl_uint32 (byte_val b3) 24)
  = le_value [b0; b1; b2; b3].
Proof.
  rewrite !shl_uint32_byte by lia. rewrite le_value_four.
  pose proof (byte_val_range b0). pose proof (byte_val_range b1).
  pose proof (byte_val_range b2). pose proof (byte_val_range b3).
  rewrite (lor_disjoint_add (byte_val b0)) by lia.
  rewrite (lor_disjoint_add _ (byte_val b2)) by lia.
  rewrite (lor_disjoint_add _ (byte_val b3)) by lia.
  reflexivity.
Qed.

Lemma lor_four_int32 (b0 b1 b2 b3 : Byte.byte) :
  Z.lor (Z.lor (Z.lor (byte_val b0) (shl_int32 (byte_val b1) 8))
               (shl_int32 (byte_val b2) 16))
        (shl_int32 (byte_val b3) 24)
  = cast_int32 (le_value [b0; b1; b2; b3]).
Proof.
  rewrite !shl_int32_byte_low by lia. rewrite shl_int32_byte_top.
  rewrite le_value_four.
  pose proof (byte_val_range b0). pose proof (byte_val_range b1).
  pose proof (byte_val_range b2). pose proof (byte_val_range b3).
  rewrite (lor_disjoint_add (byte_val b0)) by lia.
  rewrite (lor_disjoint_add _ (byte_val b2)) by lia.
  rewrite (lor_disjoint_add _ _ 24) by lia.
  unfold cast_int32.
  destruct (Z.ltb_spec (byte_val b3) 128).
  - rewrite Z.mod_small; lia.
  - match goal with |- _ = ?x mod _ - _ =>
      replace x with ((x - 2 ^ 32) + 1 * 2 ^ 32) by lia end.
    rewrite Z.mod_add by lia. rewrite Z.mod_small; lia.
Qed.

Lemma decodeHeader_eq (d : t) :
  wf d →
  decodeHeader d =
  if remaining d <? 1 then Throw "Invalid message: not enough data" d
  else Ok (peek_byte d) (skip 1 d).
Proof.
  intros Hwf. unfold decodeHeader. m_enter.
  rewrite exhausted_iff by done.
  destruct (Z.ltb_spec (remaining d) 1) as [|Hr]; [done|].
  destruct (pending_cons d Hwf Hr) as (b & rest & Hp).
  m_at Hp.
  rewrite bind_eq, set_offset_skip by (done || lia).
  unfold peek_byte. by rewrite Hp.
Qed.

(** The shared shape of the three 4-byte readers. *)
Ltac four_byte_read d Hwf lor_lemma :=
  m_enter;
  rewrite overrun_iff by (done || lia);
  let Hr := fresh "Hr" in
  destruct (Z.ltb_spec (remaining d) 4) as [|Hr]; [done|];
  let b0 := fresh "b0" in let b1 := fresh "b1" in
  let b2 := fresh "b2" in let b3 := fresh "b3" in
  let rest := fresh "rest" in let Hp := fresh "Hp" in
  destruct (pending_four d Hwf Hr) as (b0 & b1 & b2 & b3 & rest & Hp);
  m_at Hp; m_at Hp; m_at Hp; m_at Hp;
  rewrite bind_eq, set_offset_skip by (done || lia);
  unfold peek_le, peek_bytes; rewrite Hp;
  change (take (Z.to_nat 4) (b0 :: b1 :: b2 :: b3 :: rest))
    with [b0; b1; b2; b3];
  by rewrite <- lor_lemma.

Lemma readUInt32_eq (d : t) :
  wf d →
  readUInt32 d =
  if remaining d <? 4
  then Throw "Invalid message: not enough data for uint32" d
  else Ok (peek_le 4 d) (skip 4 d).
Proof.
  intros Hwf. unfold readUInt32. four_byte_read d Hwf lor_four_uint32.
Qed.

Lemma readFloat_eq (d : t) :
  wf d →
  readFloat d =
  if remaining d <? 4
  then Throw "Invalid message: not enough data for float" d
  else Ok (peek_le 4 d) (skip 4 d).
Proof.
  intros Hwf. unfold readFloat. four_byte_read d Hwf lor_four_uint32.
Qed.

Lemma readInt32_eq (d : t) :
  wf d →
  readInt32 d =
  if remaining d <? 4
  then Throw "Invalid message: not enough data for int32" d
  else Ok (cast_int32 (peek_le 4 d)) (skip 4 d).
Proof.
  intros Hwf. unfold readInt32. four_byte_read d Hwf lor_four_int32.
Qed.


Lemma le_value_range (bs : list Byte.byte) :
  0 <= le_value bs < 256 ^ vec_size bs.
Proof.
  unfold vec_size. induction bs as [|b bs IH].
  - simpl. lia.
  - cbn [le_value length]. pose proof (byte_val_range b).
    rewrite Nat2Z.inj_succ, Z.pow_succ_r by lia. lia.
Qed.

Lemma peek_le_range (d : t) (n : Z) :
  0 <= n → 0 <= peek_le n d < 256 ^ n.
Proof.
  intros Hn. unfold peek_le, peek_bytes.
  pose proof (le_value_range (take (Z.to_nat n) (pending d))) as H.
  assert (vec_size (take (Z.to_nat n) (pending d)) <= n).
  { unfold vec_size. rewrite length_take. lia. }
  split; [lia|]. eapply Z.lt_le_trans; [apply H|].
  apply Z.pow_le_mono_r; lia.
Qed.

Lemma le_value_app (bs cs : list Byte.byte) :
  le_value (bs ++ cs) = le_value bs + 256 ^ vec_size bs * le_value cs.
Proof.
  unfold vec_size. induction bs as [|b bs IH].
  - simpl. lia.
  - cbn [le_value length app]. rewrite IH, Nat2Z.inj_succ, Z.pow_succ_r by lia.
    lia.
Qed.

Lemma lor_disjoint_bytes (lo hi i : Z) :
  0 <= i → 0 <= lo < 256 ^ i → Z.lor lo (hi * 256 ^ i) = lo + hi * 256 ^ i.
Proof.
  intros Hi. replace (256 ^ i) with (2 ^ (8 * i)).
  - apply lor_disjoint_add. lia.
  - change 256 with (2 ^ 8). by rewrite <- Z.pow_mul_r by lia.
Qed.

(** The loop of [readDouble] adds one byte per iteration. *)
Lemma readDouble_loop_eq (d : t) (n : nat) :
  wf d →
  ∀ (i bits : Z),
    0 <= i → i + Z.of_nat n <= remaining d → i + Z.of_nat n <= 8 →
    0 <= bits < 256 ^ i →
    readDouble_loop (offset_ d) bits i n d =
    Ok (bits + 256 ^ i * le_value (take n (drop (Z.to_nat i) (pending d)))) d.
Proof.
  intros Hwf. induction n as [|n IH]; intros i bits Hi Hr H8 Hb.
  - simpl. unfold mret, M_ret. f_equal. lia.
  - cbn [readDouble_loop].
    destruct (lookup_lt_is_Some_2 (pending d) (Z.to_nat i)) as [b Hlk].
    { pose proof (length_pending d Hwf). unfold vec_size in *. lia. }
    rewrite bind_eq, (at_pending_byte d i b) by (done || lia).
    rewrite shl_uint64_byte by lia.
    assert (2 ^ (i * 8) = 256 ^ i) as ->.
    { change 256 with (2 ^ 8). rewrite <- Z.pow_mul_r by lia. f_equal. lia. }
    rewrite lor_disjoint_bytes by lia.
    pose proof (byte_val_range b).
    rewrite IH; [| lia | lia | lia |].
    + f_equal. rewrite (drop_S _ _ _ Hlk). cbn [take le_value].
      replace (Z.to_nat (i + 1)) with (S (Z.to_nat i)) by lia.
      rewrite Z.pow_add_r by lia. lia.
    + rewrite Z.pow_add_r by lia. nia.
Qed.

Lemma readDouble_eq (d : t) :
  wf d →
  readDouble d =
  if remaining d <? 8
  then Throw "Invalid message: not enough data for double" d
  else Ok (peek_le 8 d) (skip 8 d).
Proof.
  intros Hwf. unfold readDouble. m_enter.
  rewrite overrun_iff by (done || lia).
  destruct (Z.ltb_spec (remaining d) 8) as [|Hr]; [done|].
  rewrite bind_eq, (readDouble_loop_eq d 8 Hwf 0 0) by (simpl; lia).
  cbv beta iota. rewrite bind_eq, set_offset_skip by (done || lia).
  unfold mret, M_ret, peek_le, peek_bytes. f_equal.
  change (Z.to_nat 0) with 0%nat. rewrite drop_0.
  change (Z.to_nat 8) with 8%nat. lia.
Qed.

Lemma readString_eq (d : t) :
  wf d →
  readString d =
  if remaining d <? 4
  then Throw "Invalid message: not enough data for uint32" d
  else
    let len := peek_le 4 d in
    if remaining d - 4 <? len
    then Throw "Invalid message: string length exceeds buffer" (skip 4 d)
    else Ok (String.string_of_list_byte (peek_bytes len (skip 4 d)))
            (skip (4 + len) d).
Proof.
  intros Hwf. unfold readString. rewrite bind_eq, readUInt32_eq by done.
  destruct (Z.ltb_spec (remaining d) 4) as [|Hr]; [done|].
  cbv beta iota zeta.
  assert (wf (skip 4 d)) as Hwf' by (apply wf_skip; [done|lia]).
  pose proof (peek_le_range d 4 ltac:(lia)) as Hlen.
  change (256 ^ 4) with (2 ^ 32) in Hlen.
  m_enter.
  change (offset_ (skip 4 d) + peek_le 4 d)
    with (offset_ (skip 4 d) + peek_le 4 d).
  rewrite overrun_iff by (done || lia).
  rewrite remaining_skip.
  destruct (Z.ltb_spec (remaining d - 4) (peek_le 4 d)) as [|Hl]; [done|].
  rewrite bind_eq, range_pending
    by (done || (rewrite remaining_skip; lia)).
  cbv beta iota.
  rewrite bind_eq, set_offset_skip
    by (done || (rewrite remaining_skip; lia)).
  by rewrite skip_skip.
Qed.

Lemma decodeClientInput_eq (d : t) :
  wf d →
  decodeClientInput d =
  if remaining d <? 4
  then Throw "Invalid message: not enough data for float" d
  else if remaining d <? 8
  then Throw "Invalid message: not enough data for float" (skip 4 d)
  else if remaining d <? 12
  then Throw "Invalid message: not enough data for float" (skip 8 d)
  else if remaining d <? 16
  then Throw "Invalid message: not enough data for float" (skip 12 d)
  else if remaining d <? 20
  then Throw "Invalid message: not enough data for uint32" (skip 16 d)
  else Ok {| ci_x := peek_le 4 d; ci_y := peek_le 4 (skip 4 d);
             ci_z := peek_le 4 (skip 8 d); ci_value := peek_le 4 (skip 12 d);
             ci_timestamp := peek_le 4 (skip 16 d) |} (skip 20 d).
Proof.
  intros Hwf. unfold decodeClientInput.
  rewrite bind_eq, readFloat_eq by done.
  destruct (Z.ltb_spec (remaining d) 4); [done|].
  assert (wf (skip 4 d)) by (apply wf_skip; [done|lia]).
  rewrite bind_eq, readFloat_eq, remaining_skip by done.
  destruct (Z.ltb_spec (remaining d - 4) 4),
    (Z.ltb_spec (remaining d) 8); try lia; [done|].
  rewrite skip_skip; change (4 + 4) with 8.
  assert (wf (skip 8 d)) by (apply wf_skip; [done|lia]).
  rewrite bind_eq, readFloat_eq, remaining_skip by done.
  destruct (Z.ltb_spec (remaining d - 8) 4),
    (Z.ltb_spec (remaining d) 12); try lia; [done|].
  rewrite skip_skip; change (8 + 4) with 12.
  assert (wf (skip 12 d)) by (apply wf_skip; [done|lia]).
  rewrite bind_eq, readFloat_eq, remaining_skip by done.
  destruct (Z.ltb_spec (remaining d - 12) 4),
    (Z.ltb_spec (remaining d) 16); try lia; [done|].
  rewrite skip_skip; change (12 + 4) with 16.
  assert (wf (skip 16 d)) by (apply wf_skip; [done|lia]).
  rewrite bind_eq, readUInt32_eq, remaining_skip by done.
  destruct (Z.ltb_spec (remaining d - 16) 4),
    (Z.ltb_spec (remaining d) 20); try lia; [done|].
  by rewrite skip_skip.
Qed.

Lemma decodeClientControl_eq (d : t) :
  wf d →
  decodeClientControl d =
  if remaining d <? 1
  then Throw "Invalid message: not enough data for control" d
  else if remaining d <? 5
  then Throw "Invalid message: not enough data for float" (skip 1 d)
  else Ok {| cc_type := peek_byte d; cc_parameter := peek_le 4 (skip 1 d) |}
          (skip 5 d).
Proof.
  intros Hwf. unfold decodeClientControl. m_enter.
  rewrite exhausted_iff by done.
  destruct (Z.ltb_spec (remaining d) 1) as [|Hr]; [done|].
  destruct (pending_cons d Hwf Hr) as (b & rest & Hp).
  m_at Hp.
  rewrite bind_eq, set_offset_skip by (done || lia). cbv beta iota.
  assert (wf (skip 1 d)) by (apply wf_skip; [done|lia]).
  rewrite bind_eq, readFloat_eq, remaining_skip by done.
  destruct (Z.ltb_spec (remaining d - 1) 4),
    (Z.ltb_spec (remaining d) 5); try lia; [done|].
  rewrite skip_skip. unfold mret, M_ret, peek_byte. by rewrite Hp.
Qed.

End decoder_reads.

(** * The encoder: what each function appends *)

Section encoder_facts.
Import ProtocolEncoder.

Lemma le_split_succ (n : nat) (v : Z) :
  le_split (S n) v = cast_uint8 v :: le_split n (Z.shiftr v 8).
Proof. reflexivity. Qed.

Lemma length_le_split (n : nat) (v : Z) : length (le_split n v) = n.
Proof. revert v. induction n as [|n IH]; intros v; simpl; [done|]. by rewrite IH. Qed.

Lemma le_value_le_split (n : nat) (v : Z) :
  DecoderView.le_value (le_split n v) = v mod 256 ^ Z.of_nat n.
Proof.
  revert v. induction n as [|n IH]; intros v.
  - simpl. by rewrite Z.mod_1_r.
  - cbn [le_split DecoderView.le_value].
    rewrite IH, byte_val_cast_uint8, Z.shiftr_div_pow2 by lia.
    rewrite Nat2Z.inj_succ, Z.pow_succ_r by lia.
    change (2 ^ 8) with 256.
    assert (0 < 256 ^ Z.of_nat n) by (apply Z.pow_pos_nonneg; lia).
    rewrite Z.rem_mul_r by lia. lia.
Qed.

Lemma float_bytes_le_split (bits : Z) : float_bytes bits = le_split 4 bits.
Proof.
  unfold float_bytes. cbn [le_split].
  rewrite !Z.shiftr_shiftr by lia. reflexivity.
Qed.

Lemma buffer_writeUInt32 (v : Z) (e : t) :
  buffer_ (writeUInt32 v e) = buffer_ e ++ le_split 4 v.
Proof.
  unfold writeUInt32, push_back. cbn [buffer_ le_split].
  rewrite !Z.shiftr_shiftr by lia. rewrite <- !app_assoc. reflexivity.
Qed.

Lemma buffer_writeInt32 (v : Z) (e : t) :
  buffer_ (writeInt32 v e) = buffer_ e ++ le_split 4 v.
Proof.
  unfold writeInt32, push_back. cbn [buffer_ le_split].
  rewrite !Z.shiftr_shiftr by lia. rewrite <- !app_assoc. reflexivity.
Qed.

Lemma buffer_writeFloat (v : Z) (e : t) :
  buffer_ (writeFloat v e) = buffer_ e ++ le_split 4 v.
Proof.
  unfold writeFloat, push_back. cbn [buffer_ le_split].
  rewrite !Z.shiftr_shiftr by lia. rewrite <- !app_assoc. reflexivity.
Qed.

Lemma buffer_writeDouble_loop (n : nat) (bits i : Z) (e : t) :
  0 <= i →
  buffer_ (writeDouble_loop bits i n e) =
  buffer_ e ++ le_split n (Z.shiftr bits (i * 8)).
Proof.
  revert i e. induction n as [|n IH]; intros i e Hi.
  - simpl. by rewrite app_nil_r.
  - cbn [writeDouble_loop le_split]. rewrite IH by lia.
    unfold push_back. cbn [buffer_]. rewrite <- app_assoc.
    rewrite Z.shiftr_shiftr by lia.
    by replace ((i + 1) * 8) with (i * 8 + 8) by lia.
Qed.

Lemma buffer_writeDouble (v : Z) (e : t) :
  buffer_ (writeDouble v e) = buffer_ e ++ le_split 8 v.
Proof.
  unfold writeDouble. rewrite buffer_writeDouble_loop by lia.
  by rewrite Z.shiftr_0_r.
Qed.

Lemma buffer_writeString (s : string) (e : t) :
  buffer_ (writeString s e) =
  buffer_ e ++ le_split 4 (cast_uint32 (str_length s))
    ++ String.list_byte_of_string s.
Proof.
  unfold writeString, insert_end. cbn [buffer_].
  by rewrite buffer_writeUInt32, <- app_assoc.
Qed.

Lemma buffer_writeHeader (type : MessageType) (e : t) :
  buffer_ (writeHeader type e) = buffer_ e ++ [type].
Proof. reflexivity. Qed.

Lemma length_list_byte_of_string (s : string) :
  length (String.list_byte_of_string s) = String.length s.
Proof.
  unfold String.list_byte_of_string. rewrite length_map.
  induction s as [|c s IH]; simpl; [done|]. by rewrite IH.
Qed.

End encoder_facts.

(** * Reading back what was written *)

Section read_written.
Import ProtocolDecoder DecoderView Cursor.

Lemma vec_size_le_split n v : vec_size (le_split n v) = Z.of_nat n.
Proof. unfold vec_size. by rewrite length_le_split. Qed.

Lemma at_rest_new (buf : list Byte.byte) :
  vec_size buf <= PTRDIFF_MAX → at_rest buf buf (new buf).
Proof.
  intros Hs. unfold at_rest, wf, new, pending, vec_size in *. simpl.
  repeat split; lia || done.
Qed.

Lemma at_rest_remaining buf rest d :
  at_rest buf rest d → remaining d = vec_size rest.
Proof. intros (Hwf & _ & <-). by rewrite length_pending. Qed.

Lemma at_rest_skip buf bs rest d :
  at_rest buf (bs ++ rest) d → at_rest buf rest (skip (vec_size bs) d).
Proof.
  intros Hat. pose proof (at_rest_remaining _ _ _ Hat) as Hr.
  destruct Hat as (Hwf & Hd & Hp).
  unfold vec_size in *. rewrite length_app in Hr.
  split; [apply wf_skip; [done|lia]|]. split; [done|].
  destruct Hwf as (_ & ? & _).
  rewrite pending_skip, Hp by lia.
  rewrite Nat2Z.id. by rewrite drop_app_length.
Qed.

Lemma at_rest_peek buf bs rest d :
  at_rest buf (bs ++ rest) d → peek_bytes (vec_size bs) d = bs.
Proof.
  intros (_ & _ & Hp). unfold peek_bytes, vec_size. rewrite Hp, Nat2Z.id.
  by rewrite take_app_length.
Qed.

Lemma at_rest_skip_n buf bs rest d n :
  vec_size bs = n → at_rest buf (bs ++ rest) d → at_rest buf rest (skip n d).
Proof. intros <-. apply at_rest_skip. Qed.

Lemma at_rest_peek_n buf bs rest d n :
  vec_size bs = n → at_rest buf (bs ++ rest) d → peek_bytes n d = bs.
Proof. intros <-. apply at_rest_peek. Qed.

Lemma at_rest_finished buf d : at_rest buf [] d → d = finished buf.
Proof.
  intros Hat. pose proof (at_rest_remaining _ _ _ Hat) as Hr.
  destruct Hat as ((Hs & Ho & _) & Hd & _).
  unfold remaining, vec_size in Hr. simpl in Hr.
  destruct d as [data size offset]. unfold finished. simpl in *. subst.
  f_equal. lia.
Qed.

Lemma decodeHeader_written buf type rest d :
  at_rest buf (type :: rest) d →
  ∃ d', decodeHeader d = Ok type d' ∧ at_rest buf rest d'.
Proof.
  intros Hat. exists (skip 1 d). split.
  - pose proof (at_rest_remaining _ _ _ Hat) as Hr.
    destruct Hat as (Hwf & _ & Hp).
    rewrite decodeHeader_eq by done.
    unfold vec_size in Hr. simpl in Hr.
    destruct (Z.ltb_spec (remaining d) 1); [lia|].
    unfold peek_byte. by rewrite Hp.
  - by apply (at_rest_skip buf [type]).
Qed.

Lemma byte_written buf b rest d :
  at_rest buf (b :: rest) d →
  remaining d >= 1 ∧ peek_byte d = b ∧ at_rest buf rest (skip 1 d).
Proof.
  intros Hat. pose proof (at_rest_remaining _ _ _ Hat) as Hr.
  unfold vec_size in Hr. simpl in Hr. split; [lia|]. split.
  - destruct Hat as (_ & _ & Hp). unfold peek_byte. by rewrite Hp.
  - by apply (at_rest_skip buf [b]).
Qed.

Lemma four_written buf v rest d :
  at_rest buf (le_split 4 v ++ rest) d →
  (remaining d <? 4) = false ∧ peek_le 4 d = v mod 2 ^ 32 ∧
  at_rest buf rest (skip 4 d).
Proof.
  intros Hat. pose proof (at_rest_remaining _ _ _ Hat) as Hr.
  unfold vec_size in Hr. rewrite length_app, length_le_split in Hr.
  split; [apply Z.ltb_ge; lia|]. split.
  - unfold peek_le.
    rewrite (at_rest_peek_n _ _ _ _ 4 (vec_size_le_split 4 v) Hat).
    by rewrite le_value_le_split.
  - exact (at_rest_skip_n _ _ _ _ 4 (vec_size_le_split 4 v) Hat).
Qed.

Lemma readUInt32_written buf v rest d :
  is_uint32 v → at_rest buf (le_split 4 v ++ rest) d →
  ∃ d', readUInt32 d = Ok v d' ∧ at_rest buf rest d'.
Proof.
  intros Hv Hat. destruct (four_written _ _ _ _ Hat) as (Hr & Hp & Hat').
  exists (skip 4 d). split; [|done].
  rewrite readUInt32_eq, Hr, Hp by apply Hat.
  by rewrite Z.mod_small.
Qed.

Lemma readFloat_written buf v rest d :
  is_uint32 v → at_rest buf (le_split 4 v ++ rest) d →
  ∃ d', readFloat d = Ok v d' ∧ at_rest buf rest d'.
Proof.
  intros Hv Hat. destruct (four_written _ _ _ _ Hat) as (Hr & Hp & Hat').
  exists (skip 4 d). split; [|done].
  rewrite readFloat_eq, Hr, Hp by apply Hat.
  by rewrite Z.mod_small.
Qed.

Lemma cast_int32_mod (v : Z) : is_int32 v → cast_int32 (v mod 2 ^ 32) = v.
Proof.
  intros Hv. unfold cast_int32, is_int32 in *.
  destruct (Z.lt_ge_cases v 0).
  - replace (v mod 2 ^ 32) with (v + 2 ^ 32).
    + replace (v + 2 ^ 32 + 2 ^ 31) with (v + 2 ^ 31 + 1 * 2 ^ 32) by lia.
      rewrite Z.mod_add by lia. rewrite Z.mod_small; lia.
    + replace v with (v + 2 ^ 32 + (-1) * 2 ^ 32) at 2 by lia.
      rewrite Z.mod_add by lia. rewrite Z.mod_small; lia.
  - rewrite (Z.mod_small v) by lia. rewrite Z.mod_small; lia.
Qed.

Lemma readInt32_written buf v rest d :
  is_int32 v → at_rest buf (le_split 4 v ++ rest) d →
  ∃ d', readInt32 d = Ok v d' ∧ at_rest buf rest d'.
Proof.
  intros Hv Hat. destruct (four_written _ _ _ _ Hat) as (Hr & Hp & Hat').
  exists (skip 4 d). split; [|done].
  rewrite readInt32_eq, Hr, Hp by apply Hat.
  by rewrite cast_int32_mod.
Qed.

Lemma readDouble_written buf v rest d :
  is_uint64 v → at_rest buf (le_split 8 v ++ rest) d →
  ∃ d', readDouble d = Ok v d' ∧ at_rest buf rest d'.
Proof.
  intros Hv Hat. pose proof (at_rest_remaining _ _ _ Hat) as Hr.
  unfold vec_size in Hr. rewrite length_app, length_le_split in Hr.
  exists (skip 8 d). split.
  - rewrite readDouble_eq by apply Hat.
    destruct (Z.ltb_spec (remaining d) 8); [lia|].
    unfold peek_le.
    rewrite (at_rest_peek_n _ _ _ _ 8 (vec_size_le_split 8 v) Hat).
    rewrite le_value_le_split. by rewrite Z.mod_small.
  - exact (at_rest_skip_n _ _ _ _ 8 (vec_size_le_split 8 v) Hat).
Qed.

(** A length prefix followed by that many bytes. *)
Lemma prefixed_written buf (bytes rest : list Byte.byte) d :
  vec_size bytes < 2 ^ 32 →
  at_rest buf (le_split 4 (cast_uint32 (vec_size bytes)) ++ bytes ++ rest) d →
  (remaining d <? 4) = false ∧ peek_le 4 d = vec_size bytes ∧
  (remaining d - 4 <? vec_size bytes) = false ∧
  peek_bytes (vec_size bytes) (skip 4 d) = bytes ∧
  at_rest buf rest (skip (4 + vec_size bytes) d).
Proof.
  intros Hlen Hat. destruct (four_written _ _ _ _ Hat) as (Hr & Hp & Hat').
  assert (cast_uint32 (vec_size bytes) = vec_size bytes) as Hc.
  { unfold cast_uint32. apply Z.mod_small. unfold vec_size in *. lia. }
  rewrite Hc in *. rewrite Z.mod_small in Hp by (unfold vec_size in *; lia).
  pose proof (at_rest_remaining _ _ _ Hat') as Hr'.
  rewrite remaining_skip in Hr'. unfold vec_size in Hr'.
  rewrite length_app in Hr'.
  split; [done|]. split; [done|]. split; [|split].
  - apply Z.ltb_ge. unfold vec_size. lia.
  - by apply (at_rest_peek buf bytes rest).
  - rewrite <- skip_skip. by apply at_rest_skip.
Qed.

Lemma readString_written buf (s : string) rest d :
  str_length s < 2 ^ 32 →
  at_rest buf (le_split 4 (cast_uint32 (str_length s))
                 ++ String.list_byte_of_string s ++ rest) d →
  ∃ d', readString d = Ok s d' ∧ at_rest buf rest d'.
Proof.
  intros Hlen Hat.
  assert (str_length s = vec_size (String.list_byte_of_string s)) as Hs.
  { unfold str_length, vec_size. by rewrite length_list_byte_of_string. }
  rewrite Hs in *.
  destruct (prefixed_written _ _ _ _ Hlen Hat) as (H4 & Hp & Hl & Hb & Hat').
  eexists. split; [|exact Hat'].
  rewrite readString_eq, H4 by apply Hat. cbv zeta.
  rewrite Hp, Hl, Hb. by rewrite String.string_of_list_byte_of_string.
Qed.

Lemma readPayload_written buf (bytes rest : list Byte.byte) d :
  vec_size bytes < 2 ^ 32 →
  at_rest buf (le_split 4 (cast_uint32 (vec_size bytes)) ++ bytes ++ rest) d →
  ∃ d', Codec.readPayload d = Ok bytes d' ∧ at_rest buf rest d'.
Proof.
  intros Hlen Hat.
  destruct (prefixed_written _ _ _ _ Hlen Hat) as (H4 & Hp & Hl & Hb & Hat').
  eexists. split; [|exact Hat'].
  pose proof (at_rest_remaining _ _ _ Hat) as Hr.
  destruct (four_written _ _ _ _ Hat) as (_ & _ & Hat4).
  assert (wf d) as Hwf by apply Hat.
  assert (wf (skip 4 d)) as Hwf4 by apply Hat4.
  unfold Codec.readPayload.
  rewrite bind_eq, readUInt32_eq, H4, Hp by done. cbv beta iota.
  m_enter.
  rewrite overrun_iff by (done || (unfold vec_size in *; lia)).
  rewrite remaining_skip, Hl.
  rewrite bind_eq, range_pending.
  - cbv beta iota. rewrite Hb.
    rewrite bind_eq, set_offset_skip.
    + by rewrite skip_skip.
    + done.
    + rewrite remaining_skip. apply Z.ltb_ge in Hl.
      unfold vec_size in *. lia.
  - done.
  - rewrite remaining_skip. apply Z.ltb_ge in Hl. unfold vec_size in *. lia.
Qed.

End read_written.

(** * The round trip of the codec *)

Section roundtrip.
Import ProtocolDecoder DecoderView Cursor Codec.

Ltac buffer_shape :=
  rewrite ?buffer_writeUInt32, ?buffer_writeInt32, ?buffer_writeFloat,
    ?buffer_writeDouble, ?buffer_writeString, ?buffer_writeHeader.

Lemma encode_ClientInput msg :
  encode (ClientInput msg) =
  CLIENT_INPUT ::
    le_split 4 (ci_x msg) ++ le_split 4 (ci_y msg) ++ le_split 4 (ci_z msg)
    ++ le_split 4 (ci_value msg) ++ le_split 4 (ci_timestamp msg) ++ [].
Proof.
  unfold encode, ProtocolEncoder.getBuffer, encodeClientInput.
  cbv beta iota zeta.
  buffer_shape.
  cbn [ProtocolEncoder.clear ProtocolEncoder.buffer_].
  rewrite app_nil_r, <- !app_assoc. reflexivity.
Qed.

Lemma encode_ClientControl msg :
  encode (ClientControl msg) =
  CLIENT_CONTROL :: cc_type msg :: le_split 4 (cc_parameter msg) ++ [].
Proof.
  unfold encode, ProtocolEncoder.getBuffer, encodeClientControl.
  cbv beta iota zeta. buffer_shape. by rewrite app_nil_r.
Qed.

Lemma encode_ServerFrame sessionId simulationTime textureData :
  encode (ServerFrame sessionId simulationTime textureData) =
  SERVER_FRAME ::
    le_split 4 (cast_uint32 (str_length sessionId))
    ++ String.list_byte_of_string sessionId
    ++ le_split 8 simulationTime
    ++ le_split 4 (cast_uint32 (vec_size textureData)) ++ textureData ++ [].
Proof.
  unfold encode, ProtocolEncoder.getBuffer, ProtocolEncoder.encodeFrame,
    ProtocolEncoder.insert_end.
  cbv beta iota zeta. cbn [ProtocolEncoder.buffer_].
  buffer_shape.
  cbn [ProtocolEncoder.clear ProtocolEncoder.buffer_].
  rewrite app_nil_r, <- !app_assoc. reflexivity.
Qed.

Lemma encode_ServerState sessionId time width height depth :
  encode (ServerState sessionId time width height depth) =
  SERVER_STATE ::
    le_split 4 (cast_uint32 (str_length sessionId))
    ++ String.list_byte_of_string sessionId
    ++ le_split 4 time ++ le_split 4 width ++ le_split 4 height
    ++ le_split 4 depth ++ [].
Proof.
  unfold encode, ProtocolEncoder.getBuffer, ProtocolEncoder.encodeState.
  cbv beta iota zeta.
  buffer_shape.
  cbn [ProtocolEncoder.clear ProtocolEncoder.buffer_].
  rewrite app_nil_r, <- !app_assoc. reflexivity.
Qed.

Lemma encode_ServerError sessionId error :
  encode (ServerError sessionId error) =
  SERVER_ERROR ::
    le_split 4 (cast_uint32 (str_length sessionId))
    ++ String.list_byte_of_string sessionId
    ++ le_split 4 (cast_uint32 (str_length error))
    ++ String.list_byte_of_string error ++ [].
Proof.
  unfold encode, ProtocolEncoder.getBuffer, ProtocolEncoder.encodeError.
  cbv beta iota zeta.
  buffer_shape.
  cbn [ProtocolEncoder.clear ProtocolEncoder.buffer_].
  rewrite app_nil_r, <- !app_assoc. reflexivity.
Qed.

(** An encoded valid message is far smaller than the largest object. *)
Lemma encode_size (m : Message) :
  valid m → vec_size (encode m) <= PTRDIFF_MAX.
Proof.
  intros Hv. unfold PTRDIFF_MAX.
  destruct m as [msg|msg|sid t data|sid t w h dp|sid err]; simpl in Hv.
  - rewrite encode_ClientInput. unfold vec_size. cbn [length].
    rewrite !length_app, !length_le_split. simpl. lia.
  - rewrite encode_ClientControl. unfold vec_size. cbn [length].
    rewrite !length_app, !length_le_split. simpl. lia.
  - rewrite encode_ServerFrame. unfold vec_size, str_length in *.
    cbn [length].
    rewrite !length_app, !length_le_split, length_list_byte_of_string.
    simpl length. lia.
  - rewrite encode_ServerState. unfold vec_size, str_length in *.
    cbn [length].
    rewrite !length_app, !length_le_split, length_list_byte_of_string.
    simpl length. lia.
  - rewrite encode_ServerError. unfold vec_size, str_length in *.
    cbn [length].
    rewrite !length_app, !length_le_split, !length_list_byte_of_string.
    simpl length. lia.
Qed.

Ltac read_back lem :=
  match goal with
  | Hat : at_rest _ _ ?d |- context [(_ ≫= _) ?d] =>
      let d' := fresh "d" in
      let E := fresh "E" in
      let Hat' := fresh "Hat" in
      edestruct lem as (d' & E & Hat'); [| exact Hat |];
      [ first [done | unfold is_uint32, is_int32, is_uint64 in *; lia] |];
      rewrite bind_eq, E; cbv beta iota; clear E Hat
  end.

Ltac finish_read :=
  match goal with
  | H : at_rest _ [] _ |- _ => by rewrite (at_rest_finished _ _ H)
  end.

(** C1. Round trip: decoding the bytes produced by encoding a message
    with field values the layout can carry yields that message again,
    for each of the five variants, the whole buffer being consumed.
    Empty strings and zero-length payloads are included. *)
Theorem decode_encode_roundtrip (m : Message) :
  valid m → decode (encode m) = Ok (Some m) (finished (encode m)).
Proof.
  intros Hv. pose proof (at_rest_new _ (encode_size m Hv)) as Hat.
  unfold decode, decodeMessage.
  destruct m as [msg|msg|sid t data|sid t w h dp|sid err]; simpl in Hv.
  - destruct Hv as (Hx & Hy & Hz & Hval & Hts).
    rewrite encode_ClientInput in *.
    destruct (decodeHeader_written _ _ _ _ Hat) as (d1 & E & Hat1).
    rewrite bind_eq, E. cbv beta iota. clear E Hat.
    change (Byte.eqb CLIENT_INPUT CLIENT_INPUT) with true. cbv iota.
    rewrite bind_eq. unfold decodeClientInput.
    do 4 read_back readFloat_written. read_back readUInt32_written.
    unfold mret, M_ret. destruct msg. simpl.
    finish_read.
  - rewrite encode_ClientControl in *.
    destruct (decodeHeader_written _ _ _ _ Hat) as (d1 & E & Hat1).
    rewrite bind_eq, E. cbv beta iota. clear E Hat.
    change (Byte.eqb CLIENT_CONTROL CLIENT_INPUT) with false.
    change (Byte.eqb CLIENT_CONTROL CLIENT_CONTROL) with true. cbv iota.
    destruct (byte_written _ _ _ _ Hat1) as (Hr & Hb & Hat2).
    destruct (four_written _ _ _ _ Hat2) as (Hr4 & Hp & Hat3).
    rewrite remaining_skip in Hr4. apply Z.ltb_ge in Hr4.
    rewrite bind_eq, decodeClientControl_eq by apply Hat1.
    destruct (Z.ltb_spec (remaining d1) 1); [lia|].
    destruct (Z.ltb_spec (remaining d1) 5); [lia|].
    rewrite Hb, Hp, Z.mod_small by apply Hv.
    rewrite skip_skip in Hat3. change (1 + 4) with 5 in Hat3.
    unfold mret, M_ret. destruct msg. simpl.
    finish_read.
  - destruct Hv as (Hs & Ht & Hd).
    rewrite encode_ServerFrame in *.
    destruct (decodeHeader_written _ _ _ _ Hat) as (d1 & E & Hat1).
    rewrite bind_eq, E. cbv beta iota. clear E Hat.
    change (Byte.eqb SERVER_FRAME CLIENT_INPUT) with false.
    change (Byte.eqb SERVER_FRAME CLIENT_CONTROL) with false.
    change (Byte.eqb SERVER_FRAME SERVER_FRAME) with true. cbv iota.
    rewrite bind_eq. unfold decodeFrame.
    read_back readString_written. read_back readDouble_written.
    read_back readPayload_written.
    unfold mret, M_ret. finish_read.
  - destruct Hv as (Hs & Ht & Hw & Hh & Hd).
    rewrite encode_ServerState in *.
    destruct (decodeHeader_written _ _ _ _ Hat) as (d1 & E & Hat1).
    rewrite bind_eq, E. cbv beta iota. clear E Hat.
    change (Byte.eqb SERVER_STATE CLIENT_INPUT) with false.
    change (Byte.eqb SERVER_STATE CLIENT_CONTROL) with false.
    change (Byte.eqb SERVER_STATE SERVER_FRAME) with false.
    change (Byte.eqb SERVER_STATE SERVER_STATE) with true. cbv iota.
    rewrite bind_eq. unfold decodeState.
    read_back readString_written. read_back readFloat_written.
    do 3 read_back readInt32_written.
    unfold mret, M_ret. finish_read.
  - destruct Hv as (Hs & He).
    rewrite encode_ServerError in *.
    destruct (decodeHeader_written _ _ _ _ Hat) as (d1 & E & Hat1).
    rewrite bind_eq, E. cbv beta iota. clear E Hat.
    change (Byte.eqb SERVER_ERROR CLIENT_INPUT) with false.
    change (Byte.eqb SERVER_ERROR CLIENT_CONTROL) with false.
    change (Byte.eqb SERVER_ERROR SERVER_FRAME) with false.
    change (Byte.eqb SERVER_ERROR SERVER_STATE) with false.
    change (Byte.eqb SERVER_ERROR SERVER_ERROR) with true. cbv iota.
    rewrite bind_eq. unfold decodeError.
    do 2 read_back readString_written.
    unfold mret, M_ret. finish_read.
Qed.

Lemma decode_encode_roundtrip_witness :
  valid (ClientInput Examples.input_message) ∧
  decode (encode (ClientInput Examples.input_message)) =
  Ok (Some (ClientInput Examples.input_message))
     (finished (encode (ClientInput Examples.input_message))).
Proof.
  assert (valid (ClientInput Examples.input_message)) as Hv.
  { unfold valid, is_uint32. simpl. lia. }
  split; [exact Hv|]. exact (decode_encode_roundtrip _ Hv).
Defined.

Example roundtrip_empty_frame :
  decode (encode Examples.empty_frame) =
  Ok (Some Examples.empty_frame) (finished (encode Examples.empty_frame)).
Proof. reflexivity. Qed.

Example roundtrip_empty_error :
  decode (encode (ServerError EmptyString EmptyString)) =
  Ok (Some (ServerError EmptyString EmptyString))
     (finished (encode (ServerError EmptyString EmptyString))).
Proof. reflexivity. Qed.

End roundtrip.

(** * Decode failures *)

Section decode_failures.
Import ProtocolDecoder DecoderView.

Lemma wf_new (buf : list Byte.byte) :
  vec_size buf <= PTRDIFF_MAX → wf (new buf).
Proof. intros H. by destruct (at_rest_new buf H). Qed.

(** C2 (amended). At every state of a decoder over a buffer, each read
    function throws exactly when the bytes left are too few for the
    field it reads: 1 byte for the header tag and for the control kind,
    4 bytes for a float, an int32 or a uint32, 8 bytes for a double, and
    for a string 4 bytes of length prefix and then the declared length.
    Otherwise it returns the field read from inside the buffer and
    advances by the field's width; no read is outside the buffer.  The
    message of the exception names the kind of the field (header,
    control, float, double, int32, uint32, string length), not the
    individual field: the four floats of a [ClientInput] fail with the
    same message. *)
Theorem decode_failure_conditions (d : t) :
  wf d →
  decodeHeader d =
    (if remaining d <? 1 then Throw "Invalid message: not enough data" d
     else Ok (peek_byte d) (skip 1 d))
  ∧ readFloat d =
    (if remaining d <? 4
     then Throw "Invalid message: not enough data for float" d
     else Ok (peek_le 4 d) (skip 4 d))
  ∧ readDouble d =
    (if remaining d <? 8
     then Throw "Invalid message: not enough data for double" d
     else Ok (peek_le 8 d) (skip 8 d))
  ∧ readInt32 d =
    (if remaining d <? 4
     then Throw "Invalid message: not enough data for int32" d
     else Ok (cast_int32 (peek_le 4 d)) (skip 4 d))
  ∧ readUInt32 d =
    (if remaining d <? 4
     then Throw "Invalid message: not enough data for uint32" d
     else Ok (peek_le 4 d) (skip 4 d))
  ∧ readString d =
    (if remaining d <? 4
     then Throw "Invalid message: not enough data for uint32" d
     else if remaining d - 4 <? peek_le 4 d
     then Throw "Invalid message: string length exceeds buffer" (skip 4 d)
     else Ok (String.string_of_list_byte
                (peek_bytes (peek_le 4 d) (skip 4 d)))
             (skip (4 + peek_le 4 d) d))
  ∧ decodeClientInput d =
    (if remaining d <? 4
     then Throw "Invalid message: not enough data for float" d
     else if remaining d <? 8
     then Throw "Invalid message: not enough data for float" (skip 4 d)
     else if remaining d <? 12
     then Throw "Invalid message: not enough data for float" (skip 8 d)
     else if remaining d <? 16
     then Throw "Invalid message: not enough data for float" (skip 12 d)
     else if remaining d <? 20
     then Throw "Invalid message: not enough data for uint32" (skip 16 d)
     else Ok {| ci_x := peek_le 4 d; ci_y := peek_le 4 (skip 4 d);
                ci_z := peek_le 4 (skip 8 d);
                ci_value := peek_le 4 (skip 12 d);
                ci_timestamp := peek_le 4 (skip 16 d) |} (skip 20 d))
  ∧ decodeClientControl d =
    (if remaining d <? 1
     then Throw "Invalid message: not enough data for control" d
     else if remaining d <? 5
     then Throw "Invalid message: not enough data for float" (skip 1 d)
     else Ok {| cc_type := peek_byte d;
                cc_parameter := peek_le 4 (skip 1 d) |} (skip 5 d))
  ∧ (decodeHeader d ≠ OutOfBounds ∧ readFloat d ≠ OutOfBounds ∧
     readDouble d ≠ OutOfBounds ∧ readInt32 d ≠ OutOfBounds ∧
     readUInt32 d ≠ OutOfBounds ∧ readString d ≠ OutOfBounds ∧
     decodeClientInput d ≠ OutOfBounds ∧
     decodeClientControl d ≠ OutOfBounds).
Proof.
  intros Hwf.
  rewrite decodeHeader_eq, readFloat_eq, readDouble_eq, readInt32_eq,
    readUInt32_eq, readString_eq, decodeClientInput_eq,
    decodeClientControl_eq by done.
  cbv zeta. repeat split; try reflexivity;
    repeat match goal with
           | |- context [if ?c then _ else _] => destruct c
           end;
    discriminate.
Qed.

(** The spec's malformed input: a [ClientInput] tag and one byte. *)
Lemma decode_failure_conditions_witness :
  wf (skip 1 (new Examples.truncated_input)) ∧
  decodeClientInput (skip 1 (new Examples.truncated_input)) =
  Throw "Invalid message: not enough data for float"
    (skip 1 (new Examples.truncated_input)).
Proof.
  assert (wf (skip 1 (new Examples.truncated_input))) as Hwf.
  { apply wf_skip; [apply wf_new|]; vm_compute; [|split]; congruence. }
  split; [exact Hwf|].
  destruct (decode_failure_conditions _ Hwf)
    as (_ & _ & _ & _ & _ & _ & -> & _).
  reflexivity.
Defined.

Example decode_truncated_input :
  Codec.decode [Byte.x01; Byte.x00] =
  Throw "Invalid message: not enough data for float"
    {| data_ := [Byte.x01; Byte.x00]; size_ := 2; offset_ := 1 |}.
Proof. reflexivity. Qed.

Example decode_empty :
  Codec.decode [] =
  Throw "Invalid message: not enough data"
    {| data_ := []; size_ := 0; offset_ := 0 |}.
Proof. reflexivity. Qed.

(** C2, as stated, fails: a [ClientInput] truncated before [x] and one
    truncated before [y] raise the same exception, so the failure does
    not tell the field. *)
Lemma failure_does_not_identify_field :
  ¬ InputLayout.failure_identifies_field.
Proof.
  intros (field_of & H).
  pose proof (H [] _ _ eq_refl) as Hx.
  pose proof (H [Byte.x00; Byte.x00; Byte.x00; Byte.x00] _ _ eq_refl) as Hy.
  simpl in Hx, Hy. congruence.
Qed.

End decode_failures.

(** * Compression *)

Section compression.

Lemma memcpy_at_whole {A} (dst src : list A) :
  length dst = length src → memcpy_at dst 0 src (length src) = src.
Proof.
  intros Hl. unfold memcpy_at. rewrite take_0, firstn_all. simpl.
  rewrite <- Hl, drop_all. apply app_nil_r.
Qed.

(** C10. [compress] and [decompress] each return a copy of their input,
    byte for byte and of the same length: both are the identity, and so
    is their composition. *)
Theorem compress_decompress_identity (d : list Byte.byte) :
  Compression.compress d (vec_size d) = d ∧
  Compression.decompress d (vec_size d) = d ∧
  vec_size (Compression.compress d (vec_size d)) = vec_size d ∧
  vec_size (Compression.decompress d (vec_size d)) = vec_size d ∧
  Compression.decompress (Compression.compress d (vec_size d))
    (vec_size (Compression.compress d (vec_size d))) = d.
Proof.
  assert (∀ b : list Byte.byte, Compression.compress b (vec_size b) = b) as Hc.
  { intros b. unfold Compression.compress, vec_size. rewrite Nat2Z.id.
    apply memcpy_at_whole. apply length_replicate. }
  assert (∀ b : list Byte.byte, Compression.decompress b (vec_size b) = b)
    as Hd.
  { intros b. unfold Compression.decompress, vec_size. rewrite Nat2Z.id.
    apply memcpy_at_whole. apply length_replicate. }
  rewrite ?Hc, ?Hd. done.
Qed.

Example compress_empty : Compression.compress [] 0 = [].
Proof. reflexivity. Qed.

Example compress_three :
  Compression.decompress
    (Compression.compress [Byte.x01; Byte.xff; Byte.x00] 3) 3
  = [Byte.x01; Byte.xff; Byte.x00].
Proof. reflexivity. Qed.

End compression.

(** * The solver's buffers and the frame payload *)

Section payload.
Import Invariants.

Lemma length_bytes_of_floats (v : list Z) :
  length (bytes_of_floats v) = (4 * length v)%nat.
Proof.
  unfold bytes_of_floats. induction v as [|x v IH]; [done|].
  rewrite bind_cons, length_app, IH. simpl. lia.
Qed.

Lemma length_floats_of_bytes (n : nat) :
  ∀ bs : list Byte.byte,
    length bs = (4 * n)%nat → length (floats_of_bytes bs) = n.
Proof.
  induction n as [|n IH]; intros bs Hl.
  - destruct bs; [done|]. simpl in Hl. lia.
  - destruct bs as [|b0 [|b1 [|b2 [|b3 rest]]]]; simpl in Hl; try lia.
    cbn [floats_of_bytes length]. f_equal. apply IH. lia.
Qed.

(** Two consecutive [memcpy]s that fill a vector. *)
Lemma memcpy_at_fill {A} (dst a b : list A) :
  length dst = (length a + length b)%nat →
  memcpy_at (memcpy_at dst 0 a (length a)) (length a) b (length b) = a ++ b.
Proof.
  intros Hl. unfold memcpy_at. rewrite take_0, !firstn_all. simpl.
  rewrite take_app_length. f_equal.
  rewrite drop_ge, app_nil_r; [done|].
  rewrite length_app, length_drop. lia.
Qed.

Lemma cast_size_t_id (v : Z) : 0 <= v < 2 ^ 64 → cast_size_t v = v.
Proof. intros. unfold cast_size_t. by apply Z.mod_small. Qed.

Lemma textureSize_wf (sim : FDTD3D.t) :
  solver_wf sim →
  FDTD3D.textureSize sim =
  FDTD3D.width_ sim * FDTD3D.height_ sim * FDTD3D.depth_ sim * 3.
Proof.
  intros (Hc & _). unfold FDTD3D.textureSize. apply cast_size_t_id. lia.
Qed.

(** A snapshot read from a device buffer that holds the grid has one
    float per component. *)
Lemma length_snapshot (buffer : list Z) (dev : list Byte.byte) (size : Z) :
  0 <= size < 2 ^ 31 → vec_size dev = size * 4 →
  vec_size
    (floats_of_bytes
       (VulkanManager.copyFromDevice
          (bytes_of_floats (resize (Z.to_nat size) 0 buffer)) dev
          (cast_size_t (size * 4)))) = size.
Proof.
  intros Hs Hd. unfold vec_size in *.
  rewrite (length_floats_of_bytes (Z.to_nat size)); [lia|].
  unfold VulkanManager.copyFromDevice, memcpy_at.
  rewrite cast_size_t_id by lia.
  rewrite take_0, !length_app, length_take, length_drop,
    length_bytes_of_floats, length_resize.
  simpl. lia.
Qed.

Lemma length_getElectricField (buffer : list Z) (sim : FDTD3D.t) :
  solver_wf sim →
  vec_size (FDTD3D.getElectricField buffer sim) =
  FDTD3D.width_ sim * FDTD3D.height_ sim * FDTD3D.depth_ sim * 3.
Proof.
  intros Hwf. unfold FDTD3D.getElectricField. cbv zeta.
  rewrite textureSize_wf by done. destruct Hwf as (? & ? & _).
  apply length_snapshot; [lia|done].
Qed.

Lemma length_getMagneticField (buffer : list Z) (sim : FDTD3D.t) :
  solver_wf sim →
  vec_size (FDTD3D.getMagneticField buffer sim) =
  FDTD3D.width_ sim * FDTD3D.height_ sim * FDTD3D.depth_ sim * 3.
Proof.
  intros Hwf. unfold FDTD3D.getMagneticField. cbv zeta.
  rewrite textureSize_wf by done. destruct Hwf as (? & ? & ? & ? & _).
  apply length_snapshot; [lia|done].
Qed.

Lemma solver_wf_step (sim : FDTD3D.t) :
  solver_wf sim → solver_wf (FDTD3D.step sim).
Proof.
  unfold solver_wf, FDTD3D.step, VulkanManager.updateElectricField,
    VulkanManager.updateMagneticField, VulkanManager.injectSource. simpl.
  tauto.
Qed.

Lemma solver_wf_addSource (x y z value : Z) (sim : FDTD3D.t) :
  solver_wf sim → solver_wf (FDTD3D.addSource x y z value sim).
Proof. unfold solver_wf, FDTD3D.addSource. simpl. tauto. Qed.

Lemma length_allocateBuffer (junk : nat → Byte.byte) (size : Z) :
  0 <= size → vec_size (VulkanManager.allocateBuffer junk size) = size.
Proof.
  intros Hs. unfold vec_size, VulkanManager.allocateBuffer.
  rewrite length_fmap, length_seq. lia.
Qed.

(** [initialize] succeeds when Vulkan does, and allocates the grid. *)
Lemma solver_initialize_ok (junk : nat → nat → Byte.byte) (w h d : Z) :
  0 < w * h * d * 3 < 2 ^ 31 →
  ∃ sim, FDTD3D.initialize true junk (FDTD3D.new w h d) = Some sim ∧
         solver_wf sim ∧ FDTD3D.step_calls sim = 0%nat ∧
         FDTD3D.width_ sim = w ∧ FDTD3D.height_ sim = h ∧
         FDTD3D.depth_ sim = d.
Proof.
  intros Hc. eexists. split; [reflexivity|].
  unfold solver_wf. cbn [FDTD3D.width_ FDTD3D.height_ FDTD3D.depth_
    FDTD3D.electricField_d_ FDTD3D.electricFieldNext_d_
    FDTD3D.magneticField_d_ FDTD3D.magneticFieldNext_d_ FDTD3D.step_calls
    FDTD3D.new].
  unfold FDTD3D.textureSize.
  change (FDTD3D.width_ (FDTD3D.new w h d)) with w.
  change (FDTD3D.height_ (FDTD3D.new w h d)) with h.
  change (FDTD3D.depth_ (FDTD3D.new w h d)) with d.
  rewrite (cast_size_t_id (w * h * d * 3)) by lia.
  rewrite (cast_size_t_id (w * h * d * 3 * 4)) by lia.
  rewrite !length_allocateBuffer by lia. done.
Qed.

Lemma solver_initialize_fails (junk : nat → nat → Byte.byte) (w h d : Z) :
  FDTD3D.initialize false junk (FDTD3D.new w h d) = None.
Proof. reflexivity. Qed.

(** One step advances the time from 0.0 to 0.001, two steps to 0.002. *)
Example step_time :
  FDTD3D.time_ (FDTD3D.step (FDTD3D.new 1 1 1)) = 0x3F50624DD2F1A9FC ∧
  FDTD3D.time_ (FDTD3D.step (FDTD3D.step (FDTD3D.new 1 1 1)))
  = 0x3F60624DD2F1A9FC.
Proof. split; reflexivity. Qed.

End payload.

(** * One session *)

Section session_facts.
Import Invariants SessionRun.

Lemma update_clear (now : Z) (s : Session.t) :
  Session.needsUpdate_ s = false → Session.update now s = s.
Proof. intros H. unfold Session.update. by rewrite H. Qed.

Lemma needsUpdate_update (now : Z) (s : Session.t) :
  Session.needsUpdate_ (Session.update now s) = false.
Proof.
  unfold Session.update. destruct (Session.needsUpdate_ s) eqn:E; [done|].
  exact E.
Qed.

Lemma needsUpdate_step (now : Z) (s : Session.t) :
  Session.needsUpdate_ (Session.step now s) = Session.needsUpdate_ s.
Proof. unfold Session.step. by destruct (Session.simulation_ s). Qed.

Lemma needsUpdate_handleInput (now x y z value : Z) (s : Session.t) :
  Session.needsUpdate_ (Session.handleInput now x y z value s)
  = Session.needsUpdate_ s.
Proof. unfold Session.handleInput. by destruct (Session.simulation_ s). Qed.

Lemma needsUpdate_getFrameData (buffer : list Byte.byte) (s : Session.t) :
  Session.needsUpdate_ (Session.getFrameData buffer s).1
  = Session.needsUpdate_ s.
Proof.
  unfold Session.getFrameData.
  destruct (Session.simulation_ s) eqn:E1, (Session.hasNewFrame_ s) eqn:E2;
      simpl; congruence.
Qed.

Lemma simulation_getFrameData (buffer : list Byte.byte) (s : Session.t) :
  Session.simulation_ (Session.getFrameData buffer s).1
  = Session.simulation_ s.
Proof.
  unfold Session.getFrameData.
  destruct (Session.simulation_ s) eqn:E1, (Session.hasNewFrame_ s) eqn:E2;
      simpl; congruence.
Qed.

(** Every operation but [update] leaves [needsUpdate] as it is. *)
Lemma needsUpdate_exec (op : Op) (s : Session.t) :
  is_update op = false →
  Session.needsUpdate_ (exec op s) = Session.needsUpdate_ s.
Proof.
  destruct op; simpl; intros H; try done.
  - apply needsUpdate_handleInput.
  - apply needsUpdate_getFrameData.
  - apply needsUpdate_step.
Qed.

Lemma initialized_exec (op : Op) (s : Session.t) :
  initialized (exec op s) = initialized s.
Proof.
  unfold initialized. destruct op; simpl; try done.
  - unfold Session.handleInput.
      destruct (Session.simulation_ s) eqn:E; simpl; by rewrite ?E.
  - by rewrite simulation_getFrameData.
  - unfold Session.update, Session.step.
    destruct (Session.needsUpdate_ s), (Session.simulation_ s) eqn:E;
        simpl; by rewrite ?E.
  - unfold Session.step.
      destruct (Session.simulation_ s) eqn:E; simpl; by rewrite ?E.
Qed.

(** Only [update] and [step] step the solver. *)
Lemma solver_steps_exec (op : Op) (s : Session.t) :
  is_update op = false → is_step op = false →
  Session.solver_steps (exec op s) = Session.solver_steps s.
Proof.
  unfold Session.solver_steps. destruct op; simpl; intros Hu Hs; try done.
  - unfold Session.handleInput.
      destruct (Session.simulation_ s) eqn:E; simpl; by rewrite ?E.
  - by rewrite simulation_getFrameData.
Qed.

Lemma solver_steps_update (now : Z) (s : Session.t) :
  Session.solver_steps (Session.update now s) =
  (Session.solver_steps s +
   (if Session.needsUpdate_ s && initialized s then 1 else 0))%nat.
Proof.
  unfold Session.solver_steps, Session.update, Session.step, initialized.
  destruct s as [sid [sim|] hnf [] la eb mb]; simpl; lia.
Qed.

Lemma solver_steps_run (ops : list Op) :
  ∀ s : Session.t,
    registry_driven ops →
    Session.solver_steps (run ops s) =
    (Session.solver_steps s +
     (if Session.needsUpdate_ s && initialized s && existsb is_update ops
      then 1 else 0))%nat.
Proof.
  unfold registry_driven.
  induction ops as [|op ops IH]; intros s Hd.
  - simpl. rewrite andb_false_r. lia.
  - cbn [run existsb forallb] in *. apply andb_true_iff in Hd as [Hs Hd].
    apply negb_true_iff in Hs. rewrite IH by done.
    rewrite initialized_exec.
    destruct (is_update op) eqn:Hu.
    + destruct op; try done. cbn [exec].
      rewrite needsUpdate_update, solver_steps_update.
      destruct (Session.needsUpdate_ s), (initialized s); simpl; lia.
    + rewrite needsUpdate_exec, solver_steps_exec by done. done.
Qed.

(** C5, as stated, fails on a session whose solver is not initialised:
    [step] returns at its guard, and [update] only clears [needsUpdate]. *)
Lemma update_uninitialized_no_step :
  Session.needsUpdate_ Examples.created_session = true ∧
  ¬ update_steps_once 5 Examples.created_session.
Proof. split; [done|]. intros (H & _). cbv in H. discriminate. Qed.

(** C5 (amended). [update] is conditional on [needsUpdate]: when the flag
    is set and the solver is initialised, it invokes exactly one solver
    step, sets [hasNewFrame], refreshes [lastActivity] and clears
    [needsUpdate], and touches nothing else; when the flag is set and
    there is no solver, it performs no step and only clears the flag;
    when the flag is clear, it changes nothing. *)
Theorem update_contract (now : Z) (s : Session.t) :
  (Session.needsUpdate_ s = true → initialized s = true →
     update_steps_once now s ∧
     (∃ sim, Session.simulation_ s = Some sim ∧
             Session.simulation_ (Session.update now s)
             = Some (FDTD3D.step sim)) ∧
     Session.sessionId_ (Session.update now s) = Session.sessionId_ s ∧
     Session.electricFieldBuffer_ (Session.update now s)
     = Session.electricFieldBuffer_ s ∧
     Session.magneticFieldBuffer_ (Session.update now s)
     = Session.magneticFieldBuffer_ s) ∧
  (Session.needsUpdate_ s = true → initialized s = false →
     Session.update now s =
     {| Session.sessionId_ := Session.sessionId_ s;
        Session.simulation_ := None;
        Session.hasNewFrame_ := Session.hasNewFrame_ s;
        Session.needsUpdate_ := false;
        Session.lastActivity_ := Session.lastActivity_ s;
        Session.electricFieldBuffer_ := Session.electricFieldBuffer_ s;
        Session.magneticFieldBuffer_ := Session.magneticFieldBuffer_ s |}) ∧
  (Session.needsUpdate_ s = false → Session.update now s = s).
Proof.
  unfold update_steps_once, initialized, Session.solver_steps,
    Session.update, Session.step.
  destruct s as [sid [sim|] hnf nu la eb mb]; simpl.
  - split; [|split]; intros; subst; try done.
    repeat split; eauto.
  - split; [|split]; intros; subst; done.
Qed.

Lemma update_contract_witness :
    Session.needsUpdate_ Examples.small_session = true ∧
    initialized Examples.small_session = true ∧
    update_steps_once 5 Examples.small_session.
Proof.
  split; [reflexivity|]. split; [reflexivity|].
  destruct (update_contract 5 Examples.small_session) as (H & _).
  destruct (H eq_refl eq_refl) as (Hs & _). exact Hs.
Defined.

(** C8, as stated, fails: a session whose solver is not initialised
    performs no solver step, however often [update] is called. *)
Lemma uninitialized_session_never_steps :
  Session.solver_steps (run [Update 1; Update 2] Examples.created_session)
  ≠ 1%nat.
Proof. cbv. discriminate. Qed.

(** C8 (amended). No operation sets [needsUpdate] back to true once it is
    cleared: it is true at construction, every operation but [update]
    leaves it as it is, and [update] clears it.  So over a registry-driven
    run (no direct call of [step]) the solver is stepped at most once:
    exactly once when the session had [needsUpdate] set, was initialised
    and [update] is called at least once, and not at all otherwise; and an
    [update] of a session whose flag is clear leaves the whole session
    (solver state, [hasNewFrame], [lastActivity]) unchanged. *)
Theorem needsUpdate_never_set_again :
  (∀ (sessionId : string) (now : Z),
     Session.needsUpdate_ (Session.new sessionId now) = true) ∧
  (∀ (op : Op) (s : Session.t),
     Session.needsUpdate_ s = false →
     Session.needsUpdate_ (exec op s) = false) ∧
  (∀ (op : Op) (s : Session.t),
     is_update op = false →
     Session.needsUpdate_ (exec op s) = Session.needsUpdate_ s) ∧
  (∀ (now : Z) (s : Session.t),
     Session.needsUpdate_ (Session.update now s) = false) ∧
  (∀ (now : Z) (s : Session.t),
     Session.needsUpdate_ s = false → Session.update now s = s) ∧
  (∀ (ops : list Op) (s : Session.t),
     registry_driven ops →
     Session.solver_steps (run ops s) =
     (Session.solver_steps s +
      (if Session.needsUpdate_ s && initialized s && existsb is_update ops
       then 1 else 0))%nat).
Proof.
  split; [done|]. split; [|split; [|split; [|split]]].
  - intros op s H. destruct (is_update op) eqn:Hu.
    + destruct op; try done. apply needsUpdate_update.
    + by rewrite needsUpdate_exec.
  - apply needsUpdate_exec.
  - apply needsUpdate_update.
  - apply update_clear.
  - apply solver_steps_run.
Qed.

Lemma needsUpdate_never_set_again_witness :
    registry_driven Examples.session_ops ∧
    Session.solver_steps (run Examples.session_ops Examples.small_session)
    = 1%nat ∧
    Session.needsUpdate_ (run Examples.session_ops Examples.small_session)
    = false.
Proof.
  split; [reflexivity|].
  destruct needsUpdate_never_set_again as (_ & _ & _ & _ & _ & H).
  split; [exact (H Examples.session_ops Examples.small_session eq_refl)|].
  reflexivity.
Defined.

End session_facts.

(** * Frames *)

Section frames.
Import Invariants.

Lemma copy_size (v : list Z) :
  vec_size v < 2 ^ 31 →
  Z.to_nat (cast_size_t (vec_size v * 4)) = length (bytes_of_floats v).
Proof.
  intros Hv. rewrite length_bytes_of_floats. unfold vec_size in *.
  rewrite cast_size_t_id by lia. lia.
Qed.

(** With a frame pending, the payload is the electric snapshot followed
    by the magnetic snapshot, and the session keeps the two snapshots. *)
Lemma getFrameData_pending (buffer : list Byte.byte) (s : Session.t)
  (sim : FDTD3D.t) :
  Session.simulation_ s = Some sim → solver_wf sim →
  Session.hasNewFrame_ s = true →
  Session.getFrameData buffer s =
  ({| Session.sessionId_ := Session.sessionId_ s;
    Session.simulation_ := Some sim;
    Session.hasNewFrame_ := true;
    Session.needsUpdate_ := Session.needsUpdate_ s;
    Session.lastActivity_ := Session.lastActivity_ s;
    Session.electricFieldBuffer_ :=
      FDTD3D.getElectricField (Session.electricFieldBuffer_ s) sim;
    Session.magneticFieldBuffer_ :=
      FDTD3D.getMagneticField (Session.magneticFieldBuffer_ s) sim |},
   bytes_of_floats
   (FDTD3D.getElectricField (Session.electricFieldBuffer_ s) sim)
   ++ bytes_of_floats
      (FDTD3D.getMagneticField (Session.magneticFieldBuffer_ s) sim)).
Proof.
  intros Hsim Hwf Hnew. unfold Session.getFrameData.
  rewrite Hsim, Hnew. cbv beta iota zeta. cbn [negb]. cbv iota.
  pose proof (length_getElectricField (Session.electricFieldBuffer_ s)
              sim Hwf) as HE.
  pose proof (length_getMagneticField (Session.magneticFieldBuffer_ s)
              sim Hwf) as HM.
  set (E := FDTD3D.getElectricField _ sim) in *.
  set (M := FDTD3D.getMagneticField _ sim) in *.
  destruct Hwf as (Hc & _).
  rewrite !copy_size by lia. f_equal.
  apply memcpy_at_fill.
  rewrite length_resize, !length_bytes_of_floats.
  unfold vec_size in *. rewrite cast_size_t_id by lia. lia.
Qed.

Lemma getFrameData_nothing (buffer : list Byte.byte) (s : Session.t) :
  initialized s = false ∨ Session.hasNewFrame_ s = false →
  Session.getFrameData buffer s = (s, []).
Proof.
  unfold initialized, Session.getFrameData.
  destruct (Session.simulation_ s); [|done].
  intros [H|H]; [done|by rewrite H].
Qed.

Lemma bytes_of_floats_nonempty (v : list Z) :
  0 < vec_size v → bytes_of_floats v ≠ [].
Proof.
  intros Hv Hnil. apply (f_equal length) in Hnil.
  rewrite length_bytes_of_floats in Hnil. unfold vec_size in Hv.
  simpl in Hnil. lia.
Qed.

(** A snapshot is the device buffer, whatever the vector held before. *)
Lemma snapshot_of_device (buffer : list Z) (dev : list Byte.byte) (size : Z) :
  0 <= size < 2 ^ 31 → vec_size dev = size * 4 →
  floats_of_bytes
  (VulkanManager.copyFromDevice
     (bytes_of_floats (resize (Z.to_nat size) 0 buffer)) dev
     (cast_size_t (size * 4))) = floats_of_bytes dev.
Proof.
  intros Hs Hd. unfold VulkanManager.copyFromDevice, memcpy_at, vec_size in *.
  rewrite cast_size_t_id by lia.
  rewrite take_0, take_ge, drop_ge by
  (rewrite ?length_bytes_of_floats, ?length_resize; simpl; lia).
  simpl. by rewrite app_nil_r.
Qed.

Lemma getElectricField_device (buffer : list Z) (sim : FDTD3D.t) :
  solver_wf sim →
  FDTD3D.getElectricField buffer sim =
  floats_of_bytes (FDTD3D.electricField_d_ sim).
Proof.
  intros Hwf. unfold FDTD3D.getElectricField. cbv zeta.
  rewrite textureSize_wf by done. destruct Hwf as (? & ? & _).
  apply snapshot_of_device; [lia|done].
Qed.

Lemma getMagneticField_device (buffer : list Z) (sim : FDTD3D.t) :
  solver_wf sim →
  FDTD3D.getMagneticField buffer sim =
  floats_of_bytes (FDTD3D.magneticField_d_ sim).
Proof.
  intros Hwf. unfold FDTD3D.getMagneticField. cbv zeta.
  rewrite textureSize_wf by done. destruct Hwf as (? & ? & ? & ? & _).
  apply snapshot_of_device; [lia|done].
Qed.

(** The hypothesis of the next theorem is an invariant: [initialize]
    establishes it and every operation keeps it. *)
Lemma session_wf_exec (op : SessionRun.Op) (s : Session.t) :
  session_wf s → session_wf (SessionRun.exec op s).
Proof.
  unfold session_wf. intros Hwf.
  destruct op; cbn [SessionRun.exec]; try done.
  - unfold Session.handleInput.
    destruct (Session.simulation_ s) as [sim|] eqn:E;
      cbn [Session.simulation_]; rewrite ?E; [|done].
    by apply solver_wf_addSource.
  - by rewrite simulation_getFrameData.
  - unfold Session.update, Session.step.
    destruct (Session.needsUpdate_ s), (Session.simulation_ s) as [sim|] eqn:E;
      cbn [Session.simulation_]; rewrite ?E; try done.
    by apply solver_wf_step.
  - unfold Session.step.
    destruct (Session.simulation_ s) as [sim|] eqn:E;
      cbn [Session.simulation_]; rewrite ?E; [|done].
    by apply solver_wf_step.
Qed.

(** C4. Without a pending frame (no solver, or [hasNewFrame] unset)
    [getFrameData] returns an empty payload.  After an [update] that
    steps the solver, [getFrameData] returns a non-empty payload; a
    further [getFrameData] before the next step returns an empty payload
    if [markFrameSent] was called in between, and if it was not, the
    frame remains pending: [hasNewFrame] is still set and the same
    payload is returned again. *)
Theorem frame_delivery (now : Z) (s : Session.t)
  (buffer buffer' : list Byte.byte) :
  (initialized s = false ∨ Session.hasNewFrame_ s = false →
   Session.getFrameData buffer s = (s, [])) ∧
  (session_wf s → initialized s = true → Session.needsUpdate_ s = true →
   let s1 := Session.update now s in
   let s2 := (Session.getFrameData buffer s1).1 in
   let payload := (Session.getFrameData buffer s1).2 in
   Session.solver_steps s1 = S (Session.solver_steps s) ∧
   payload ≠ [] ∧
   (Session.getFrameData buffer' (Session.markFrameSent s2)).2 = [] ∧
   Session.hasNewFrame_ s2 = true ∧
   (Session.getFrameData buffer' s2).2 = payload).
Proof.
  split; [apply getFrameData_nothing|].
  unfold session_wf, initialized. intros Hwf Hinit Hnu.
  set (s1 := Session.update now s).
  destruct (Session.simulation_ s) as [sim|] eqn:Hsim; [|done].
  assert (Session.simulation_ s1 = Some (FDTD3D.step sim)) as Hsim1.
  { unfold s1, Session.update, Session.step. by rewrite Hnu, Hsim. }
  assert (Session.hasNewFrame_ s1 = true) as Hnew1.
  { unfold s1, Session.update, Session.step. by rewrite Hnu, Hsim. }
  pose proof (solver_wf_step sim Hwf) as Hwf1.
  pose proof (getFrameData_pending buffer s1 _ Hsim1 Hwf1 Hnew1) as Hg.
  rewrite Hg. cbn [fst snd].
  split; [|split; [|split; [|split]]].
  - unfold Session.solver_steps. by rewrite Hsim1, Hsim.
  - intros Hnil. apply app_eq_nil in Hnil as [Hnil _].
  revert Hnil. apply bytes_of_floats_nonempty.
  rewrite length_getElectricField by done.
  destruct Hwf1 as (? & _). lia.
  - by rewrite getFrameData_nothing by (right; done).
  - done.
  - erewrite getFrameData_pending; [|reflexivity|done|reflexivity].
  cbn [snd Session.electricFieldBuffer_ Session.magneticFieldBuffer_].
  by rewrite !getElectricField_device, !getMagneticField_device.
Qed.

End frames.

Section frames_witness.
Import Invariants.

Lemma frame_delivery_witness :
    session_wf Examples.small_session ∧
    initialized Examples.small_session = true ∧
    Session.needsUpdate_ Examples.small_session = true ∧
    (Session.getFrameData [] (Session.update 5 Examples.small_session)).2 ≠ [].
Proof.
  assert (session_wf Examples.small_session) as Hwf
    by (vm_compute; repeat split; reflexivity).
  split; [exact Hwf|]. split; [reflexivity|]. split; [reflexivity|].
  destruct (frame_delivery 5 Examples.small_session [] []) as (_ & H).
  destruct (H Hwf eq_refl eq_refl) as (_ & Hne & _). exact Hne.
Defined.

End frames_witness.

(** * Creating a session *)

Section create.
Import Invariants.

Lemma session_initialize_ok (junk : nat → nat → Byte.byte) (w h d : Z)
    (s0 : Session.t) :
  0 < w * h * d * 3 < 2 ^ 31 →
  ∃ s sim,
    Session.initialize true junk w h d s0 = Some s ∧
    Session.simulation_ s = Some sim ∧ solver_wf sim ∧
    FDTD3D.step_calls sim = 0%nat ∧
    FDTD3D.width_ sim = w ∧ FDTD3D.height_ sim = h ∧ FDTD3D.depth_ sim = d ∧
    Session.sessionId_ s = Session.sessionId_ s0 ∧
    Session.hasNewFrame_ s = Session.hasNewFrame_ s0 ∧
    Session.needsUpdate_ s = Session.needsUpdate_ s0 ∧
    Session.lastActivity_ s = Session.lastActivity_ s0.
Proof.
  intros Hc.
  destruct (solver_initialize_ok junk w h d Hc) as (sim & E & Hwf & Hrest).
  unfold Session.initialize. rewrite E.
  eexists _, sim. split; [reflexivity|]. cbn [Session.simulation_
    Session.sessionId_ Session.hasNewFrame_ Session.needsUpdate_
    Session.lastActivity_].
  destruct Hrest as (? & ? & ? & ?). done.
Qed.

Lemma grid_128 : 0 < 128 * 128 * 128 * 3 < 2 ^ 31.
Proof. lia. Qed.

(** When Vulkan initialises, [createSession] binds a fresh, initialised
    session on the default grid in the three maps. *)
Lemma createSession_ok (env : SessionManager.Env) (ws : Z)
    (m : SessionManager.t) :
  SessionManager.env_vulkan_ok env = true →
  let sessionId :=
    SessionManager.generateSessionId (SessionManager.env_draws env) in
  ∃ s sim,
    SessionManager.createSession env ws m =
    (Some sessionId,
     {| SessionManager.sessions_ :=
          <[sessionId := s]> (SessionManager.sessions_ m);
        SessionManager.connectionToSession_ :=
          <[ws := sessionId]> (SessionManager.connectionToSession_ m);
        SessionManager.sessionToConnection_ :=
          <[sessionId := ws]> (SessionManager.sessionToConnection_ m) |}) ∧
    Session.simulation_ s = Some sim ∧ solver_wf sim ∧
    FDTD3D.step_calls sim = 0%nat ∧
    FDTD3D.width_ sim = 128 ∧ FDTD3D.height_ sim = 128 ∧
    FDTD3D.depth_ sim = 128 ∧
    Session.hasNewFrame_ s = false ∧ Session.needsUpdate_ s = true ∧
    Session.lastActivity_ s = SessionManager.env_now env.
Proof.
  intros Hok sessionId. unfold SessionManager.createSession.
  rewrite Hok. fold sessionId.
  destruct (session_initialize_ok (SessionManager.env_junk env) 128 128 128
              (Session.new sessionId (SessionManager.env_now env)) grid_128)
    as (s & sim & E & Hsim & Hwf & Hst & Hw & Hh & Hd & _ & Hnf & Hnu & Hla).
  rewrite E. exists s, sim. split; [reflexivity|]. done.
Qed.

Lemma createSession_fails (env : SessionManager.Env) (ws : Z)
    (m : SessionManager.t) :
  SessionManager.env_vulkan_ok env = false →
  SessionManager.createSession env ws m = (None, m).
Proof.
  intros Hok. unfold SessionManager.createSession, Session.initialize.
  rewrite Hok. by rewrite solver_initialize_fails.
Qed.

(** C7. A freshly created session has the 128 x 128 x 128 grid; the
    frame payload it produces after its step (with or without a client
    input before it) is the electric field snapshot followed by the
    magnetic field snapshot, as the solver returns them, each a flat array
    of 32-bit floats with three components per cell, so
    [128 * 128 * 128 * 3 * 4 * 2] bytes in all. *)
Theorem fresh_session_frame_payload (env : SessionManager.Env) (ws : Z)
    (m : SessionManager.t) (input : option (Z * ClientInputMessage))
    (now : Z) :
  SessionManager.env_vulkan_ok env = true →
  let sessionId :=
    SessionManager.generateSessionId (SessionManager.env_draws env) in
  ∃ s : Session.t,
    (SessionManager.createSession env ws m).1 = Some sessionId ∧
    SessionManager.sessions_ (SessionManager.createSession env ws m).2
      !! sessionId = Some s ∧
    let s0 :=
      match input with
      | Some (t, msg) =>
          Session.handleInput t (ci_x msg) (ci_y msg) (ci_z msg)
            (ci_value msg) s
      | None => s
      end in
    let s1 := Session.update now s0 in
    let s2 := (Session.getFrameData [] s1).1 in
    let payload := (Session.getFrameData [] s1).2 in
    Session.solver_steps s1 = 1%nat ∧
    payload = bytes_of_floats (Session.electricFieldBuffer_ s2)
              ++ bytes_of_floats (Session.magneticFieldBuffer_ s2) ∧
    vec_size (Session.electricFieldBuffer_ s2) = 128 * 128 * 128 * 3 ∧
    vec_size (Session.magneticFieldBuffer_ s2) = 128 * 128 * 128 * 3 ∧
    vec_size payload = 128 * 128 * 128 * 3 * 4 * 2 ∧
    match Session.simulation_ s1 with
    | Some sim1 =>
        Session.electricFieldBuffer_ s2 =
        FDTD3D.getElectricField (Session.electricFieldBuffer_ s1) sim1 ∧
        Session.magneticFieldBuffer_ s2 =
        FDTD3D.getMagneticField (Session.magneticFieldBuffer_ s1) sim1
    | None => False
    end.
Proof.
  intros Hok sessionId.
  destruct (createSession_ok env ws m Hok)
    as (s & sim & E & Hsim & Hwf & Hst & Hw & Hh & Hd & Hnf & Hnu & Hla).
  fold sessionId in E. exists s. rewrite E. cbn [fst snd].
  split; [done|]. split.
  { cbn [SessionManager.sessions_]. apply lookup_insert_eq. }
  set (s0 := match input with Some _ => _ | None => s end).
  assert (∃ sim0, Session.simulation_ s0 = Some sim0 ∧ solver_wf sim0 ∧
                  FDTD3D.step_calls sim0 = 0%nat ∧
                  FDTD3D.width_ sim0 = 128 ∧ FDTD3D.height_ sim0 = 128 ∧
                  FDTD3D.depth_ sim0 = 128 ∧
                  Session.needsUpdate_ s0 = true)
    as (sim0 & Hsim0 & Hwf0 & Hst0 & Hw0 & Hh0 & Hd0 & Hnu0).
  { unfold s0. destruct input as [[t msg]|].
    - eexists. unfold Session.handleInput. rewrite Hsim.
      cbn [Session.simulation_ Session.needsUpdate_].
      split; [reflexivity|]. split; [by apply solver_wf_addSource|].
      by cbn [FDTD3D.addSource FDTD3D.step_calls FDTD3D.width_
              FDTD3D.height_ FDTD3D.depth_].
    - by exists sim. }
  clearbody s0.
  assert (Session.simulation_ (Session.update now s0)
          = Some (FDTD3D.step sim0)) as Hsim1.
  { unfold Session.update, Session.step. by rewrite Hnu0, Hsim0. }
  assert (Session.hasNewFrame_ (Session.update now s0) = true) as Hnew1.
  { unfold Session.update, Session.step. by rewrite Hnu0, Hsim0. }
  pose proof (solver_wf_step sim0 Hwf0) as Hwf1.
  rewrite (getFrameData_pending [] _ _ Hsim1 Hwf1 Hnew1).
  cbn [fst snd Session.electricFieldBuffer_ Session.magneticFieldBuffer_].
  pose proof (length_getElectricField
    (Session.electricFieldBuffer_ (Session.update now s0)) _ Hwf1) as HE.
  pose proof (length_getMagneticField
    (Session.magneticFieldBuffer_ (Session.update now s0)) _ Hwf1) as HM.
  assert (FDTD3D.width_ (FDTD3D.step sim0) = 128 ∧
          FDTD3D.height_ (FDTD3D.step sim0) = 128 ∧
          FDTD3D.depth_ (FDTD3D.step sim0) = 128) as (Hw1 & Hh1 & Hd1) by done.
  rewrite Hw1, Hh1, Hd1 in HE, HM.
  split; [|split; [done|split; [done|split; [done|split]]]].
  - unfold Session.solver_steps. rewrite Hsim1.
    cbn [FDTD3D.step FDTD3D.step_calls]. by rewrite Hst0.
  - unfold vec_size in *.
    rewrite length_app, !length_bytes_of_floats. lia.
  - by rewrite Hsim1.
Qed.

Lemma fresh_session_frame_payload_witness :
    SessionManager.env_vulkan_ok Examples.env_a = true ∧
    ∃ s : Session.t,
      SessionManager.sessions_
        (SessionManager.createSession Examples.env_a 7 SessionManager.new).2
        !! Examples.id_a = Some s ∧
      vec_size
        (Session.getFrameData []
           (Session.update 2
              (Session.handleInput 1 (ci_x Examples.input_message)
                 (ci_y Examples.input_message) (ci_z Examples.input_message)
                 (ci_value Examples.input_message) s))).2 = 50331648.
Proof.
  split; [reflexivity|].
  destruct (fresh_session_frame_payload Examples.env_a 7 SessionManager.new
              (Some (1, Examples.input_message)) 2 eq_refl)
    as (s & _ & Hs & _ & _ & _ & _ & Hlen & _).
  exists s. split; [exact Hs|exact Hlen].
Defined.

End create.

(** * The registry *)

Section registry.
Import Invariants Registry SessionManager.

Lemma handleControl_id (sessionId : string) (control : ClientControlMessage)
    (m : SessionManager.t) :
  handleControl sessionId control m = m.
Proof.
  unfold handleControl. by destruct (sessions_ m !! sessionId).
Qed.

(** C9. [handleControl] has no effect: whatever the session id and the
    control message (Pause, Resume, Reset, SetSpeed or any other kind
    byte, with any parameter), the registry it returns is the one it was
    given, so the three maps and every session's state are unchanged. *)
Theorem handleControl_no_effect (sessionId : string)
    (control : ClientControlMessage) (m : SessionManager.t) :
  handleControl sessionId control m = m.
Proof. apply handleControl_id. Qed.

Lemma expired_id_insert_eq (now : Z) (ss : gmap string Session.t)
    (i : string) (x : Session.t) :
  expired_id now (<[i := x]> ss) i = Session.isExpired now x.
Proof. unfold expired_id. by rewrite lookup_insert_eq. Qed.

Lemma expired_id_insert_ne (now : Z) (ss : gmap string Session.t)
    (i j : string) (x : Session.t) :
  i ≠ j → expired_id now (<[i := x]> ss) j = expired_id now ss j.
Proof. intros. unfold expired_id. by rewrite lookup_insert_ne. Qed.

Lemma expired_id_absent (now : Z) (ss : gmap string Session.t) (i : string) :
  ss !! i = None → expired_id now ss i = false.
Proof. intros H. unfold expired_id. by rewrite H. Qed.

Lemma lookup_erase_connections_of (sessionId : string)
    (c2s : gmap Z string) (ws : Z) :
  erase_connections_of sessionId c2s !! ws =
  match c2s !! ws with
  | Some id => if decide (id = sessionId) then None else Some id
  | None => None
  end.
Proof.
  unfold erase_connections_of. rewrite map_lookup_filter.
  destruct (c2s !! ws) as [id|]; [|done]. simpl.
  destruct (decide (id = sessionId)) as [->|Hne].
  - by rewrite option_guard_False by (simpl; congruence).
  - by rewrite option_guard_True.
Qed.

(** The sweep, entry by entry: what the three maps hold after the
    entries [ss] have been visited. *)
Lemma cleanup_fold_lookup (now : Z) (m : SessionManager.t)
      (ss : gmap string Session.t) :
    (∀ id, sessions_ (map_fold (cleanup_entry now) m ss) !! id =
           if expired_id now ss id then None else sessions_ m !! id) ∧
    (∀ id, sessionToConnection_ (map_fold (cleanup_entry now) m ss) !! id =
           if expired_id now ss id then None
           else sessionToConnection_ m !! id) ∧
    (∀ ws, connectionToSession_ (map_fold (cleanup_entry now) m ss) !! ws =
           match connectionToSession_ m !! ws with
           | Some id => if expired_id now ss id then None else Some id
           | None => None
           end).
Proof.
  revert ss.
  apply (map_fold_weak_ind (λ r ss,
    (∀ id, sessions_ r !! id =
           if expired_id now ss id then None else sessions_ m !! id) ∧
    (∀ id, sessionToConnection_ r !! id =
           if expired_id now ss id then None
           else sessionToConnection_ m !! id) ∧
    (∀ ws, connectionToSession_ r !! ws =
           match connectionToSession_ m !! ws with
           | Some id => if expired_id now ss id then None else Some id
           | None => None
           end))).
  - split; [|split]; intros; unfold expired_id; rewrite ?lookup_empty;
      try done. by destruct (connectionToSession_ m !! ws).
  - intros i x ss r Hi (Hs & Ht & Hc). unfold cleanup_entry.
    destruct (Session.isExpired now x) eqn:Hx;
      cbn [sessions_ sessionToConnection_ connectionToSession_].
    + split; [|split].
      * intros id. destruct (decide (i = id)) as [->|Hne].
        -- by rewrite lookup_delete_eq, expired_id_insert_eq, Hx.
        -- by rewrite lookup_delete_ne, expired_id_insert_ne, Hs.
      * intros id. destruct (decide (i = id)) as [->|Hne].
        -- by rewrite lookup_delete_eq, expired_id_insert_eq, Hx.
        -- by rewrite lookup_delete_ne, expired_id_insert_ne, Ht.
      * intros ws. rewrite lookup_erase_connections_of, Hc.
        destruct (connectionToSession_ m !! ws) as [id|]; [|done].
        destruct (decide (i = id)) as [->|Hne].
        -- rewrite expired_id_insert_eq, Hx.
           destruct (expired_id now ss id); [done|]. by rewrite decide_True.
        -- rewrite expired_id_insert_ne by done.
           destruct (expired_id now ss id); [done|].
           by rewrite decide_False by congruence.
    + assert (∀ id, expired_id now (<[i := x]> ss) id = expired_id now ss id)
        as Heq.
      { intros id. destruct (decide (i = id)) as [->|Hne].
        - by rewrite expired_id_insert_eq, expired_id_absent.
        - by apply expired_id_insert_ne. }
      split; [|split]; intros; rewrite ?Heq; auto.
      rewrite Hc. destruct (connectionToSession_ m !! ws); [|done].
      by rewrite Heq.
Qed.

Lemma cleanup_lookup (now : Z) (m : SessionManager.t) :
    (∀ id, sessions_ (cleanupExpiredSessions now m) !! id =
           if expired_id now (sessions_ m) id then None
           else sessions_ m !! id) ∧
    (∀ id, sessionToConnection_ (cleanupExpiredSessions now m) !! id =
           if expired_id now (sessions_ m) id then None
           else sessionToConnection_ m !! id) ∧
    (∀ ws, connectionToSession_ (cleanupExpiredSessions now m) !! ws =
           match connectionToSession_ m !! ws with
           | Some id =>
               if expired_id now (sessions_ m) id then None else Some id
           | None => None
           end).
Proof. apply cleanup_fold_lookup. Qed.

End registry.

(** * Expiry *)

Section expiry.
Import Invariants Registry SessionManager.


(** A session that [update] steps is not expired afterwards. *)
Lemma isExpired_update (now : Z) (s : Session.t) :
  Session.isExpired now (Session.update now s) =
  Session.isExpired now s
  && negb (Session.needsUpdate_ s && initialized s).
Proof.
  unfold Session.isExpired, Session.update, Session.step, initialized.
  destruct s as [sid [sim|] hnf [] la eb mb];
    cbn [Session.needsUpdate_ Session.simulation_ Session.lastActivity_
         andb negb];
    rewrite ?andb_true_r, ?andb_false_r; try reflexivity.
  by rewrite Z.sub_diag.
Qed.

(** What [updateAll] leaves in the three maps. *)
Lemma updateAll_lookup (now : Z) (m : SessionManager.t) :
  let expired id :=
    expired_id now (Session.update now <$> sessions_ m) id in
  (∀ id, sessions_ (updateAll now m) !! id =
         if expired id then None
         else Session.update now <$> sessions_ m !! id) ∧
  (∀ id, sessionToConnection_ (updateAll now m) !! id =
         if expired id then None else sessionToConnection_ m !! id) ∧
  (∀ ws, connectionToSession_ (updateAll now m) !! ws =
         match connectionToSession_ m !! ws with
         | Some id => if expired id then None else Some id
         | None => None
         end).
Proof.
  cbv zeta. unfold updateAll.
  destruct (cleanup_lookup now
    {| sessions_ := Session.update now <$> sessions_ m;
       connectionToSession_ := connectionToSession_ m;
       sessionToConnection_ := sessionToConnection_ m |}) as (Hs & Ht & Hc).
  cbn [sessions_ connectionToSession_ sessionToConnection_] in *.
  split; [|split]; intros.
  - by rewrite Hs, lookup_fmap.
  - by rewrite Ht.
  - by rewrite Hc.
Qed.

Lemma expired_id_update (now : Z) (m : SessionManager.t) (id : string)
    (s : Session.t) :
  sessions_ m !! id = Some s →
  expired_id now (Session.update now <$> sessions_ m) id =
  Session.isExpired now (Session.update now s).
Proof. intros H. unfold expired_id. by rewrite lookup_fmap, H. Qed.

End expiry.

(** * Consistency of the three maps *)

Section consistency.
Import Invariants Registry SessionManager.

Lemma inv_new : inv new.
Proof.
  split.
  - intros ws id. unfold new. simpl. by rewrite !lookup_empty.
  - intros id. unfold new. simpl. rewrite !lookup_empty.
    split; intros []; done.
Qed.

Lemma inv_consistent (m : SessionManager.t) : inv m → consistent m.
Proof.
  intros (Hb & Hi) id. split.
  - intros (_ & ws & Hws). exists ws. split; [by apply Hb|done].
  - intros (ws & _ & Hws). split; [apply Hi|]; by exists ws.
Qed.

Lemma inv_createSession (env : Env) (ws : Z) (m : SessionManager.t) :
  inv m → fresh_op (CreateSession env ws) m →
  inv (createSession env ws m).2.
Proof.
  intros (Hb & Hi) (Hws & Hid).
  destruct (env_vulkan_ok env) eqn:Hok.
  - destruct (createSession_ok env ws m Hok) as (s & sim & -> & _).
    set (id := generateSessionId (env_draws env)) in *.
    assert (sessionToConnection_ m !! id = None) as Hid'.
    { destruct (sessionToConnection_ m !! id) eqn:E; [|done].
      destruct (proj2 (Hi id)) as [? Hs]; [by eexists|]. congruence. }
    cbn [snd]. split.
    + intros ws' id'. cbn [connectionToSession_ sessionToConnection_].
      destruct (decide (ws = ws')) as [<-|Hne1],
        (decide (id = id')) as [<-|Hne2];
        rewrite ?lookup_insert_eq, ?lookup_insert_ne by done.
      * done.
      * split; [congruence|]. intros H. apply Hb in H. congruence.
      * split; [|congruence]. intros H. apply Hb in H. congruence.
      * apply Hb.
    + intros id'. cbn [sessions_ sessionToConnection_].
      destruct (decide (id = id')) as [<-|Hne].
      * rewrite !lookup_insert_eq. split; intros _; by eexists.
      * rewrite !lookup_insert_ne by done. apply Hi.
  - by rewrite createSession_fails.
Qed.

Lemma inv_removeSession (ws : Z) (m : SessionManager.t) :
  inv m → inv (removeSession ws m).
Proof.
  intros (Hb & Hi). unfold removeSession.
  destruct (connectionToSession_ m !! ws) as [id|] eqn:Hws; [|done].
  pose proof (proj1 (Hb ws id) Hws) as Hid.
  split.
  - intros ws' id'. cbn [connectionToSession_ sessionToConnection_].
    destruct (decide (ws = ws')) as [<-|Hne1],
      (decide (id = id')) as [<-|Hne2];
      rewrite ?lookup_delete_eq, ?lookup_delete_ne by done.
    + done.
    + split; [done|]. intros H. apply Hb in H. congruence.
    + split; [|done]. intros H. apply Hb in H. congruence.
    + apply Hb.
  - intros id'. cbn [sessions_ sessionToConnection_].
    destruct (decide (id = id')) as [<-|Hne].
    + rewrite !lookup_delete_eq. split; intros []; done.
    + rewrite !lookup_delete_ne by done. apply Hi.
Qed.

Lemma inv_handleInput (now : Z) (id : string) (input : ClientInputMessage)
    (m : SessionManager.t) :
  inv m → inv (handleInput now id input m).
Proof.
  intros (Hb & Hi). unfold handleInput.
  destruct (sessions_ m !! id) as [s|] eqn:Hs; [|done].
  split; [done|]. intros id'. cbn [sessions_ sessionToConnection_].
  etrans; [|apply Hi]. destruct (decide (id = id')) as [<-|Hne].
  - rewrite lookup_insert_eq, Hs. split; intros _; by eexists.
  - by rewrite lookup_insert_ne.
Qed.

Lemma inv_updateAll (now : Z) (m : SessionManager.t) :
  inv m → inv (updateAll now m).
Proof.
  intros (Hb & Hi).
  destruct (updateAll_lookup now m) as (Hl & Ht & Hc). cbv zeta in *.
  split.
  - intros ws id. rewrite Hc, Ht.
    destruct (connectionToSession_ m !! ws) as [id0|] eqn:Hws.
    + apply Hb in Hws.
      destruct (decide (id0 = id)) as [->|Hne].
      * destruct (expired_id _ _ id); [split; done|]. by rewrite Hws.
      * split.
        -- destruct (expired_id _ _ id0); congruence.
        -- destruct (expired_id _ _ id); [done|].
           intros H. apply Hb in H. apply Hb in Hws. congruence.
    + split; [done|]. destruct (expired_id _ _ id); [done|].
      intros H. apply Hb in H. congruence.
  - intros id. rewrite Hl, Ht.
    destruct (expired_id _ _ id); [split; intros []; done|].
    etrans; [|apply Hi]. apply fmap_is_Some.
Qed.

Lemma inv_broadcastFrames (m : SessionManager.t) :
  inv m → inv (broadcastFrames m).1.
Proof.
  intros (Hb & Hi). unfold broadcastFrames. cbn [fst]. split; [done|].
  intros id. cbn [sessions_ sessionToConnection_]. etrans; [|apply Hi].
  rewrite map_lookup_imap.
  destruct (sessions_ m !! id); simpl; split; intros []; by eexists.
Qed.

Lemma inv_exec (op : Op) (m : SessionManager.t) :
  inv m → fresh_op op m → inv (exec op m).
Proof.
  intros Hinv Hfresh. destruct op; cbn [exec].
  - by apply inv_createSession.
  - by apply inv_removeSession.
  - by apply inv_handleInput.
  - by rewrite handleControl_id.
  - by apply inv_updateAll.
  - by apply inv_broadcastFrames.
Qed.

Lemma inv_run (ops : list Op) :
  ∀ m : SessionManager.t, inv m → fresh_run ops m → inv (run ops m).
Proof.
  induction ops as [|op ops IH]; intros m Hinv Hfresh; [done|].
  destruct Hfresh as (Hop & Hrest). cbn [run].
  apply IH; [by apply inv_exec|done].
Qed.

End consistency.

(** * The wire primitives read back what they wrote *)

Section wire_primitives.
Import ProtocolEncoder ProtocolDecoder DecoderView Cursor Wire.

Lemma at_rest_reading (pre post : list Byte.byte) :
  vec_size (pre ++ post) <= PTRDIFF_MAX →
  at_rest (pre ++ post) post (reading (pre ++ post) (vec_size pre)).
Proof.
  intros Hs. unfold at_rest, wf, reading, pending, vec_size in *. simpl.
  rewrite length_app in *. rewrite Nat2Z.id, drop_app_length.
  repeat split; lia || done.
Qed.

Lemma skip_reading (buf : list Byte.byte) (o n : Z) :
  skip n (reading buf o) = reading buf (o + n).
Proof. done. Qed.

Lemma at_rest_unique (pre rest : list Byte.byte) (d : ProtocolDecoder.t) :
  at_rest (pre ++ rest) rest d → d = reading (pre ++ rest) (vec_size pre).
Proof.
  intros Hat. pose proof (at_rest_remaining _ _ _ Hat) as Hr.
  destruct Hat as ((Hs & Ho & _) & Hd & _).
  destruct d as [data size offset]. unfold reading, remaining in *.
  simpl in *. subst. f_equal.
  unfold vec_size in *. rewrite length_app in Hr. lia.
Qed.

Lemma cast_int32_wrapped (v : Z) : cast_int32 (v mod 2 ^ 32) = cast_int32 v.
Proof. unfold cast_int32. by rewrite Z.add_mod_idemp_l by lia. Qed.

Lemma vec_size_nonneg_bytes (l : list Byte.byte) : 0 <= vec_size l.
Proof. unfold vec_size. lia. Qed.

Lemma written_at (e : ProtocolEncoder.t) (bs rest : list Byte.byte) :
  vec_size (buffer_ e) + vec_size bs + vec_size rest <= PTRDIFF_MAX →
  at_rest ((buffer_ e ++ bs) ++ rest) (bs ++ rest)
    (reading ((buffer_ e ++ bs) ++ rest) (vec_size (buffer_ e))).
Proof.
  intros Hs. rewrite <- (assoc_L (++)). apply at_rest_reading.
  unfold vec_size in *. rewrite !length_app. lia.
Qed.

(** X1.  A 32-bit unsigned integer, a float, a 32-bit signed integer and
    a double written at the end of any encoder buffer are read back by
    their read functions from the position where the write began,
    whatever bytes follow; the cursor ends where the write ended.  The
    value read is the value written, brought into the range of its
    type. *)
Theorem write_read_fixed_width (v : Z) (e : ProtocolEncoder.t)
    (rest : list Byte.byte) :
  vec_size (buffer_ e) + 8 + vec_size rest <= PTRDIFF_MAX →
  readUInt32
    (reading (buffer_ (writeUInt32 v e) ++ rest) (vec_size (buffer_ e)))
  = Ok (cast_uint32 v)
      (reading (buffer_ (writeUInt32 v e) ++ rest)
         (vec_size (buffer_ e) + 4)) ∧
  readFloat
    (reading (buffer_ (writeFloat v e) ++ rest) (vec_size (buffer_ e)))
  = Ok (cast_uint32 v)
      (reading (buffer_ (writeFloat v e) ++ rest)
         (vec_size (buffer_ e) + 4)) ∧
  readInt32
    (reading (buffer_ (writeInt32 v e) ++ rest) (vec_size (buffer_ e)))
  = Ok (cast_int32 v)
      (reading (buffer_ (writeInt32 v e) ++ rest)
         (vec_size (buffer_ e) + 4)) ∧
  readDouble
    (reading (buffer_ (writeDouble v e) ++ rest) (vec_size (buffer_ e)))
  = Ok (cast_uint64 v)
      (reading (buffer_ (writeDouble v e) ++ rest)
         (vec_size (buffer_ e) + 8)).
Proof.
  intros Hs.
  assert (at_rest ((buffer_ e ++ le_split 4 v) ++ rest)
            (le_split 4 v ++ rest)
            (reading ((buffer_ e ++ le_split 4 v) ++ rest)
               (vec_size (buffer_ e)))) as H4.
  { apply written_at. rewrite vec_size_le_split. lia. }
  assert (at_rest ((buffer_ e ++ le_split 8 v) ++ rest)
            (le_split 8 v ++ rest)
            (reading ((buffer_ e ++ le_split 8 v) ++ rest)
               (vec_size (buffer_ e)))) as H8.
  { apply written_at. rewrite vec_size_le_split. lia. }
  destruct (four_written _ _ _ _ H4) as (Hr & Hp & _).
  split; [|split; [|split]].
  - rewrite buffer_writeUInt32, readUInt32_eq, Hr, Hp by apply H4. done.
  - rewrite buffer_writeFloat, readFloat_eq, Hr, Hp by apply H4. done.
  - rewrite buffer_writeInt32, readInt32_eq, Hr, Hp by apply H4.
    by rewrite cast_int32_wrapped.
  - rewrite buffer_writeDouble, readDouble_eq by apply H8.
    pose proof (at_rest_remaining _ _ _ H8) as Hr8.
    assert (8 <= vec_size (le_split 8 v ++ rest)) as Hl.
    { unfold vec_size. rewrite length_app, length_le_split. lia. }
    destruct (Z.ltb_spec
                (remaining (reading ((buffer_ e ++ le_split 8 v) ++ rest)
                              (vec_size (buffer_ e)))) 8); [lia|].
    unfold peek_le.
    rewrite (at_rest_peek_n _ _ _ _ 8 (vec_size_le_split 8 v) H8).
    by rewrite le_value_le_split.
Qed.

Lemma write_read_fixed_width_witness :
  vec_size (buffer_ (writeHeader SERVER_STATE ProtocolEncoder.new)) + 8
    + vec_size [Byte.xff] <= PTRDIFF_MAX ∧
  readInt32
    (reading
       (buffer_ (writeInt32 (-2) (writeHeader SERVER_STATE ProtocolEncoder.new))
          ++ [Byte.xff]) 1)
  = Ok (-2)
      (reading
         (buffer_
            (writeInt32 (-2) (writeHeader SERVER_STATE ProtocolEncoder.new))
            ++ [Byte.xff]) 5).
Proof.
  split; [vm_compute; discriminate|].
  apply (write_read_fixed_width (-2)
           (writeHeader SERVER_STATE ProtocolEncoder.new) [Byte.xff]).
  vm_compute. discriminate.
Defined.

(** X2.  A string shorter than 2^32 bytes written at the end of any
    encoder buffer is read back by [readString] from the position where
    the write began, whatever bytes follow; the cursor ends where the
    write ended. *)
Theorem write_read_string (s : string) (e : ProtocolEncoder.t)
    (rest : list Byte.byte) :
  str_length s < 2 ^ 32 →
  vec_size (buffer_ (writeString s e) ++ rest) <= PTRDIFF_MAX →
  readString
    (reading (buffer_ (writeString s e) ++ rest) (vec_size (buffer_ e)))
  = Ok s
      (reading (buffer_ (writeString s e) ++ rest)
         (vec_size (buffer_ (writeString s e)))).
Proof.
  intros Hlen Hs. rewrite buffer_writeString in *.
  set (bs := le_split 4 (cast_uint32 (str_length s))
               ++ String.list_byte_of_string s) in *.
  assert (at_rest ((buffer_ e ++ bs) ++ rest)
            (le_split 4 (cast_uint32 (str_length s))
               ++ String.list_byte_of_string s ++ rest)
            (reading ((buffer_ e ++ bs) ++ rest) (vec_size (buffer_ e))))
    as Hat.
  { replace (le_split 4 (cast_uint32 (str_length s))
               ++ String.list_byte_of_string s ++ rest) with (bs ++ rest)
      by (unfold bs; by rewrite <- (assoc_L (++))).
    apply written_at. unfold vec_size in *. rewrite !length_app in Hs. lia. }
  destruct (readString_written _ _ _ _ Hlen Hat) as (d' & E & Hat').
  rewrite E. f_equal. by apply at_rest_unique.
Qed.

Lemma write_read_string_witness :
  str_length "s1" < 2 ^ 32 ∧
  readString
    (reading (buffer_ (writeString "s1" (writeHeader SERVER_ERROR
                                           ProtocolEncoder.new)) ++ []) 1)
  = Ok "s1"
      (reading (buffer_ (writeString "s1" (writeHeader SERVER_ERROR
                                             ProtocolEncoder.new)) ++ []) 7).
Proof.
  split; [vm_compute; reflexivity|].
  apply (write_read_string "s1"
           (writeHeader SERVER_ERROR ProtocolEncoder.new) []).
  - vm_compute. reflexivity.
  - vm_compute. discriminate.
Defined.

Lemma buffer_encodeFrame (sessionId : string) (textureData : list Byte.byte)
    (simulationTime : Z) (e : ProtocolEncoder.t) :
  getBuffer (encodeFrame sessionId textureData simulationTime e)
  = SERVER_FRAME ::
      le_split 4 (cast_uint32 (str_length sessionId))
      ++ String.list_byte_of_string sessionId
      ++ le_split 8 simulationTime
      ++ le_split 4 (cast_uint32 (vec_size textureData)) ++ textureData.
Proof.
  unfold getBuffer, encodeFrame, insert_end.
  cbv beta iota zeta. cbn [buffer_].
  rewrite buffer_writeUInt32, buffer_writeDouble, buffer_writeString,
    buffer_writeHeader.
  cbn [clear buffer_]. by rewrite <- !app_assoc.
Qed.

Lemma buffer_encodeState (sessionId : string) (time width height depth : Z)
    (e : ProtocolEncoder.t) :
  getBuffer (encodeState sessionId time width height depth e)
  = SERVER_STATE ::
      le_split 4 (cast_uint32 (str_length sessionId))
      ++ String.list_byte_of_string sessionId
      ++ le_split 4 time ++ le_split 4 width ++ le_split 4 height
      ++ le_split 4 depth.
Proof.
  unfold getBuffer, encodeState. cbv zeta.
  rewrite ?buffer_writeInt32, ?buffer_writeFloat, ?buffer_writeUInt32,
    ?buffer_writeString, ?buffer_writeHeader.
  cbn [clear buffer_]. by rewrite <- !app_assoc.
Qed.

Lemma buffer_encodeError (sessionId error : string) (e : ProtocolEncoder.t) :
  getBuffer (encodeError sessionId error e)
  = SERVER_ERROR ::
      le_split 4 (cast_uint32 (str_length sessionId))
      ++ String.list_byte_of_string sessionId
      ++ le_split 4 (cast_uint32 (str_length error))
      ++ String.list_byte_of_string error.
Proof.
  unfold getBuffer, encodeError. cbv zeta.
  rewrite !buffer_writeString, buffer_writeHeader.
  cbn [clear buffer_]. by rewrite <- !app_assoc.
Qed.

Lemma vec_size_app {A} (a b : list A) :
  vec_size (a ++ b) = vec_size a + vec_size b.
Proof. unfold vec_size. rewrite length_app. lia. Qed.

Lemma vec_size_bytes (s : string) :
  vec_size (String.list_byte_of_string s) = str_length s.
Proof.
  unfold vec_size, str_length. by rewrite length_list_byte_of_string.
Qed.

Lemma vec_size_tagged (x : Byte.byte) (l : list Byte.byte) :
  vec_size (x :: l) = 1 + vec_size l.
Proof. unfold vec_size. rewrite length_cons. lia. Qed.

Lemma length_encodeFrame (sessionId : string) (textureData : list Byte.byte)
    (simulationTime : Z) (e : ProtocolEncoder.t) :
  vec_size (getBuffer (encodeFrame sessionId textureData simulationTime e))
  = 17 + str_length sessionId + vec_size textureData.
Proof.
  rewrite buffer_encodeFrame.
  rewrite vec_size_tagged, !vec_size_app, vec_size_bytes, !vec_size_le_split.
  change (Z.of_nat 4) with 4. change (Z.of_nat 8) with 8. lia.
Qed.

Lemma length_encodeState (sessionId : string) (time width height depth : Z)
    (e : ProtocolEncoder.t) :
  vec_size (getBuffer (encodeState sessionId time width height depth e))
  = 21 + str_length sessionId.
Proof.
  rewrite buffer_encodeState.
  rewrite vec_size_tagged, !vec_size_app, vec_size_bytes, !vec_size_le_split.
  change (Z.of_nat 4) with 4. lia.
Qed.

Lemma length_encodeError (sessionId error : string) (e : ProtocolEncoder.t) :
  vec_size (getBuffer (encodeError sessionId error e))
  = 9 + str_length sessionId + str_length error.
Proof.
  rewrite buffer_encodeError.
  rewrite vec_size_tagged, !vec_size_app, !vec_size_bytes,
    !vec_size_le_split.
  change (Z.of_nat 4) with 4. lia.
Qed.

(** X3.  The three server encoders start from an empty buffer: what
    they produce does not depend on what the encoder held before.  The
    bytes are the tag, then the fields in order, every integer and
    float little-endian and every string and the frame payload behind
    a 32-bit length; hence the lengths of the three messages. *)
Theorem encoders_layout (sessionId error : string)
    (textureData : list Byte.byte) (simulationTime time width height depth : Z)
    (e : ProtocolEncoder.t) :
  getBuffer (encodeFrame sessionId textureData simulationTime e)
  = SERVER_FRAME ::
      le_split 4 (cast_uint32 (str_length sessionId))
      ++ String.list_byte_of_string sessionId
      ++ le_split 8 simulationTime
      ++ le_split 4 (cast_uint32 (vec_size textureData)) ++ textureData ∧
  getBuffer (encodeState sessionId time width height depth e)
  = SERVER_STATE ::
      le_split 4 (cast_uint32 (str_length sessionId))
      ++ String.list_byte_of_string sessionId
      ++ le_split 4 time ++ le_split 4 width ++ le_split 4 height
      ++ le_split 4 depth ∧
  getBuffer (encodeError sessionId error e)
  = SERVER_ERROR ::
      le_split 4 (cast_uint32 (str_length sessionId))
      ++ String.list_byte_of_string sessionId
      ++ le_split 4 (cast_uint32 (str_length error))
      ++ String.list_byte_of_string error ∧
  vec_size (getBuffer (encodeFrame sessionId textureData simulationTime e))
  = 17 + str_length sessionId + vec_size textureData ∧
  vec_size (getBuffer (encodeState sessionId time width height depth e))
  = 21 + str_length sessionId ∧
  vec_size (getBuffer (encodeError sessionId error e))
  = 9 + str_length sessionId + str_length error.
Proof.
  split; [apply buffer_encodeFrame|]. split; [apply buffer_encodeState|].
  split; [apply buffer_encodeError|]. split; [apply length_encodeFrame|].
  split; [apply length_encodeState|apply length_encodeError].
Qed.

Lemma readFloat_written_any (buf : list Byte.byte) (v : Z)
    (rest : list Byte.byte) (d : ProtocolDecoder.t) :
  at_rest buf (le_split 4 v ++ rest) d →
  ∃ d', readFloat d = Ok (cast_uint32 v) d' ∧ at_rest buf rest d'.
Proof.
  intros Hat. destruct (four_written _ _ _ _ Hat) as (Hr & Hp & Hat').
  exists (skip 4 d). split; [|done].
  by rewrite readFloat_eq, Hr, Hp by apply Hat.
Qed.

Lemma readInt32_written_any (buf : list Byte.byte) (v : Z)
    (rest : list Byte.byte) (d : ProtocolDecoder.t) :
  at_rest buf (le_split 4 v ++ rest) d →
  ∃ d', readInt32 d = Ok (cast_int32 v) d' ∧ at_rest buf rest d'.
Proof.
  intros Hat. destruct (four_written _ _ _ _ Hat) as (Hr & Hp & Hat').
  exists (skip 4 d). split; [|done].
  rewrite readInt32_eq, Hr, Hp by apply Hat. by rewrite cast_int32_wrapped.
Qed.

Lemma readDouble_written_any (buf : list Byte.byte) (v : Z)
    (rest : list Byte.byte) (d : ProtocolDecoder.t) :
  at_rest buf (le_split 8 v ++ rest) d →
  ∃ d', readDouble d = Ok (cast_uint64 v) d' ∧ at_rest buf rest d'.
Proof.
  intros Hat. pose proof (at_rest_remaining _ _ _ Hat) as Hr.
  assert (8 <= vec_size (le_split 8 v ++ rest)) as Hl.
  { unfold vec_size. rewrite length_app, length_le_split. lia. }
  exists (skip 8 d). split.
  - rewrite readDouble_eq by apply Hat.
    destruct (Z.ltb_spec (remaining d) 8); [lia|].
    unfold peek_le.
    rewrite (at_rest_peek_n _ _ _ _ 8 (vec_size_le_split 8 v) Hat).
    by rewrite le_value_le_split.
  - exact (at_rest_skip_n _ _ _ _ 8 (vec_size_le_split 8 v) Hat).
Qed.

Ltac read_next lem :=
  match goal with
  | Hat : at_rest _ _ ?d |- context [(_ ≫= _) ?d] =>
      let d' := fresh "d" in
      let E := fresh "E" in
      let Hat' := fresh "Hat" in
      destruct (lem _ _ _ _ Hat) as (d' & E & Hat');
      rewrite bind_eq, E; cbv beta iota; clear E Hat
  end.

(** X4.  What the server encoders write, the decoder's own read
    functions read back, called in the order of the fields on the
    encoder's bytes: the tag, the session id and every field as
    written (numbers brought into the range of their type).  After the
    four header fields of a frame exactly the payload is left to read;
    after the fields of a state or error message nothing is. *)
Theorem server_messages_read_back (sessionId error : string)
    (textureData : list Byte.byte) (simulationTime time width height depth : Z)
    (e : ProtocolEncoder.t) :
  str_length sessionId < 2 ^ 32 → str_length error < 2 ^ 32 →
  vec_size textureData < 2 ^ 32 →
  (∃ d',
     (type ← decodeHeader; id ← readString; t ← readDouble;
      size ← readUInt32; mret (type, id, t, size))
       (ProtocolDecoder.new
          (getBuffer (encodeFrame sessionId textureData simulationTime e)))
     = Ok (SERVER_FRAME, sessionId, cast_uint64 simulationTime,
           vec_size textureData) d' ∧
     pending d' = textureData) ∧
  (type ← decodeHeader; id ← readString; t ← readFloat; w ← readInt32;
   h ← readInt32; d ← readInt32; mret (type, id, t, w, h, d))
    (ProtocolDecoder.new
       (getBuffer (encodeState sessionId time width height depth e)))
  = Ok (SERVER_STATE, sessionId, cast_uint32 time, cast_int32 width,
        cast_int32 height, cast_int32 depth)
      (finished (getBuffer (encodeState sessionId time width height depth e)))
  ∧
  (type ← decodeHeader; id ← readString; err ← readString;
   mret (type, id, err))
    (ProtocolDecoder.new (getBuffer (encodeError sessionId error e)))
  = Ok (SERVER_ERROR, sessionId, error)
      (finished (getBuffer (encodeError sessionId error e))).
Proof.
  intros Hid Herr Hdata.
  pose proof (vec_size_nonneg_bytes textureData) as Hn.
  assert (0 <= str_length sessionId ∧ 0 <= str_length error) as [? ?]
    by (unfold str_length; lia).
  split; [|split].
  - assert (at_rest
              (getBuffer (encodeFrame sessionId textureData simulationTime e))
              (getBuffer (encodeFrame sessionId textureData simulationTime e))
              (ProtocolDecoder.new
                 (getBuffer
                    (encodeFrame sessionId textureData simulationTime e))))
      as Hat.
    { apply at_rest_new. rewrite length_encodeFrame.
      unfold PTRDIFF_MAX. lia. }
    rewrite buffer_encodeFrame in Hat at 2.
    destruct (decodeHeader_written _ _ _ _ Hat) as (d1 & E1 & Hat1).
    rewrite bind_eq, E1. cbv beta iota. clear E1 Hat.
    destruct (readString_written _ _ _ _ Hid Hat1) as (d2 & E2 & Hat2).
    rewrite bind_eq, E2. cbv beta iota. clear E2 Hat1.
    read_next readDouble_written_any.
    assert (is_uint32 (cast_uint32 (vec_size textureData))) as Hu.
    { unfold is_uint32, cast_uint32. apply Z.mod_pos_bound. lia. }
    match goal with
    | Hat' : at_rest _ _ _ |- _ =>
        destruct (readUInt32_written _ _ _ _ Hu Hat') as (d4 & E4 & Hat4)
    end.
    rewrite bind_eq, E4. cbv beta iota.
    exists d4. split; [|apply Hat4].
    unfold cast_uint32. by rewrite Z.mod_small by lia.
  - assert (at_rest
              (getBuffer (encodeState sessionId time width height depth e))
              (getBuffer (encodeState sessionId time width height depth e))
              (ProtocolDecoder.new
                 (getBuffer
                    (encodeState sessionId time width height depth e))))
      as Hat.
    { apply at_rest_new. rewrite length_encodeState.
      unfold PTRDIFF_MAX. lia. }
    rewrite buffer_encodeState in Hat at 2.
    rewrite <- (app_nil_r (le_split 4 depth)) in Hat.
    destruct (decodeHeader_written _ _ _ _ Hat) as (d1 & E1 & Hat1).
    rewrite bind_eq, E1. cbv beta iota. clear E1 Hat.
    destruct (readString_written _ _ _ _ Hid Hat1) as (d2 & E2 & Hat2).
    rewrite bind_eq, E2. cbv beta iota. clear E2 Hat1.
    read_next readFloat_written_any.
    read_next readInt32_written_any.
    read_next readInt32_written_any.
    read_next readInt32_written_any.
    match goal with
    | H : at_rest _ [] _ |- _ => by rewrite (at_rest_finished _ _ H)
    end.
  - assert (at_rest (getBuffer (encodeError sessionId error e))
              (getBuffer (encodeError sessionId error e))
              (ProtocolDecoder.new (getBuffer (encodeError sessionId error e))))
      as Hat.
    { apply at_rest_new. rewrite length_encodeError.
      unfold PTRDIFF_MAX. lia. }
    rewrite buffer_encodeError in Hat at 2.
    rewrite <- (app_nil_r (String.list_byte_of_string error)) in Hat.
    destruct (decodeHeader_written _ _ _ _ Hat) as (d1 & E1 & Hat1).
    rewrite bind_eq, E1. cbv beta iota. clear E1 Hat.
    destruct (readString_written _ _ _ _ Hid Hat1) as (d2 & E2 & Hat2).
    rewrite bind_eq, E2. cbv beta iota. clear E2 Hat1.
    destruct (readString_written _ _ _ _ Herr Hat2) as (d3 & E3 & Hat3).
    rewrite bind_eq, E3. cbv beta iota.
    by rewrite (at_rest_finished _ _ Hat3).
Qed.

Lemma server_messages_read_back_witness :
  str_length "s1" < 2 ^ 32 ∧ str_length "no" < 2 ^ 32 ∧
  vec_size [Byte.x01] < 2 ^ 32 ∧
  (type ← decodeHeader; id ← readString; err ← readString;
   mret (type, id, err))
    (ProtocolDecoder.new
       (getBuffer (encodeError "s1" "no" ProtocolEncoder.new)))
  = Ok (SERVER_ERROR, "s1", "no")
      (finished (getBuffer (encodeError "s1" "no" ProtocolEncoder.new))).
Proof.
  assert (str_length "s1" < 2 ^ 32) as H1 by (vm_compute; reflexivity).
  assert (str_length "no" < 2 ^ 32) as H2 by (vm_compute; reflexivity).
  assert (vec_size [Byte.x01] < 2 ^ 32) as H3 by (vm_compute; reflexivity).
  split; [exact H1|]. split; [exact H2|]. split; [exact H3|].
  apply (server_messages_read_back "s1" "no" [Byte.x01] 0 0 0 0 0
           ProtocolEncoder.new H1 H2 H3).
Defined.

End wire_primitives.

(** * The decoder's cursor *)

Section decoder_cursor.
Import ProtocolDecoder DecoderView Cursor Wire.

Lemma advanced_refl (d : ProtocolDecoder.t) : wf d → advanced d d ∧ wf d.
Proof.
  intros Hwf. split; [|done]. destruct Hwf as (? & ? & ?).
  unfold advanced. repeat split; lia || done.
Qed.

Lemma advanced_skip (d : ProtocolDecoder.t) (n : Z) :
  wf d → 0 <= n <= remaining d → advanced d (skip n d) ∧ wf (skip n d).
Proof.
  intros Hwf Hn. split; [|by apply wf_skip].
  destruct Hwf as (? & ? & ?). unfold advanced, skip, remaining in *.
  simpl. repeat split; lia || done.
Qed.

Ltac inside :=
  simpl; eexists; (split; [reflexivity|]);
  first [by apply advanced_refl | apply advanced_skip; [done | lia]].

Ltac by_cases :=
  repeat match goal with
         | |- context [Z.ltb ?a ?b] => destruct (Z.ltb_spec a b)
         end.

(** X5.  On a decoder whose cursor is inside its buffer, each of the
    eight decoding functions returns or throws (it never reads outside
    the buffer), never changes the buffer or its size, and leaves the
    cursor where it was or further on, still inside the buffer. *)
Theorem decoder_stays_inside (d : ProtocolDecoder.t) :
  wf d →
  stays_inside decodeHeader d ∧ stays_inside readUInt32 d ∧
  stays_inside readInt32 d ∧ stays_inside readFloat d ∧
  stays_inside readDouble d ∧ stays_inside readString d ∧
  stays_inside decodeClientInput d ∧ stays_inside decodeClientControl d.
Proof.
  intros Hwf. unfold stays_inside.
  pose proof (peek_le_range d 4) as Hlen.
  rewrite decodeHeader_eq, readUInt32_eq, readInt32_eq, readFloat_eq,
    readDouble_eq, readString_eq, decodeClientInput_eq,
    decodeClientControl_eq by done.
  cbv zeta.
  repeat split; by_cases; inside.
Qed.

Lemma decoder_stays_inside_witness :
  wf (new Examples.truncated_input) ∧
  stays_inside decodeClientInput (new Examples.truncated_input).
Proof.
  assert (wf (new Examples.truncated_input)) as Hwf.
  { unfold wf. simpl. vm_compute. repeat split; discriminate. }
  split; [exact Hwf|].
  apply (decoder_stays_inside (new Examples.truncated_input) Hwf).
Defined.

Lemma peek_le_head (d : ProtocolDecoder.t) (body rest : list Byte.byte)
    (n : Z) :
  pending d = body ++ rest → 0 <= n <= vec_size body →
  peek_le n d = le_value (take (Z.to_nat n) body).
Proof.
  intros Hp Hn. unfold peek_le, peek_bytes. rewrite Hp.
  rewrite take_app_le; [done|]. unfold vec_size in Hn. lia.
Qed.

Lemma peek_le_body (d : ProtocolDecoder.t) (body rest : list Byte.byte)
    (k n : Z) :
  wf d → pending d = body ++ rest → 0 <= k → 0 <= n →
  k + n <= vec_size body →
  peek_le n (skip k d) =
  le_value (take (Z.to_nat n) (drop (Z.to_nat k) body)).
Proof.
  intros Hwf Hp Hk Hn Hkn. unfold peek_le, peek_bytes.
  rewrite pending_skip, Hp by (done || apply Hwf).
  unfold vec_size in Hkn.
  rewrite drop_app_le by lia.
  rewrite take_app_le; [done|]. rewrite length_drop. lia.
Qed.

(** X6.  [decodeClientInput] reads twenty bytes from the cursor, four
    little-endian floats and a little-endian [uint32], and
    [decodeClientControl] five, a byte and a little-endian float; bytes
    that follow are left unread and are not an error. *)
Theorem client_decoders_leave_trailing_bytes (pre body rest : list Byte.byte) :
  vec_size (pre ++ body ++ rest) <= PTRDIFF_MAX →
  (vec_size body = 20 →
   decodeClientInput (reading (pre ++ body ++ rest) (vec_size pre)) =
   Ok {| ci_x := le_value (take 4 body);
         ci_y := le_value (take 4 (drop 4 body));
         ci_z := le_value (take 4 (drop 8 body));
         ci_value := le_value (take 4 (drop 12 body));
         ci_timestamp := le_value (take 4 (drop 16 body)) |}
      (reading (pre ++ body ++ rest) (vec_size pre + 20))) ∧
  (vec_size body = 5 →
   decodeClientControl (reading (pre ++ body ++ rest) (vec_size pre)) =
   Ok {| cc_type := default Byte.x00 (head body);
         cc_parameter := le_value (take 4 (drop 1 body)) |}
      (reading (pre ++ body ++ rest) (vec_size pre + 5))).
Proof.
  intros Hs.
  pose proof (at_rest_reading pre (body ++ rest) Hs) as Hat.
  pose proof (at_rest_remaining _ _ _ Hat) as Hr.
  destruct Hat as (Hwf & _ & Hp).
  set (d := reading (pre ++ body ++ rest) (vec_size pre)) in *.
  assert (vec_size (body ++ rest) = vec_size body + vec_size rest) as Ha.
  { unfold vec_size. rewrite length_app. lia. }
  assert (0 <= vec_size rest) as Hrest by (unfold vec_size; lia).
  split; intros Hb.
  - rewrite decodeClientInput_eq by done.
    by_cases; try lia.
    rewrite (peek_le_head d body rest 4 Hp) by lia.
    rewrite (peek_le_body d body rest 4 4 Hwf Hp) by lia.
    rewrite (peek_le_body d body rest 8 4 Hwf Hp) by lia.
    rewrite (peek_le_body d body rest 12 4 Hwf Hp) by lia.
    rewrite (peek_le_body d body rest 16 4 Hwf Hp) by lia.
    reflexivity.
  - rewrite decodeClientControl_eq by done.
    by_cases; try lia.
    rewrite (peek_le_body d body rest 1 4 Hwf Hp) by lia.
    unfold peek_byte. rewrite Hp.
    destruct body as [|b body']; [unfold vec_size in Hb; simpl in Hb; lia|].
    reflexivity.
Qed.

Lemma client_decoders_leave_trailing_bytes_witness :
  vec_size ([CLIENT_INPUT] ++ Samples.input_body ++ [Byte.xff; Byte.xff])
    <= PTRDIFF_MAX ∧
  vec_size Samples.input_body = 20 ∧
  decodeClientInput
    (reading ([CLIENT_INPUT] ++ Samples.input_body ++ [Byte.xff; Byte.xff]) 1)
  = Ok Examples.input_message
      (reading ([CLIENT_INPUT] ++ Samples.input_body ++ [Byte.xff; Byte.xff])
         21).
Proof.
  assert (vec_size ([CLIENT_INPUT] ++ Samples.input_body
                      ++ [Byte.xff; Byte.xff]) <= PTRDIFF_MAX) as Hs.
  { vm_compute. discriminate. }
  split; [exact Hs|]. split; [reflexivity|].
  apply (client_decoders_leave_trailing_bytes [CLIENT_INPUT]
           Samples.input_body [Byte.xff; Byte.xff] Hs).
  reflexivity.
Defined.

End decoder_cursor.

(** * Compression, the solver's memory and the frame payload *)

Section memory.
Import Invariants.

(** X7.  With a size within the data, [compress] and [decompress]
    return the first [size] bytes of the data, and decompressing the
    compressed bytes with the same size returns them again. *)
Theorem compress_prefix (data : list Byte.byte) (size : Z) :
  0 <= size <= vec_size data →
  Compression.compress data size = take (Z.to_nat size) data ∧
  Compression.decompress data size = take (Z.to_nat size) data ∧
  Compression.decompress (Compression.compress data size) size
  = take (Z.to_nat size) data.
Proof.
  intros Hs.
  assert (∀ l : list Byte.byte,
            memcpy_at (replicate (Z.to_nat size) Byte.x00) 0 l (Z.to_nat size)
            = take (Z.to_nat size) l) as Hcopy.
  { intros l. unfold memcpy_at. simpl.
    rewrite drop_ge by (by rewrite length_replicate).
    by rewrite app_nil_r. }
  unfold Compression.compress, Compression.decompress.
  rewrite !Hcopy. split; [done|]. split; [done|].
  rewrite take_take. f_equal. lia.
Qed.

Lemma compress_prefix_witness :
  0 <= 2 <= vec_size [Byte.x01; Byte.x02; Byte.x03] ∧
  Compression.compress [Byte.x01; Byte.x02; Byte.x03] 2
  = [Byte.x01; Byte.x02].
Proof.
  assert (0 <= 2 <= vec_size [Byte.x01; Byte.x02; Byte.x03]) as H.
  { vm_compute. split; discriminate. }
  split; [exact H|].
  apply (compress_prefix [Byte.x01; Byte.x02; Byte.x03] 2 H).
Defined.

Lemma length_vacuum (cells : Z) :
  length (FreshSolver.vacuum cells) = (4 * Z.to_nat cells)%nat.
Proof.
  unfold FreshSolver.vacuum.
  induction (Z.to_nat cells) as [|n IH]; [done|].
  simpl. rewrite IH. lia.
Qed.

Lemma solver_initialize_state (junk : nat → nat → Byte.byte) (w h d : Z) :
  0 < w * h * d * 3 < 2 ^ 31 →
  FDTD3D.initialize true junk (FDTD3D.new w h d)
  = Some (FreshSolver.state junk w h d).
Proof.
  intros Hc.
  unfold FDTD3D.initialize, FreshSolver.state, FDTD3D.new.
  cbn [VulkanManager.initialize VulkanManager.new VulkanManager.initialized_
       FDTD3D.vulkanManager_ negb].
  cbv zeta.
  cbn [FDTD3D.width_ FDTD3D.height_ FDTD3D.depth_ FDTD3D.time_ FDTD3D.dt_
       FDTD3D.cellSize_ FDTD3D.vulkanManager_ FDTD3D.electricField_d_
       FDTD3D.electricFieldNext_d_ FDTD3D.magneticField_d_
       FDTD3D.magneticFieldNext_d_ FDTD3D.sourceField_d_
       FDTD3D.sourceFieldNext_d_ FDTD3D.materialField_d_
       FDTD3D.alphaBetaField_d_ FDTD3D.step_calls].
  unfold FDTD3D.textureSize, VulkanManager.updateAlphaBeta,
    FDTD3D.initializeMaterialField, FDTD3D.materialData.
  cbn [FDTD3D.width_ FDTD3D.height_ FDTD3D.depth_ FDTD3D.materialField_d_].
  rewrite (cast_size_t_id (w * h * d * 3)) by lia.
  rewrite (cast_size_t_id (w * h * d * 3 * 4)) by lia.
  rewrite (cast_size_t_id (w * h * d * 4)) by lia.
  rewrite (cast_size_t_id (w * h * d * 4 * 1)) by lia.
  rewrite (cast_size_t_id (w * h * d * 4 * 4)) by lia.
  replace (w * h * d * 4 / 4) with (w * h * d)
    by (symmetry; apply Z.div_mul; lia).
  replace (w * h * d * 3 * 4) with (w * h * d * 12) by lia.
  replace (w * h * d * 4 * 4) with (w * h * d * 16) by lia.
  fold (FreshSolver.vacuum (w * h * d)).
  assert (vec_size (FreshSolver.vacuum (w * h * d)) = w * h * d * 4) as Hv.
  { unfold vec_size. rewrite length_vacuum. lia. }
  rewrite Hv, (cast_size_t_id (w * h * d * 4 * 1)) by lia.
  unfold VulkanManager.copyToDevice.
  replace (Z.to_nat (w * h * d * 4 * 1))
    with (length (FreshSolver.vacuum (w * h * d)))
    by (rewrite length_vacuum; lia).
  rewrite memcpy_at_whole; [done|].
  pose proof (length_allocateBuffer (junk 6%nat) (w * h * d * 4 * 1)) as Ha.
  unfold vec_size in Ha. rewrite length_vacuum. lia.
Qed.

Lemma solver_exec_memory (op : SolverRun.Op) (s : FDTD3D.t) :
  FDTD3D.electricField_d_ (SolverRun.exec op s)
  = FDTD3D.electricFieldNext_d_ s ∧
  FDTD3D.electricFieldNext_d_ (SolverRun.exec op s)
  = FDTD3D.electricField_d_ s ∧
  FDTD3D.magneticField_d_ (SolverRun.exec op s)
  = FDTD3D.magneticFieldNext_d_ s ∧
  FDTD3D.magneticFieldNext_d_ (SolverRun.exec op s)
  = FDTD3D.magneticField_d_ s ∧
  FDTD3D.sourceField_d_ (SolverRun.exec op s)
  = FDTD3D.sourceFieldNext_d_ s ∧
  FDTD3D.sourceFieldNext_d_ (SolverRun.exec op s)
  = FDTD3D.sourceField_d_ s ∧
  FDTD3D.materialField_d_ (SolverRun.exec op s) = FDTD3D.materialField_d_ s ∧
  FDTD3D.alphaBetaField_d_ (SolverRun.exec op s)
  = FDTD3D.alphaBetaField_d_ s.
Proof. by destruct op. Qed.

(** X9.  [step] and [addSource] never write to the device memory: each
    exchanges the current and the next buffer of the electric, the
    magnetic and the source field.  After any sequence of them the
    current buffers are the original current ones when the number of
    calls is even and the original next ones when it is odd; the
    material and alpha-beta buffers are the original ones. *)
Theorem solver_run_exchanges_buffers (ops : list SolverRun.Op)
    (s : FDTD3D.t) :
  let s' := SolverRun.run ops s in
  let pick {A} (a b : A) := if Nat.even (length ops) then a else b in
  FDTD3D.electricField_d_ s'
  = pick (FDTD3D.electricField_d_ s) (FDTD3D.electricFieldNext_d_ s) ∧
  FDTD3D.electricFieldNext_d_ s'
  = pick (FDTD3D.electricFieldNext_d_ s) (FDTD3D.electricField_d_ s) ∧
  FDTD3D.magneticField_d_ s'
  = pick (FDTD3D.magneticField_d_ s) (FDTD3D.magneticFieldNext_d_ s) ∧
  FDTD3D.magneticFieldNext_d_ s'
  = pick (FDTD3D.magneticFieldNext_d_ s) (FDTD3D.magneticField_d_ s) ∧
  FDTD3D.sourceField_d_ s'
  = pick (FDTD3D.sourceField_d_ s) (FDTD3D.sourceFieldNext_d_ s) ∧
  FDTD3D.sourceFieldNext_d_ s'
  = pick (FDTD3D.sourceFieldNext_d_ s) (FDTD3D.sourceField_d_ s) ∧
  FDTD3D.materialField_d_ s' = FDTD3D.materialField_d_ s ∧
  FDTD3D.alphaBetaField_d_ s' = FDTD3D.alphaBetaField_d_ s.
Proof.
  cbv zeta. revert s.
  induction ops as [|op ops IH]; intros s; [done|].
  cbn [SolverRun.run length]. rewrite Nat.even_succ, <- Nat.negb_even.
  destruct (IH (SolverRun.exec op s))
    as (E1 & E2 & E3 & E4 & E5 & E6 & E7 & E8).
  destruct (solver_exec_memory op s)
    as (F1 & F2 & F3 & F4 & F5 & F6 & F7 & F8).
  rewrite E1, E2, E3, E4, E5, E6, E7, E8, F1, F2, F3, F4, F5, F6, F7, F8.
  by destruct (Nat.even (length ops)).
Qed.

Lemma float_bytes_of_bytes (b0 b1 b2 b3 : Byte.byte) :
  float_bytes (byte_val b0 + 2 ^ 8 * byte_val b1 + 2 ^ 16 * byte_val b2
               + 2 ^ 24 * byte_val b3) = [b0; b1; b2; b3].
Proof.
  pose proof (byte_val_range b0). pose proof (byte_val_range b1).
  pose proof (byte_val_range b2). pose proof (byte_val_range b3).
  unfold float_bytes.
  repeat f_equal; apply byte_val_inj; rewrite byte_val_cast_uint8;
    rewrite ?Z.shiftr_div_pow2 by lia;
    Z.div_mod_to_equations; lia.
Qed.

Lemma bytes_of_floats_of_bytes (n : nat) :
  ∀ bs : list Byte.byte,
    length bs = (4 * n)%nat → bytes_of_floats (floats_of_bytes bs) = bs.
Proof.
  induction n as [|n IH]; intros bs Hl.
  - by destruct bs.
  - destruct bs as [|b0 [|b1 [|b2 [|b3 rest]]]]; simpl in Hl; try lia.
    cbn [floats_of_bytes]. unfold bytes_of_floats in *.
    rewrite bind_cons, float_bytes_of_bytes, IH by lia. done.
Qed.

Lemma device_bytes (dev : list Byte.byte) (size : Z) :
  0 <= size → vec_size dev = size * 4 →
  bytes_of_floats (floats_of_bytes dev) = dev.
Proof.
  intros Hs Hl. apply (bytes_of_floats_of_bytes (Z.to_nat size)).
  unfold vec_size in Hl. lia.
Qed.

Lemma payload_device (buffer : list Byte.byte) (s : Session.t)
    (sim : FDTD3D.t) :
  Session.simulation_ s = Some sim → solver_wf sim →
  Session.hasNewFrame_ s = true →
  (Session.getFrameData buffer s).2
  = FDTD3D.electricField_d_ sim ++ FDTD3D.magneticField_d_ sim.
Proof.
  intros Hsim Hwf Hnf.
  rewrite (getFrameData_pending buffer s sim Hsim Hwf Hnf).
  cbn [snd].
  rewrite getElectricField_device, getMagneticField_device by done.
  destruct Hwf as (Hc & He & _ & Hm & _).
  rewrite (device_bytes _ _ (Z.lt_le_incl _ _ (proj1 Hc)) He).
  by rewrite (device_bytes _ _ (Z.lt_le_incl _ _ (proj1 Hc)) Hm).
Qed.

(** X10.  The payload [getFrameData] returns for a pending frame is the
    solver's device memory as it is: the bytes of the current electric
    field buffer followed by those of the current magnetic field
    buffer.  The caller's buffer plays no part. *)
Theorem frame_payload_is_device_memory (buffer : list Byte.byte)
    (s : Session.t) (sim : FDTD3D.t) :
  Session.simulation_ s = Some sim → solver_wf sim →
  Session.hasNewFrame_ s = true →
  (Session.getFrameData buffer s).2
  = FDTD3D.electricField_d_ sim ++ FDTD3D.magneticField_d_ sim.
Proof. apply payload_device. Qed.

Lemma frame_payload_is_device_memory_witness :
  Session.simulation_ Samples.stepped_session
  = Some Samples.stepped_solver ∧
  solver_wf Samples.stepped_solver ∧
  Session.hasNewFrame_ Samples.stepped_session = true ∧
  (Session.getFrameData [] Samples.stepped_session).2
  = FDTD3D.electricField_d_ Samples.stepped_solver
    ++ FDTD3D.magneticField_d_ Samples.stepped_solver.
Proof.
  assert (solver_wf Samples.stepped_solver) as Hwf
    by (vm_compute; repeat split; reflexivity).
  split; [reflexivity|]. split; [exact Hwf|]. split; [reflexivity|].
  apply (frame_payload_is_device_memory [] Samples.stepped_session
           Samples.stepped_solver eq_refl Hwf eq_refl).
Defined.

End memory.

(** * The registry: binding, unbinding and the sweep *)

Section registry_bindings.
Import Invariants Registry SessionManager.

Lemma solver_wf_fresh (junk : nat → nat → Byte.byte) (w h d : Z) :
  0 < w * h * d * 3 < 2 ^ 31 → solver_wf (FreshSolver.state junk w h d).
Proof.
  intros Hc. unfold solver_wf, FreshSolver.state.
  cbn [FDTD3D.width_ FDTD3D.height_ FDTD3D.depth_ FDTD3D.electricField_d_
       FDTD3D.electricFieldNext_d_ FDTD3D.magneticField_d_
       FDTD3D.magneticFieldNext_d_].
  rewrite !length_allocateBuffer by lia. repeat split; lia.
Qed.

Lemma session_initialize_state (junk : nat → nat → Byte.byte) (w h d : Z)
    (s0 : Session.t) :
  0 < w * h * d * 3 < 2 ^ 31 →
  ∃ s, Session.initialize true junk w h d s0 = Some s ∧
       Session.simulation_ s = Some (FreshSolver.state junk w h d) ∧
       Session.sessionId_ s = Session.sessionId_ s0 ∧
       Session.hasNewFrame_ s = Session.hasNewFrame_ s0 ∧
       Session.needsUpdate_ s = Session.needsUpdate_ s0 ∧
       Session.lastActivity_ s = Session.lastActivity_ s0.
Proof.
  intros Hc. unfold Session.initialize.
  rewrite solver_initialize_state by done.
  eexists. split; [reflexivity|]. done.
Qed.

Lemma createSession_state (env : Env) (ws : Z) (m : SessionManager.t) :
  env_vulkan_ok env = true →
  ∃ s, createSession env ws m =
       (Some (generateSessionId (env_draws env)),
        {| sessions_ :=
             <[generateSessionId (env_draws env) := s]> (sessions_ m);
           connectionToSession_ :=
             <[ws := generateSessionId (env_draws env)]>
               (connectionToSession_ m);
           sessionToConnection_ :=
             <[generateSessionId (env_draws env) := ws]>
               (sessionToConnection_ m) |}) ∧
       Session.simulation_ s
       = Some (FreshSolver.state (env_junk env) 128 128 128) ∧
       Session.sessionId_ s = generateSessionId (env_draws env) ∧
       Session.hasNewFrame_ s = false ∧ Session.needsUpdate_ s = true ∧
       Session.lastActivity_ s = env_now env.
Proof.
  intros Hok. unfold createSession. rewrite Hok.
  destruct (session_initialize_state (env_junk env) 128 128 128
              (Session.new (generateSessionId (env_draws env)) (env_now env))
              grid_128)
    as (s & E & Hsim & Hid & Hnf & Hnu & Hla).
  rewrite E. exists s. split; [reflexivity|]. done.
Qed.

Lemma cleanup_sessions_filter (now : Z) (m : SessionManager.t) :
  sessions_ (cleanupExpiredSessions now m)
  = filter (λ kv, Session.isExpired now kv.2 = false) (sessions_ m).
Proof.
  apply map_eq. intros id.
  rewrite (proj1 (cleanup_lookup now m)), map_lookup_filter.
  unfold expired_id.
  destruct (sessions_ m !! id) as [s|]; [|done]. simpl.
  destruct (Session.isExpired now s) eqn:E.
  - by rewrite option_guard_False by (simpl; congruence).
  - by rewrite option_guard_True.
Qed.

Lemma cleanup_reverse_filter (now : Z) (m : SessionManager.t) :
  sessionToConnection_ (cleanupExpiredSessions now m)
  = filter (λ kv, expired_id now (sessions_ m) kv.1 = false)
      (sessionToConnection_ m).
Proof.
  apply map_eq. intros id.
  rewrite (proj1 (proj2 (cleanup_lookup now m))), map_lookup_filter.
  destruct (sessionToConnection_ m !! id) as [ws|]; simpl.
  - destruct (expired_id now (sessions_ m) id) eqn:E.
    + by rewrite option_guard_False by (simpl; congruence).
    + by rewrite option_guard_True.
  - by destruct (expired_id now (sessions_ m) id).
Qed.

Lemma cleanup_connections_filter (now : Z) (m : SessionManager.t) :
  connectionToSession_ (cleanupExpiredSessions now m)
  = filter (λ kv, expired_id now (sessions_ m) kv.2 = false)
      (connectionToSession_ m).
Proof.
  apply map_eq. intros ws.
  rewrite (proj2 (proj2 (cleanup_lookup now m))), map_lookup_filter.
  destruct (connectionToSession_ m !! ws) as [id|]; [|done]. simpl.
  destruct (expired_id now (sessions_ m) id) eqn:E.
  - by rewrite option_guard_False by (simpl; congruence).
  - by rewrite option_guard_True.
Qed.

Lemma updateAll_keeps (now : Z) (m : SessionManager.t) (id : string)
    (s : Session.t) :
  sessions_ m !! id = Some s →
  Session.isExpired now (Session.update now s) = false →
  sessions_ (updateAll now m) !! id = Some (Session.update now s) ∧
  sessionToConnection_ (updateAll now m) !! id
  = sessionToConnection_ m !! id.
Proof.
  intros Hs He.
  destruct (updateAll_lookup now m) as (Hl & Ht & _). cbv zeta in *.
  rewrite Hl, Ht, (expired_id_update now m id s Hs), He, Hs. done.
Qed.

(** X15.  An input routed to an initialised session counts as activity:
    the session is still there after any later sweep that runs within
    the timeout of the input.  An input routed to a session without a
    solver, or to an id that is not in the registry, changes nothing,
    so it does not count as activity either. *)
Theorem input_keeps_session_alive (t now : Z) (id : string)
    (input : ClientInputMessage) (m : SessionManager.t) :
  (∀ s, sessions_ m !! id = Some s → initialized s = true →
        now - t <= Session.SESSION_TIMEOUT →
        is_Some (sessions_ (updateAll now (handleInput t id input m)) !! id)) ∧
  (∀ s, sessions_ m !! id = Some s → initialized s = false →
        handleInput t id input m = m) ∧
  (sessions_ m !! id = None → handleInput t id input m = m).
Proof.
  split; [|split].
  - intros s Hs Hi Ht.
    set (s' := Session.handleInput t (ci_x input) (ci_y input) (ci_z input)
                 (ci_value input) s).
    assert (sessions_ (handleInput t id input m) !! id = Some s') as Hs'.
    { unfold handleInput. rewrite Hs. cbn [sessions_].
      by rewrite lookup_insert_eq. }
    assert (Session.isExpired now (Session.update now s') = false) as He.
    { rewrite isExpired_update. apply andb_false_iff. left.
      unfold Session.isExpired, s', Session.handleInput.
      unfold initialized in Hi.
      destruct (Session.simulation_ s); [|done].
      cbn [Session.lastActivity_]. rewrite Z.gtb_ltb. apply Z.ltb_ge. lia. }
    destruct (updateAll_keeps now _ id s' Hs' He) as (-> & _). by eexists.
  - intros s Hs Hi. unfold handleInput. rewrite Hs.
    unfold Session.handleInput, initialized in *.
    destruct (Session.simulation_ s); [done|].
    rewrite insert_id by done. by destruct m.
  - intros Hs. unfold handleInput. by rewrite Hs.
Qed.

Lemma input_keeps_session_alive_witness :
  sessions_ Samples.small_registry !! "s" = Some Examples.small_session ∧
  initialized Examples.small_session = true ∧
  6 - 5 <= Session.SESSION_TIMEOUT ∧
  is_Some
    (sessions_
       (updateAll 6
          (handleInput 5 "s" Examples.input_message Samples.small_registry))
     !! "s").
Proof.
  assert (6 - 5 <= Session.SESSION_TIMEOUT) as Hle
    by (vm_compute; discriminate).
  split; [reflexivity|]. split; [reflexivity|]. split; [exact Hle|].
  destruct (input_keeps_session_alive 5 6 "s" Examples.input_message
              Samples.small_registry) as (H & _).
  exact (H Examples.small_session eq_refl eq_refl Hle).
Defined.

End registry_bindings.

(** * What the registry sends *)

Section traffic.
Import Invariants Registry SessionManager Traffic.

Lemma payload_nonempty (buffer : list Byte.byte) (s : Session.t)
    (sim : FDTD3D.t) :
  Session.simulation_ s = Some sim → solver_wf sim →
  Session.hasNewFrame_ s = true →
  (Session.getFrameData buffer s).2 ≠ [].
Proof.
  intros Hsim Hwf Hnf. rewrite (payload_device buffer s sim Hsim Hwf Hnf).
  destruct Hwf as (Hc & He & _). intros E.
  apply (f_equal length) in E. rewrite length_app in E.
  unfold vec_size in He. simpl in E. lia.
Qed.

Lemma broadcast_entry_sends (s2c : gmap string Z) (id : string)
    (s : Session.t) (sim : FDTD3D.t) (ws : Z) :
  Session.simulation_ s = Some sim → solver_wf sim →
  Session.hasNewFrame_ s = true → s2c !! id = Some ws →
  broadcast_entry s2c id s =
  (Session.markFrameSent (Session.getFrameData [] s).1,
   [(ws, frame_of id s)]).
Proof.
  intros Hsim Hwf Hnf Hws.
  pose proof (payload_nonempty [] s sim Hsim Hwf Hnf) as Hne.
  unfold broadcast_entry, Session.hasNewFrame, frame_of.
  rewrite Hnf, Hws. cbn [negb].
  destruct (Session.getFrameData [] s) as [s' payload].
  cbn [fst snd] in *. by destruct payload.
Qed.

Lemma broadcast_entry_silent (s2c : gmap string Z) (id : string)
    (s : Session.t) :
  Session.hasNewFrame_ s = false ∨ s2c !! id = None ∨ initialized s = false →
  broadcast_entry s2c id s = (s, []).
Proof.
  intros H. unfold broadcast_entry, Session.hasNewFrame.
  destruct (Session.hasNewFrame_ s) eqn:Hnf; [|done]. cbn [negb].
  destruct (s2c !! id) as [ws|] eqn:Hws; [|done].
  destruct H as [H|[H|H]]; [done|done|].
  by rewrite getFrameData_nothing by (by left).
Qed.

Lemma broadcast_entry_cases (s2c : gmap string Z) (id : string)
    (s : Session.t) :
  session_wf s →
  (∃ sim ws, Session.simulation_ s = Some sim ∧ solver_wf sim ∧
             Session.hasNewFrame_ s = true ∧ s2c !! id = Some ws ∧
             broadcast_entry s2c id s =
             (Session.markFrameSent (Session.getFrameData [] s).1,
              [(ws, frame_of id s)])) ∨
  ((Session.hasNewFrame_ s = false ∨ s2c !! id = None ∨
    initialized s = false) ∧
   broadcast_entry s2c id s = (s, [])).
Proof.
  intros Hwf. unfold session_wf in Hwf.
  destruct (Session.hasNewFrame_ s) eqn:Hnf;
    [|right; split; [by left|apply broadcast_entry_silent; by left]].
  destruct (s2c !! id) as [ws|] eqn:Hws;
    [|right; split;
      [by right; left|apply broadcast_entry_silent; by right; left]].
  destruct (Session.simulation_ s) as [sim|] eqn:Hsim.
  - left. exists sim, ws. do 4 (split; [done|]).
    by apply (broadcast_entry_sends s2c id s sim ws).
  - right. assert (initialized s = false) as Hi.
    { unfold initialized. by rewrite Hsim. }
    split; [by right; right|apply broadcast_entry_silent; by right; right].
Qed.

Lemma lookup_broadcastFrames (m : SessionManager.t) (id : string) :
  sessions_ (broadcastFrames m).1 !! id =
  (λ s, (broadcast_entry (sessionToConnection_ m) id s).1)
    <$> sessions_ m !! id.
Proof.
  unfold broadcastFrames. cbn [fst sessions_]. rewrite map_lookup_imap.
  by destruct (sessions_ m !! id).
Qed.

Lemma initialized_Some (s : Session.t) :
  initialized s = true → ∃ sim, Session.simulation_ s = Some sim.
Proof.
  unfold initialized. destruct (Session.simulation_ s); [by eexists|done].
Qed.

(** X16.  [broadcastFrames] sends a message to a connection exactly
    when the reverse map binds it to a session that is initialised and
    has a new frame, and the message is that session's frame: tag,
    session id, simulation time and the payload of [getFrameData]. *)
Theorem broadcast_sends_frames_to_owners (m : SessionManager.t) (ws : Z)
    (bytes : list Byte.byte) :
  all_wf m →
  (ws, bytes) ∈ (broadcastFrames m).2 ↔
  ∃ id s, sessions_ m !! id = Some s ∧ Session.hasNewFrame s = true ∧
          initialized s = true ∧ sessionToConnection_ m !! id = Some ws ∧
          bytes = frame_of id s.
Proof.
  intros Hall. unfold broadcastFrames. cbn [snd].
  rewrite list_elem_of_bind. split.
  - intros ([id s] & Hin & Hs). apply elem_of_map_to_list in Hs.
    cbn [fst snd] in Hin.
    destruct (broadcast_entry_cases (sessionToConnection_ m) id s
                (Hall id s Hs))
      as [(sim & ws' & Hsim & Hwf & Hnf & Hws & E)|(_ & E)];
      rewrite E in Hin; cbn [snd] in Hin.
    + apply list_elem_of_singleton in Hin. injection Hin as -> ->.
      exists id, s. repeat split; try done.
      unfold initialized. by rewrite Hsim.
    + by apply elem_of_nil in Hin.
  - intros (id & s & Hs & Hnf & Hi & Hws & ->).
    exists (id, s). split; [|by apply elem_of_map_to_list].
    destruct (initialized_Some s Hi) as (sim & Hsim).
    pose proof (Hall id s Hs) as Hwf. unfold session_wf in Hwf.
    rewrite Hsim in Hwf. cbn [fst snd].
    rewrite (broadcast_entry_sends _ id s sim ws Hsim Hwf Hnf Hws).
    by apply list_elem_of_singleton.
Qed.

Lemma all_wf_stepped : all_wf Samples.stepped_registry.
Proof.
  intros id s Hs. unfold Samples.stepped_registry in Hs. cbn [sessions_] in Hs.
  apply lookup_singleton_Some in Hs as [_ <-].
  vm_compute. repeat split; reflexivity.
Qed.

Lemma broadcast_sends_frames_to_owners_witness :
  all_wf Samples.stepped_registry ∧
  (7, frame_of "s" Samples.stepped_session)
  ∈ (broadcastFrames Samples.stepped_registry).2.
Proof.
  split; [exact all_wf_stepped|].
  apply (broadcast_sends_frames_to_owners Samples.stepped_registry 7
           (frame_of "s" Samples.stepped_session) all_wf_stepped).
  exists "s", Samples.stepped_session. repeat split; reflexivity.
Defined.

Lemma session_wf_sent (s : Session.t) :
  session_wf s →
  session_wf (Session.markFrameSent (Session.getFrameData [] s).1).
Proof.
  intros Hwf.
  apply (session_wf_exec SessionRun.MarkFrameSent).
  by apply (session_wf_exec SessionRun.GetFrameData).
Qed.

Lemma broadcast_entry_twice (s2c : gmap string Z) (id : string)
    (s : Session.t) :
  session_wf s →
  (broadcast_entry s2c id (broadcast_entry s2c id s).1).2 = [].
Proof.
  intros Hwf.
  destruct (broadcast_entry_cases s2c id s Hwf)
    as [(sim & ws' & Hsim & Hswf & Hnf & Hws & E)|(H & E)];
    rewrite E; cbn [fst].
  - rewrite broadcast_entry_silent; [done|]. by left.
  - by rewrite E.
Qed.

(** X17.  No frame is sent twice: a second [broadcastFrames] right
    after the first sends nothing. *)
Theorem broadcast_twice_sends_nothing (m : SessionManager.t) :
  all_wf m → (broadcastFrames (broadcastFrames m).1).2 = [].
Proof.
  intros Hall. apply elem_of_nil_inv. intros x Hx.
  unfold broadcastFrames at 1 in Hx. cbn [snd] in Hx.
  apply list_elem_of_bind in Hx as ([id s'] & Hin & Hs').
  apply elem_of_map_to_list in Hs'. rewrite lookup_broadcastFrames in Hs'.
  destruct (sessions_ m !! id) as [s|] eqn:Hs; [|done].
  injection Hs' as <-. cbn [fst snd] in Hin.
  change (sessionToConnection_ (broadcastFrames m).1)
    with (sessionToConnection_ m) in Hin.
  rewrite broadcast_entry_twice in Hin by (by eapply Hall).
  by apply elem_of_nil in Hin.
Qed.

Lemma broadcast_twice_sends_nothing_witness :
  all_wf Samples.stepped_registry ∧
  (broadcastFrames (broadcastFrames Samples.stepped_registry).1).2 = [].
Proof.
  split; [exact all_wf_stepped|].
  apply (broadcast_twice_sends_nothing Samples.stepped_registry
           all_wf_stepped).
Defined.

Lemma lookup_updateAll_Some (now : Z) (m : SessionManager.t) (id : string)
    (s' : Session.t) :
  sessions_ (updateAll now m) !! id = Some s' →
  ∃ s, sessions_ m !! id = Some s ∧ s' = Session.update now s ∧
       sessionToConnection_ (updateAll now m) !! id
       = sessionToConnection_ m !! id.
Proof.
  destruct (updateAll_lookup now m) as (Hl & Ht & _). cbv zeta in *.
  rewrite Hl, Ht.
  destruct (expired_id now (Session.update now <$> sessions_ m) id); [done|].
  destruct (sessions_ m !! id) as [s|]; [|done].
  intros [= <-]. by exists s.
Qed.

Lemma quiet_after_tick (now : Z) (m : SessionManager.t) :
  all_wf m → quiet (Server.simulation_tick now m).1.
Proof.
  intros Hall id s'' Hs''. unfold Server.simulation_tick in *.
  rewrite lookup_broadcastFrames in Hs''.
  destruct (sessions_ (updateAll now m) !! id) as [s'|] eqn:Hs'; [|done].
  injection Hs'' as <-.
  destruct (lookup_updateAll_Some now m id s' Hs') as (s & Hs & -> & _).
  assert (session_wf (Session.update now s)) as Hwf.
  { apply (session_wf_exec (SessionRun.Update now)). by eapply Hall. }
  pose proof (needsUpdate_update now s) as Hnu.
  change (sessionToConnection_ (broadcastFrames (updateAll now m)).1)
    with (sessionToConnection_ (updateAll now m)).
  destruct (broadcast_entry_cases (sessionToConnection_ (updateAll now m)) id
              (Session.update now s) Hwf)
    as [(sim & ws' & Hsim & Hswf & Hnf & Hws & E)|(H & E)];
    rewrite E; cbn [fst].
  - split; [by apply session_wf_sent|]. split; [|done].
    cbn [Session.markFrameSent Session.needsUpdate_].
    by rewrite needsUpdate_getFrameData.
  - split; [done|]. split; [done|]. intros Hnf.
    destruct H as [H|[H|H]]; [congruence|by right|by left].
Qed.

Lemma quiet_silent (m : SessionManager.t) (id : string) (s : Session.t) :
  quiet m → sessions_ m !! id = Some s →
  broadcast_entry (sessionToConnection_ m) id s = (s, []).
Proof.
  intros Hq Hs. destruct (Hq id s Hs) as (_ & _ & H).
  apply broadcast_entry_silent.
  destruct (Session.hasNewFrame_ s); [|by left].
  destruct (H eq_refl); [by right; right|by right; left].
Qed.

Lemma quiet_exec (op : Op) (m : SessionManager.t) :
  quiet m → is_create op = false → quiet (exec op m) ∧ sent op m = [].
Proof.
  intros Hq Hc. destruct op as [env ws|ws|now id0 input|id0 control|now|];
    [done| | | | |]; cbn [exec sent]; (split; [|try done]).
  - unfold removeSession.
    destruct (connectionToSession_ m !! ws) as [id0|]; [|done].
    intros id s Hs. cbn [sessions_ sessionToConnection_] in *.
    apply lookup_delete_Some in Hs as [Hne Hs].
    rewrite lookup_delete_ne by done. by apply Hq.
  - unfold handleInput.
    destruct (sessions_ m !! id0) as [s0|] eqn:Hs0; [|done].
    intros id s Hs. cbn [sessions_ sessionToConnection_] in *.
    destruct (decide (id0 = id)) as [<-|Hne].
    + rewrite lookup_insert_eq in Hs. injection Hs as <-.
      destruct (Hq id0 s0 Hs0) as (Hwf & Hnu & Hnf).
      split; [|split].
      * by apply (session_wf_exec
                    (SessionRun.HandleInput now (ci_x input) (ci_y input)
                       (ci_z input) (ci_value input))).
      * by rewrite needsUpdate_handleInput.
      * pose proof (initialized_exec
                      (SessionRun.HandleInput now (ci_x input) (ci_y input)
                         (ci_z input) (ci_value input)) s0) as Hi.
        cbn [SessionRun.exec] in Hi. rewrite Hi.
        intros H. apply Hnf. revert H. unfold Session.handleInput.
        by destruct (Session.simulation_ s0).
    + rewrite lookup_insert_ne in Hs by done. by apply Hq.
  - by rewrite handleControl_id.
  - intros id s' Hs'.
    destruct (lookup_updateAll_Some now m id s' Hs') as (s & Hs & -> & ->).
    destruct (Hq id s Hs) as (Hwf & Hnu & Hnf).
    by rewrite update_clear.
  - intros id s' Hs'. rewrite lookup_broadcastFrames in Hs'.
    destruct (sessions_ m !! id) as [s|] eqn:Hs; [|done].
    injection Hs' as <-. rewrite (quiet_silent m id s Hq Hs). cbn [fst].
    by apply Hq.
  - apply elem_of_nil_inv. intros x Hx.
    unfold broadcastFrames in Hx. cbn [snd] in Hx.
    apply list_elem_of_bind in Hx as ([id s] & Hin & Hs).
    apply elem_of_map_to_list in Hs. cbn [fst snd] in Hin.
    rewrite (quiet_silent m id s Hq Hs) in Hin.
    by apply elem_of_nil in Hin.
Qed.

Lemma quiet_run_sent (ops : list Op) :
  ∀ m, quiet m → forallb (λ op, negb (is_create op)) ops = true →
       run_sent ops m = [].
Proof.
  induction ops as [|op ops IH]; intros m Hq Hops; [done|].
  cbn [forallb] in Hops. apply andb_true_iff in Hops as [Hop Hops].
  apply negb_true_iff in Hop.
  destruct (quiet_exec op m Hq Hop) as (Hq' & E).
  cbn [run_sent]. rewrite E. cbn [app]. by apply IH.
Qed.

(** X18.  A session gets one frame: once the simulation loop has gone
    round once ([updateAll], then [broadcastFrames]), whatever follows
    on the sessions that exist then (inputs, control messages,
    disconnects, further updates and broadcasts, in any order) sends
    nothing. *)
Theorem nothing_sent_after_first_tick (now : Z) (ops : list Op)
    (m : SessionManager.t) :
  all_wf m → forallb (λ op, negb (is_create op)) ops = true →
  run_sent ops (Server.simulation_tick now m).1 = [].
Proof.
  intros Hall Hops. apply quiet_run_sent; [|done].
  by apply quiet_after_tick.
Qed.

Lemma all_wf_small : all_wf Samples.small_registry.
Proof.
  intros id s Hs. unfold Samples.small_registry in Hs. cbn [sessions_] in Hs.
  apply lookup_singleton_Some in Hs as [_ <-].
  vm_compute. repeat split; reflexivity.
Qed.

Lemma nothing_sent_after_first_tick_witness :
  all_wf Samples.small_registry ∧
  run_sent [HandleInput 6 "s" Examples.input_message; UpdateAll 7;
            BroadcastFrames]
    (Server.simulation_tick 5 Samples.small_registry).1 = [].
Proof.
  split; [exact all_wf_small|].
  apply (nothing_sent_after_first_tick 5
           [HandleInput 6 "s" Examples.input_message; UpdateAll 7;
            BroadcastFrames] Samples.small_registry all_wf_small).
  reflexivity.
Defined.

Lemma all_wf_exec (op : Op) (m : SessionManager.t) :
  all_wf m → all_wf (exec op m).
Proof.
  intros Hall. destruct op as [env ws|ws|now id0 input|id0 control|now|];
    cbn [exec].
  - destruct (env_vulkan_ok env) eqn:Hok.
    + destruct (createSession_state env ws m Hok) as (s & E & Hsim & _).
      rewrite E. cbn [snd]. intros id s' Hs'. cbn [sessions_] in Hs'.
      destruct (decide (generateSessionId (env_draws env) = id)) as [<-|Hne].
      * rewrite lookup_insert_eq in Hs'. injection Hs' as <-.
        unfold session_wf. rewrite Hsim. apply solver_wf_fresh, grid_128.
      * rewrite lookup_insert_ne in Hs' by done. by eapply Hall.
    + by rewrite createSession_fails.
  - unfold removeSession.
    destruct (connectionToSession_ m !! ws) as [id0|]; [|done].
    intros id s Hs. cbn [sessions_] in Hs.
    apply lookup_delete_Some in Hs as [_ Hs]. by eapply Hall.
  - unfold handleInput.
    destruct (sessions_ m !! id0) as [s0|] eqn:Hs0; [|done].
    intros id s Hs. cbn [sessions_] in Hs.
    destruct (decide (id0 = id)) as [<-|Hne].
    + rewrite lookup_insert_eq in Hs. injection Hs as <-.
      apply (session_wf_exec
               (SessionRun.HandleInput now (ci_x input) (ci_y input)
                  (ci_z input) (ci_value input))).
      by eapply Hall.
    + rewrite lookup_insert_ne in Hs by done. by eapply Hall.
  - by rewrite handleControl_id.
  - intros id s' Hs'.
    destruct (lookup_updateAll_Some now m id s' Hs') as (s & Hs & -> & _).
    apply (session_wf_exec (SessionRun.Update now)). by eapply Hall.
  - intros id s' Hs'. rewrite lookup_broadcastFrames in Hs'.
    destruct (sessions_ m !! id) as [s|] eqn:Hs; [|done].
    injection Hs' as <-.
    pose proof (Hall id s Hs) as Hwf.
    destruct (broadcast_entry_cases (sessionToConnection_ m) id s Hwf)
      as [(sim & ws' & _ & _ & _ & _ & E)|(_ & E)]; rewrite E; cbn [fst].
    + by apply session_wf_sent.
    + done.
Qed.

(** X19.  In every registry that any sequence of operations builds from
    the empty one, every session is well formed: a session with a
    solver has a grid of at least one cell and field buffers of twelve
    bytes per cell. *)
Theorem reachable_sessions_well_formed (ops : list Op) :
  all_wf (run ops new).
Proof.
  assert (∀ m, all_wf m → all_wf (run ops m)) as H.
  { induction ops as [|op ops IH]; intros m Hm; [done|].
    cbn [run]. by apply IH, all_wf_exec. }
  apply H. intros id s Hs. unfold new in Hs. cbn [sessions_] in Hs.
  by rewrite lookup_empty in Hs.
Qed.

Lemma update_steps (now : Z) (s : Session.t) (sim : FDTD3D.t) :
  Session.simulation_ s = Some sim → Session.needsUpdate_ s = true →
  Session.update now s =
  {| Session.sessionId_ := Session.sessionId_ s;
     Session.simulation_ := Some (FDTD3D.step sim);
     Session.hasNewFrame_ := true; Session.needsUpdate_ := false;
     Session.lastActivity_ := now;
     Session.electricFieldBuffer_ := Session.electricFieldBuffer_ s;
     Session.magneticFieldBuffer_ := Session.magneticFieldBuffer_ s |}.
Proof.
  intros Hsim Hnu. unfold Session.update, Session.step.
  by rewrite Hnu, Hsim.
Qed.

Lemma tick_sends_next_buffers (now : Z) (m : SessionManager.t) (id : string)
    (s : Session.t) (sim : FDTD3D.t) (ws : Z) :
  sessions_ m !! id = Some s → Session.simulation_ s = Some sim →
  solver_wf sim → Session.needsUpdate_ s = true →
  sessionToConnection_ m !! id = Some ws →
  (ws, ProtocolEncoder.getBuffer
         (ProtocolEncoder.encodeFrame id
            (FDTD3D.electricFieldNext_d_ sim
               ++ FDTD3D.magneticFieldNext_d_ sim)
            (Double.add (FDTD3D.time_ sim) (FDTD3D.dt_ sim))
            ProtocolEncoder.new))
  ∈ (Server.simulation_tick now m).2.
Proof.
  intros Hs Hsim Hwf Hnu Hws.
  pose proof (update_steps now s sim Hsim Hnu) as Eu.
  assert (Session.isExpired now (Session.update now s) = false) as He.
  { rewrite Eu. unfold Session.isExpired. cbn [Session.lastActivity_].
    by rewrite Z.sub_diag. }
  destruct (updateAll_keeps now m id s Hs He) as (Hs2 & Hc2).
  rewrite Hws in Hc2.
  assert (Session.simulation_ (Session.update now s)
          = Some (FDTD3D.step sim)) as Hsim2 by (by rewrite Eu).
  assert (Session.hasNewFrame_ (Session.update now s) = true) as Hnf2
    by (by rewrite Eu).
  pose proof (solver_wf_step sim Hwf) as Hwf2.
  unfold Server.simulation_tick, broadcastFrames. cbn [snd].
  apply list_elem_of_bind. exists (id, Session.update now s).
  split; [|by apply elem_of_map_to_list]. cbn [fst snd].
  rewrite (broadcast_entry_sends _ id _ _ ws Hsim2 Hwf2 Hnf2 Hc2).
  apply list_elem_of_singleton. f_equal. unfold frame_of.
  rewrite (payload_device [] _ _ Hsim2 Hwf2 Hnf2).
  unfold Session.getSimulationTime.
  by rewrite simulation_getFrameData, Hsim2.
Qed.

Lemma fresh_state_fields (junk : nat → nat → Byte.byte) (w h d : Z) :
  FDTD3D.electricFieldNext_d_ (FreshSolver.state junk w h d)
  = VulkanManager.allocateBuffer (junk 1%nat) (w * h * d * 12) ∧
  FDTD3D.magneticFieldNext_d_ (FreshSolver.state junk w h d)
  = VulkanManager.allocateBuffer (junk 3%nat) (w * h * d * 12) ∧
  FDTD3D.time_ (FreshSolver.state junk w h d) = 0 ∧
  FDTD3D.dt_ (FreshSolver.state junk w h d) = 0x3F50624DD2F1A9FC.
Proof. done. Qed.

Lemma first_step_time :
  Double.add 0 0x3F50624DD2F1A9FC = 0x3F50624DD2F1A9FC.
Proof. vm_compute. reflexivity. Qed.

(** X20.  The frame a new connection gets from the first round of the
    simulation loop carries memory nobody wrote: its payload is the
    content the second and the fourth allocation of the solver happened
    to have (the two "next" buffers), 12 bytes per cell each, under the
    simulation time 0.001. *)
Theorem first_frame_is_unwritten_memory (env : Env) (ws : Z)
    (m : SessionManager.t) (now : Z) :
  env_vulkan_ok env = true →
  let size := 128 * 128 * 128 * 12 in
  (ws, ProtocolEncoder.getBuffer
         (ProtocolEncoder.encodeFrame (generateSessionId (env_draws env))
            (VulkanManager.allocateBuffer (env_junk env 1%nat) size
               ++ VulkanManager.allocateBuffer (env_junk env 3%nat) size)
            0x3F50624DD2F1A9FC ProtocolEncoder.new))
  ∈ (Server.simulation_tick now (createSession env ws m).2).2.
Proof.
  intros Hok size.
  destruct (createSession_state env ws m Hok)
    as (s & E & Hsim & Hid & Hnf & Hnu & Hla).
  rewrite E. cbn [snd]. subst size.
  set (m' := {| sessions_ := _; connectionToSession_ := _;
                sessionToConnection_ := _ |}).
  assert (sessions_ m' !! generateSessionId (env_draws env) = Some s) as Hs.
  { unfold m'. cbn [sessions_]. by rewrite lookup_insert_eq. }
  assert (sessionToConnection_ m' !! generateSessionId (env_draws env)
          = Some ws) as Hws.
  { unfold m'. cbn [sessionToConnection_]. by rewrite lookup_insert_eq. }
  pose proof (tick_sends_next_buffers now m' _ s _ ws Hs Hsim
                (solver_wf_fresh (env_junk env) 128 128 128 grid_128)
                Hnu Hws) as H.
  destruct (fresh_state_fields (env_junk env) 128 128 128)
    as (E1 & E3 & Et & Edt).
  rewrite E1, E3, Et, Edt, first_step_time in H. exact H.
Qed.

Lemma first_frame_is_unwritten_memory_witness :
  env_vulkan_ok Examples.env_a = true ∧
  (7, ProtocolEncoder.getBuffer
        (ProtocolEncoder.encodeFrame
           (generateSessionId (env_draws Examples.env_a))
           (VulkanManager.allocateBuffer (env_junk Examples.env_a 1%nat)
              (128 * 128 * 128 * 12)
            ++ VulkanManager.allocateBuffer (env_junk Examples.env_a 3%nat)
                 (128 * 128 * 128 * 12))
           0x3F50624DD2F1A9FC ProtocolEncoder.new))
  ∈ (Server.simulation_tick 5 (createSession Examples.env_a 7 new).2).2.
Proof.
  split; [reflexivity|].
  apply (first_frame_is_unwritten_memory Examples.env_a 7 new 5).
  reflexivity.
Defined.

End traffic.

(** * The message handler *)

Section handler.
Import ProtocolDecoder DecoderView Invariants Registry SessionManager.

Lemma after_header (t : Byte.byte) (payload : list Byte.byte) :
  vec_size (t :: payload) <= PTRDIFF_MAX →
  wf (skip 1 (ProtocolDecoder.new (t :: payload))) ∧
  remaining (skip 1 (ProtocolDecoder.new (t :: payload)))
  = vec_size payload ∧
  decodeHeader (ProtocolDecoder.new (t :: payload))
  = Ok t (skip 1 (ProtocolDecoder.new (t :: payload))).
Proof.
  intros Hs. pose proof (wf_new _ Hs) as Hwf.
  pose proof (vec_size_nonneg_bytes payload) as Hp.
  rewrite vec_size_tagged in Hs.
  assert (remaining (ProtocolDecoder.new (t :: payload))
          = 1 + vec_size payload) as Hr.
  { unfold remaining, ProtocolDecoder.new. cbn [size_ offset_].
    rewrite vec_size_tagged. lia. }
  split; [apply wf_skip; [done|lia]|].
  split; [rewrite remaining_skip; lia|].
  rewrite decodeHeader_eq, Hr by done.
  destruct (Z.ltb_spec (1 + vec_size payload) 1); [lia|done].
Qed.

Ltac by_size :=
  repeat match goal with
         | |- context [Z.ltb ?a ?b] => destruct (Z.ltb_spec a b)
         end;
  try lia.

Lemma handleWebSocket_eq (now ws : Z) (message : list Byte.byte)
    (opCode : Server.OpCode) (m : SessionManager.t) :
  vec_size message <= PTRDIFF_MAX →
  Server.handleWebSocket now ws message opCode m =
  match message with
  | [] =>
      Server.Returned m
        [Server.HandlingError "Invalid message: not enough data"]
  | t :: payload =>
      if Byte.eqb t CLIENT_INPUT then
        if vec_size payload <? 16 then
          Server.Returned m
            [Server.HandlingError
               "Invalid message: not enough data for float"]
        else if vec_size payload <? 20 then
          Server.Returned m
            [Server.HandlingError
               "Invalid message: not enough data for uint32"]
        else
          match getSessionId ws m with
          | Some sessionId =>
              Server.Returned
                (handleInput now sessionId
                   {| ci_x := le_value (take 4 payload);
                      ci_y := le_value (take 4 (drop 4 payload));
                      ci_z := le_value (take 4 (drop 8 payload));
                      ci_value := le_value (take 4 (drop 12 payload));
                      ci_timestamp := le_value (take 4 (drop 16 payload)) |}
                   m) []
          | None => Server.Returned m []
          end
      else if Byte.eqb t CLIENT_CONTROL then
        if vec_size payload <? 1 then
          Server.Returned m
            [Server.HandlingError
               "Invalid message: not enough data for control"]
        else if vec_size payload <? 5 then
          Server.Returned m
            [Server.HandlingError
               "Invalid message: not enough data for float"]
        else Server.Returned m []
      else Server.Returned m [Server.UnknownMessageType t]
  end.
Proof.
  intros Hs. unfold Server.handleWebSocket. cbv zeta.
  destruct message as [|t payload].
  - by rewrite decodeHeader_eq by (by apply wf_new).
  - destruct (after_header t payload Hs) as (Hwf & Hr & ->).
    pose proof (vec_size_nonneg_bytes payload) as Hn.
    destruct (Byte.eqb t CLIENT_INPUT).
    + rewrite decodeClientInput_eq, Hr by done. by_size; done.
    + destruct (Byte.eqb t CLIENT_CONTROL); [|done].
      rewrite decodeClientControl_eq, Hr by done. by_size; try done.
      destruct (getSessionId ws m); [|done].
      by rewrite handleControl_id.
Qed.

(** X21.  What the handler of binary messages does with any message,
    byte for byte: an empty or truncated message is logged with the
    decoder's error and dropped; a message with another tag than
    [ClientInput] and [ClientControl] is logged and dropped; a complete
    control message changes nothing; a complete input message, with or
    without bytes behind its twenty, is routed to the session of the
    connection, if it has one.  The handler always returns: no
    exception leaves it and it reads nothing outside the message. *)
Theorem handleWebSocket_behaviour (now ws : Z) (message : list Byte.byte)
    (opCode : Server.OpCode) (m : SessionManager.t) :
  vec_size message <= PTRDIFF_MAX →
  Server.handleWebSocket now ws message opCode m =
  match message with
  | [] =>
      Server.Returned m
        [Server.HandlingError "Invalid message: not enough data"]
  | t :: payload =>
      if Byte.eqb t CLIENT_INPUT then
        if vec_size payload <? 16 then
          Server.Returned m
            [Server.HandlingError
               "Invalid message: not enough data for float"]
        else if vec_size payload <? 20 then
          Server.Returned m
            [Server.HandlingError
               "Invalid message: not enough data for uint32"]
        else
          match getSessionId ws m with
          | Some sessionId =>
              Server.Returned
                (handleInput now sessionId
                   {| ci_x := le_value (take 4 payload);
                      ci_y := le_value (take 4 (drop 4 payload));
                      ci_z := le_value (take 4 (drop 8 payload));
                      ci_value := le_value (take 4 (drop 12 payload));
                      ci_timestamp := le_value (take 4 (drop 16 payload)) |}
                   m) []
          | None => Server.Returned m []
          end
      else if Byte.eqb t CLIENT_CONTROL then
        if vec_size payload <? 1 then
          Server.Returned m
            [Server.HandlingError
               "Invalid message: not enough data for control"]
        else if vec_size payload <? 5 then
          Server.Returned m
            [Server.HandlingError
               "Invalid message: not enough data for float"]
        else Server.Returned m []
      else Server.Returned m [Server.UnknownMessageType t]
  end.
Proof. apply handleWebSocket_eq. Qed.

Lemma handleWebSocket_behaviour_witness :
  vec_size [SERVER_FRAME; Byte.x00] <= PTRDIFF_MAX ∧
  Server.handleWebSocket 5 7 [SERVER_FRAME; Byte.x00] Server.BINARY
    Samples.small_registry
  = Server.Returned Samples.small_registry
      [Server.UnknownMessageType SERVER_FRAME].
Proof.
  assert (vec_size [SERVER_FRAME; Byte.x00] <= PTRDIFF_MAX) as H.
  { vm_compute. discriminate. }
  split; [exact H|].
  apply (handleWebSocket_behaviour 5 7 [SERVER_FRAME; Byte.x00]
           Server.BINARY Samples.small_registry H).
Defined.

Lemma on_message_cases (now ws : Z) (message : list Byte.byte)
    (opCode : Server.OpCode) (m : SessionManager.t) :
  vec_size message <= PTRDIFF_MAX →
  (∃ log, Server.on_message now ws message opCode m = Server.Returned m log)
  ∨ (∃ id input,
       getSessionId ws m = Some id ∧
       Server.on_message now ws message opCode m
       = Server.Returned (handleInput now id input m) []).
Proof.
  intros Hs. unfold Server.on_message.
  destruct opCode; try (left; eexists; reflexivity).
  rewrite handleWebSocket_eq by done.
  destruct message as [|t payload]; [left; by eexists|].
  destruct (Byte.eqb t CLIENT_INPUT).
  - do 2 (destruct (_ <? _); [left; by eexists|]).
    destruct (getSessionId ws m) as [id|]; [|left; by eexists].
    right. by eexists _, _.
  - destruct (Byte.eqb t CLIENT_CONTROL); [|left; by eexists].
    do 2 (destruct (_ <? _); [left; by eexists|]). left. by eexists.
Qed.

(** X22.  A message touches at most the session of the connection it
    came on: whatever the message, the handler returns, the two
    connection maps are as before, the registry holds the same session
    ids, every session other than the one bound to the connection is
    as before, and the invariant of the registry is kept. *)
Theorem message_touches_own_session_only (now ws : Z)
    (message : list Byte.byte) (opCode : Server.OpCode)
    (m : SessionManager.t) :
  vec_size message <= PTRDIFF_MAX →
  ∃ m' log,
    Server.on_message now ws message opCode m = Server.Returned m' log ∧
    connectionToSession_ m' = connectionToSession_ m ∧
    sessionToConnection_ m' = sessionToConnection_ m ∧
    (∀ id, is_Some (sessions_ m' !! id) ↔ is_Some (sessions_ m !! id)) ∧
    (∀ id, getSessionId ws m ≠ Some id →
           sessions_ m' !! id = sessions_ m !! id) ∧
    (inv m → inv m').
Proof.
  intros Hs.
  destruct (on_message_cases now ws message opCode m Hs)
    as [(log & ->)|(id0 & input & Hid & ->)].
  - exists m, log. done.
  - eexists _, _. split; [reflexivity|].
    unfold handleInput.
    destruct (sessions_ m !! id0) as [s|] eqn:Hs0; [|done].
    cbn [sessions_ connectionToSession_ sessionToConnection_].
    split; [done|]. split; [done|]. split; [|split].
    + intros id. destruct (decide (id0 = id)) as [<-|Hne].
      * rewrite lookup_insert_eq, Hs0. split; intros _; by eexists.
      * by rewrite lookup_insert_ne.
    + intros id Hne. rewrite lookup_insert_ne; [done|]. congruence.
    + intros Hinv.
      pose proof (inv_handleInput now id0 input m Hinv) as H.
      unfold handleInput in H. by rewrite Hs0 in H.
Qed.

Lemma message_touches_own_session_only_witness :
  vec_size (CLIENT_INPUT :: Samples.input_body) <= PTRDIFF_MAX ∧
  ∃ m' log,
    Server.on_message 5 7 (CLIENT_INPUT :: Samples.input_body) Server.BINARY
      Samples.small_registry = Server.Returned m' log ∧
    connectionToSession_ m' = connectionToSession_ Samples.small_registry.
Proof.
  assert (vec_size (CLIENT_INPUT :: Samples.input_body) <= PTRDIFF_MAX) as H.
  { vm_compute. discriminate. }
  split; [exact H|].
  destruct (message_touches_own_session_only 5 7
              (CLIENT_INPUT :: Samples.input_body) Server.BINARY
              Samples.small_registry H) as (m' & log & E & Hc & _).
  by exists m', log.
Defined.

(** X23.  A complete input message on a connection whose session has a
    solver reaches the solver: the session afterwards is the session
    before with [addSource] applied to the four floats of the message,
    read little-endian from its bytes 1 to 16, and with the time of
    the call as its last activity; the handler returns.  The timestamp
    of the message and any bytes behind it have no effect.  What is
    written to the log on the way is not part of the statement. *)
Theorem input_message_reaches_solver (now ws : Z)
    (payload : list Byte.byte) (m : SessionManager.t) (id : string)
    (s : Session.t) (sim : FDTD3D.t) :
  vec_size (CLIENT_INPUT :: payload) <= PTRDIFF_MAX →
  20 <= vec_size payload →
  getSessionId ws m = Some id → sessions_ m !! id = Some s →
  Session.simulation_ s = Some sim →
  ∃ m' log,
    Server.on_message now ws (CLIENT_INPUT :: payload) Server.BINARY m
    = Server.Returned m' log ∧
    sessions_ m' !! id =
    Some {| Session.sessionId_ := Session.sessionId_ s;
            Session.simulation_ :=
              Some (FDTD3D.addSource
                      (le_value (take 4 payload))
                      (le_value (take 4 (drop 4 payload)))
                      (le_value (take 4 (drop 8 payload)))
                      (le_value (take 4 (drop 12 payload))) sim);
            Session.hasNewFrame_ := Session.hasNewFrame_ s;
            Session.needsUpdate_ := Session.needsUpdate_ s;
            Session.lastActivity_ := now;
            Session.electricFieldBuffer_ := Session.electricFieldBuffer_ s;
            Session.magneticFieldBuffer_ := Session.magneticFieldBuffer_ s |}.
Proof.
  intros Hs Hp Hid Hses Hsim. unfold Server.on_message.
  rewrite handleWebSocket_eq by done.
  change (Byte.eqb CLIENT_INPUT CLIENT_INPUT) with true. cbv iota.
  destruct (Z.ltb_spec (vec_size payload) 16); [lia|].
  destruct (Z.ltb_spec (vec_size payload) 20); [lia|].
  rewrite Hid. eexists. eexists. split; [reflexivity|].
  unfold handleInput. rewrite Hses. cbn [sessions_].
  rewrite lookup_insert_eq. unfold Session.handleInput. by rewrite Hsim.
Qed.

Lemma input_message_reaches_solver_witness :
  vec_size (CLIENT_INPUT :: Samples.input_body) <= PTRDIFF_MAX ∧
  20 <= vec_size Samples.input_body ∧
  ∃ m' log,
    Server.on_message 9 7 (CLIENT_INPUT :: Samples.input_body) Server.BINARY
      Samples.stepped_registry = Server.Returned m' log ∧
    Session.lastActivity_ <$> sessions_ m' !! "s" = Some 9.
Proof.
  assert (vec_size (CLIENT_INPUT :: Samples.input_body) <= PTRDIFF_MAX) as H.
  { vm_compute. discriminate. }
  assert (20 <= vec_size Samples.input_body) as H20.
  { vm_compute. discriminate. }
  split; [exact H|]. split; [exact H20|].
  destruct (input_message_reaches_solver 9 7 Samples.input_body
              Samples.stepped_registry "s" Samples.stepped_session
              Samples.stepped_solver H H20 eq_refl eq_refl eq_refl)
    as (m' & log & E & Hs).
  exists m', log. split; [exact E|]. by rewrite Hs.
Defined.

End handler.

(** * Session ids *)

Section session_ids.
Import SessionManager.

Lemma hex_digit_single (v : Z) :
  0 <= v <= 15 → ∃ c, hex_digit v = String c EmptyString.
Proof.
  intros Hv.
  assert (v = 0 ∨ v = 1 ∨ v = 2 ∨ v = 3 ∨ v = 4 ∨ v = 5 ∨ v = 6 ∨ v = 7 ∨
          v = 8 ∨ v = 9 ∨ v = 10 ∨ v = 11 ∨ v = 12 ∨ v = 13 ∨ v = 14 ∨
          v = 15) as H by lia.
  repeat destruct H as [->|H]; try subst v; by eexists.
Qed.

Lemma hex_digit_inj (v v' : Z) :
  0 <= v <= 15 → 0 <= v' <= 15 → hex_digit v = hex_digit v' → v = v'.
Proof.
  intros Hv Hv' E.
  set (f := λ s : string,
         if String.eqb s "0" then 0 else if String.eqb s "1" then 1
         else if String.eqb s "2" then 2 else if String.eqb s "3" then 3
         else if String.eqb s "4" then 4 else if String.eqb s "5" then 5
         else if String.eqb s "6" then 6 else if String.eqb s "7" then 7
         else if String.eqb s "8" then 8 else if String.eqb s "9" then 9
         else if String.eqb s "a" then 10 else if String.eqb s "b" then 11
         else if String.eqb s "c" then 12 else if String.eqb s "d" then 13
         else if String.eqb s "e" then 14 else 15).
  assert (∀ u, 0 <= u <= 15 → f (hex_digit u) = u) as Hf.
  { intros u Hu.
    assert (u = 0 ∨ u = 1 ∨ u = 2 ∨ u = 3 ∨ u = 4 ∨ u = 5 ∨ u = 6 ∨ u = 7 ∨
            u = 8 ∨ u = 9 ∨ u = 10 ∨ u = 11 ∨ u = 12 ∨ u = 13 ∨ u = 14 ∨
            u = 15) as H by lia.
    repeat destruct H as [->|H]; try subst u; reflexivity. }
  rewrite <- (Hf v Hv), <- (Hf v' Hv'). by rewrite E.
Qed.

Lemma concat_single (c : Ascii.ascii) (xs : list string) :
  String.concat EmptyString (String c EmptyString :: xs)
  = String c (String.concat EmptyString xs).
Proof. by destruct xs. Qed.

Lemma length_concat_hex (ds : list Z) :
  Forall (λ v, 0 <= v <= 15) ds →
  String.length (String.concat EmptyString (hex_digit <$> ds)) = length ds.
Proof.
  induction 1 as [|v ds Hv _ IH]; [done|].
  destruct (hex_digit_single v Hv) as (c & E).
  rewrite fmap_cons, E, concat_single. simpl. by rewrite IH.
Qed.

Lemma concat_hex_inj (ds : list Z) :
  Forall (λ v, 0 <= v <= 15) ds →
  ∀ ds', Forall (λ v, 0 <= v <= 15) ds' → length ds = length ds' →
         String.concat EmptyString (hex_digit <$> ds)
         = String.concat EmptyString (hex_digit <$> ds') →
         ds = ds'.
Proof.
  induction 1 as [|v ds Hv _ IH]; intros ds' Hds' Hl E.
  - by destruct ds'.
  - destruct Hds' as [|v' ds' Hv' Hds']; [done|].
    destruct (hex_digit_single v Hv) as (c & Ec).
    destruct (hex_digit_single v' Hv') as (c' & Ec').
    rewrite !fmap_cons, Ec, Ec', !concat_single in E.
    injection E as Hc E. f_equal.
    + apply hex_digit_inj; [done|done|]. by rewrite Ec, Ec', Hc.
    + apply IH; [done| |done]. simpl in Hl. lia.
Qed.

Lemma generateSessionId_draws (draws : nat → Z) :
  generateSessionId draws
  = String.concat EmptyString (hex_digit <$> (draws <$> seq 0 32)).
Proof. unfold generateSessionId. by rewrite <- list_fmap_compose. Qed.

Lemma draws_in_range (draws : nat → Z) :
  (∀ i, (i < 32)%nat → 0 <= draws i <= 15) →
  Forall (λ v, 0 <= v <= 15) (draws <$> seq 0 32).
Proof.
  intros H. apply Forall_fmap, Forall_forall. intros i Hi.
  apply elem_of_seq in Hi. apply H. lia.
Qed.

(** X24.  With every draw between 0 and 15, a generated session id
    has 32 characters, and two ids are equal exactly when their 32
    draws are. *)
Theorem generateSessionId_injective (draws draws' : nat → Z) :
  (∀ i, (i < 32)%nat → 0 <= draws i <= 15) →
  (∀ i, (i < 32)%nat → 0 <= draws' i <= 15) →
  String.length (generateSessionId draws) = 32%nat ∧
  (generateSessionId draws = generateSessionId draws'
   ↔ ∀ i, (i < 32)%nat → draws i = draws' i).
Proof.
  intros H H'. rewrite !generateSessionId_draws. split.
  - rewrite length_concat_hex by (by apply draws_in_range).
    by rewrite length_fmap, length_seq.
  - split.
    + intros E i Hi.
      apply concat_hex_inj in E;
        [|by apply draws_in_range|by apply draws_in_range
         |by rewrite !length_fmap].
      apply (f_equal (λ l, l !! i)) in E.
      rewrite !list_lookup_fmap, lookup_seq_lt in E by done.
      by injection E.
    + intros E. do 2 f_equal. apply list_fmap_ext.
      intros k i Hk. apply lookup_seq in Hk as [-> ?]. by apply E.
Qed.

Lemma generateSessionId_injective_witness :
  String.length (generateSessionId (env_draws Examples.env_a)) = 32%nat ∧
  (generateSessionId (env_draws Examples.env_a)
   = generateSessionId (env_draws Examples.env_b)
   ↔ ∀ i, (i < 32)%nat →
          env_draws Examples.env_a i = env_draws Examples.env_b i).
Proof.
  apply (generateSessionId_injective (env_draws Examples.env_a)
           (env_draws Examples.env_b)).
  - intros i _. simpl. lia.
  - intros i _. simpl. lia.
Defined.

End session_ids.

(** * Construction and destruction *)

Section lifetime.
Import Invariants Registry SessionManager.

(** Whatever the allocations did, the two [cleanup]s of a destroyed
    solver do not both return. *)
Lemma destroy_solver_allocate (alloc_ok : nat → bool) :
  Lifetime.destroy_solver (Lifetime.allocate alloc_ok 0 8) = None.
Proof.
  unfold Lifetime.destroy_solver. cbn [Lifetime.allocate].
  repeat match goal with
         | |- context [alloc_ok ?k] => destruct (alloc_ok k); [|reflexivity]
         end.
  reflexivity.
Qed.

Lemma destroy_solver_pointers (sim : FDTD3D.t) :
  Lifetime.destroy_solver (Lifetime.pointers sim) = None.
Proof.
  unfold Lifetime.pointers.
  by destruct (VulkanManager.initialized_ (FDTD3D.vulkanManager_ sim)).
Qed.

Lemma destroy_initialized (s : Session.t) :
  Lifetime.destroy s = if initialized s then None else Some ().
Proof.
  unfold Lifetime.destroy, initialized.
  destruct (Session.simulation_ s); [apply destroy_solver_pointers|done].
Qed.

Lemma lifetime_initialize_eq (vulkan_ok : bool) (alloc_ok : nat → bool)
    (junk : nat → nat → Byte.byte) (w h d : Z) :
  0 < w * h * d * 3 < 2 ^ 31 →
  Lifetime.initialize vulkan_ok alloc_ok junk (FDTD3D.new w h d) =
  if vulkan_ok then
    (if forallb alloc_ok (seq 0 8)
     then Lifetime.Returns (FreshSolver.state junk w h d)
     else Lifetime.Throws "Failed to allocate buffer",
     Lifetime.allocate alloc_ok 0 8)
  else (Lifetime.Throws "Failed to initialize Vulkan",
        replicate 8 Lifetime.Indeterminate).
Proof.
  intros Hc. unfold Lifetime.initialize. destruct vulkan_ok.
  - rewrite solver_initialize_state by done.
    by destruct (forallb alloc_ok (seq 0 8)).
  - by rewrite solver_initialize_fails.
Qed.

Lemma lifetime_createSession_eq (alloc_ok : nat → bool) (env : Env) (ws : Z)
    (m : SessionManager.t) :
  Lifetime.createSession alloc_ok env ws m =
  if env_vulkan_ok env && forallb alloc_ok (seq 0 8) then
    match sessions_ m !! generateSessionId (env_draws env) with
    | Some s =>
        if initialized s then Lifetime.Undefined
        else Lifetime.Returns (generateSessionId (env_draws env),
                               (createSession env ws m).2)
    | None =>
        Lifetime.Returns (generateSessionId (env_draws env),
                          (createSession env ws m).2)
    end
  else Lifetime.Undefined.
Proof.
  unfold Lifetime.createSession. cbv zeta.
  rewrite lifetime_initialize_eq by apply grid_128.
  destruct (env_vulkan_ok env); cbn [andb]; [|done].
  destruct (forallb alloc_ok (seq 0 8)).
  - unfold Lifetime.destroy_stored.
    destruct (sessions_ m !! generateSessionId (env_draws env)) as [s|];
      [|done].
    rewrite destroy_initialized. by destruct (initialized s).
  - by rewrite destroy_solver_allocate.
Qed.

Lemma lifetime_removeSession_eq (ws : Z) (m : SessionManager.t) :
  Lifetime.removeSession ws m =
  match connectionToSession_ m !! ws with
  | Some sessionId =>
      match sessions_ m !! sessionId with
      | Some s => if initialized s then None else Some (removeSession ws m)
      | None => Some (removeSession ws m)
      end
  | None => Some m
  end.
Proof.
  unfold Lifetime.removeSession, Lifetime.destroy_stored.
  destruct (connectionToSession_ m !! ws) as [id|]; [|done].
  destruct (sessions_ m !! id) as [s|]; [|done].
  rewrite destroy_initialized. by destruct (initialized s).
Qed.

Lemma lifetime_cleanup_foldr (now : Z) (m : SessionManager.t)
    (l : list (string * Session.t)) :
  foldr (uncurry (Lifetime.cleanup_entry now)) (Some m) l =
  if forallb (λ kv, negb (Session.isExpired now kv.2 && initialized kv.2)) l
  then Some (foldr (uncurry (cleanup_entry now)) m l) else None.
Proof.
  induction l as [|[id s] l IH]; [done|].
  cbn [foldr forallb uncurry snd]. rewrite IH.
  unfold Lifetime.cleanup_entry, cleanup_entry.
  rewrite destroy_initialized.
  destruct (forallb _ l); cbn [mbind option_bind];
    by destruct (Session.isExpired now s), (initialized s).
Qed.

Lemma lifetime_cleanup_eq (now : Z) (m : SessionManager.t) :
  Lifetime.cleanupExpiredSessions now m =
  if forallb (λ kv, negb (Session.isExpired now kv.2 && initialized kv.2))
       (map_to_list (sessions_ m))
  then Some (cleanupExpiredSessions now m) else None.
Proof.
  unfold Lifetime.cleanupExpiredSessions, cleanupExpiredSessions.
  rewrite !map_fold_foldr. apply lifetime_cleanup_foldr.
Qed.

(** The sweep returns when no expired session has a solver. *)
Lemma lifetime_cleanup_returns (now : Z) (m : SessionManager.t) :
  (∀ id s, sessions_ m !! id = Some s → Session.isExpired now s = true →
           initialized s = false) →
  Lifetime.cleanupExpiredSessions now m
  = Some (cleanupExpiredSessions now m).
Proof.
  intros H. rewrite lifetime_cleanup_eq.
  destruct (forallb _ _) eqn:E; [done|].
  apply not_true_iff_false in E. destruct E.
  apply forallb_forall. intros [id s] Hin.
  apply list_elem_of_In, elem_of_map_to_list in Hin. cbn [snd].
  destruct (Session.isExpired now s) eqn:He; [|done].
  by rewrite (H id s Hin He).
Qed.

Lemma lifetime_cleanup_undefined (now : Z) (m : SessionManager.t)
    (id : string) (s : Session.t) :
  sessions_ m !! id = Some s → Session.isExpired now s = true →
  initialized s = true →
  Lifetime.cleanupExpiredSessions now m = None.
Proof.
  intros Hs He Hi. rewrite lifetime_cleanup_eq.
  destruct (forallb _ _) eqn:E; [|done].
  rewrite forallb_forall in E.
  assert (In (id, s) (map_to_list (sessions_ m))) as Hin
    by (by apply list_elem_of_In, elem_of_map_to_list).
  apply E in Hin. cbn [snd] in Hin. by rewrite He, Hi in Hin.
Qed.

Lemma lifetime_cleanup_Some (now : Z) (m m' : SessionManager.t) :
  Lifetime.cleanupExpiredSessions now m = Some m' →
  m' = cleanupExpiredSessions now m ∧
  ∀ id s, sessions_ m !! id = Some s → Session.isExpired now s = true →
          initialized s = false.
Proof.
  intros E. split.
  - rewrite lifetime_cleanup_eq in E. destruct (forallb _ _); congruence.
  - intros id s Hs He. destruct (initialized s) eqn:Hi; [|done].
    by rewrite (lifetime_cleanup_undefined now m id s Hs He Hi) in E.
Qed.

Lemma initialized_update (now : Z) (s : Session.t) :
  initialized (Session.update now s) = initialized s.
Proof. apply (initialized_exec (SessionRun.Update now)). Qed.

Lemma lifetime_updateAll_returns (now : Z) (m : SessionManager.t) :
  (∀ id s, sessions_ m !! id = Some s →
           Session.isExpired now (Session.update now s) = true →
           initialized s = false) →
  Lifetime.updateAll now m = Some (updateAll now m).
Proof.
  intros H. unfold Lifetime.updateAll, updateAll. cbv zeta.
  apply lifetime_cleanup_returns. intros id s' Hs' He.
  cbn [sessions_] in Hs'. rewrite lookup_fmap in Hs'.
  destruct (sessions_ m !! id) as [s|] eqn:Hs; [|done].
  injection Hs' as <-. rewrite initialized_update. by eapply H.
Qed.

Lemma lifetime_updateAll_undefined (now : Z) (m : SessionManager.t)
    (id : string) (s : Session.t) :
  sessions_ m !! id = Some s →
  Session.isExpired now (Session.update now s) = true →
  initialized s = true →
  Lifetime.updateAll now m = None.
Proof.
  intros Hs He Hi. unfold Lifetime.updateAll. cbv zeta.
  apply (lifetime_cleanup_undefined now _ id (Session.update now s)).
  - cbn [sessions_]. by rewrite lookup_fmap, Hs.
  - done.
  - by rewrite initialized_update.
Qed.

Lemma lifetime_updateAll_Some (now : Z) (m m' : SessionManager.t) :
  Lifetime.updateAll now m = Some m' →
  m' = updateAll now m ∧
  ∀ id s, sessions_ m !! id = Some s →
          Session.isExpired now (Session.update now s) = true →
          initialized s = false.
Proof.
  intros E. split.
  - unfold Lifetime.updateAll in E. cbv zeta in E.
    by apply lifetime_cleanup_Some in E as [-> _].
  - intros id s Hs He. destruct (initialized s) eqn:Hi; [|done].
    by rewrite (lifetime_updateAll_undefined now m id s Hs He Hi) in E.
Qed.

Lemma lifetime_exec_Some (op : Lifetime.Op) (m m' : SessionManager.t) :
  Lifetime.exec op m = Some m' → m' = exec (Lifetime.forget op) m.
Proof.
  destruct op as [alloc_ok env ws|ws|now id input|id control|now|];
    cbn [Lifetime.exec Lifetime.forget exec].
  - rewrite lifetime_createSession_eq.
    destruct (env_vulkan_ok env && forallb alloc_ok (seq 0 8)); [|done].
    destruct (sessions_ m !! generateSessionId (env_draws env)) as [s|];
      [destruct (initialized s); [done|]|]; by intros [= <-].
  - rewrite lifetime_removeSession_eq. unfold removeSession.
    destruct (connectionToSession_ m !! ws) as [id|]; [|by intros [= <-]].
    destruct (sessions_ m !! id) as [s|];
      [destruct (initialized s); [done|]|]; by intros [= <-].
  - by intros [= <-].
  - by intros [= <-].
  - intros E. by apply lifetime_updateAll_Some in E as [-> _].
  - by intros [= <-].
Qed.

Lemma lookup_session_exec (op : Op) (m : SessionManager.t) (id : string)
    (s' : Session.t) :
  sessions_ (exec op m) !! id = Some s' →
  (∃ s, sessions_ m !! id = Some s ∧ initialized s' = initialized s) ∨
  initialized s' = true.
Proof.
  destruct op as [env ws|ws|now id0 input|id0 control|now|]; cbn [exec].
  - destruct (env_vulkan_ok env) eqn:Hok.
    + destruct (createSession_state env ws m Hok) as (s & E & Hsim & _).
      rewrite E. cbn [snd sessions_].
      destruct (decide (generateSessionId (env_draws env) = id)) as [<-|Hne].
      * rewrite lookup_insert_eq. intros [= <-]. right.
        unfold initialized. by rewrite Hsim.
      * rewrite lookup_insert_ne by done. intros Hs. left. by exists s'.
    + rewrite createSession_fails by done. intros Hs. left. by exists s'.
  - unfold removeSession.
    destruct (connectionToSession_ m !! ws) as [id0|];
      [|intros Hs; left; by exists s'].
    cbn [sessions_]. intros [_ Hs]%lookup_delete_Some. left. by exists s'.
  - unfold handleInput.
    destruct (sessions_ m !! id0) as [s0|] eqn:Hs0;
      [|intros Hs; left; by exists s'].
    cbn [sessions_]. destruct (decide (id0 = id)) as [<-|Hne].
    + rewrite lookup_insert_eq. intros [= <-]. left. exists s0.
      split; [done|].
      apply (initialized_exec
               (SessionRun.HandleInput now (ci_x input) (ci_y input)
                  (ci_z input) (ci_value input))).
    + rewrite lookup_insert_ne by done. intros Hs. left. by exists s'.
  - rewrite handleControl_id. intros Hs. left. by exists s'.
  - intros Hs'.
    destruct (lookup_updateAll_Some now m id s' Hs') as (s & Hs & -> & _).
    left. exists s. split; [done|apply initialized_update].
  - rewrite lookup_broadcastFrames.
    destruct (sessions_ m !! id) as [s|] eqn:Hs; [|done].
    intros [= <-]. left. exists s. split; [done|].
    unfold broadcast_entry. destruct (negb (Session.hasNewFrame s)); [done|].
    destruct (sessionToConnection_ m !! id); [|done].
    pose proof (initialized_exec SessionRun.GetFrameData s) as Hg.
    cbn [SessionRun.exec] in Hg.
    destruct (Session.getFrameData [] s) as [s1 payload]. cbn [fst] in Hg.
    by destruct payload.
Qed.

Lemma all_initialized_exec (op : Op) (m : SessionManager.t) :
  all_initialized m → all_initialized (exec op m).
Proof.
  intros Hall id s' Hs'.
  destruct (lookup_session_exec op m id s' Hs') as [(s & Hs & ->)|H];
    [by eapply Hall|done].
Qed.

(** In a registry whose sessions all have a solver, an operation that
    returns has overwritten no session. *)
Lemma lifetime_exec_fresh (op : Lifetime.Op) (m m' : SessionManager.t) :
  all_initialized m → Lifetime.unbound_op op m →
  Lifetime.exec op m = Some m' →
  fresh_op (Lifetime.forget op) m.
Proof.
  intros Hall Hu E.
  destruct op as [alloc_ok env ws|ws|now id input|id control|now|];
    cbn [Lifetime.forget fresh_op]; try done.
  split; [exact Hu|].
  cbn [Lifetime.exec] in E. rewrite lifetime_createSession_eq in E.
  destruct (env_vulkan_ok env && forallb alloc_ok (seq 0 8)); [|done].
  destruct (sessions_ m !! generateSessionId (env_draws env)) as [s|] eqn:Hs;
    [|done].
  by rewrite (Hall _ s Hs) in E.
Qed.

Lemma lifetime_run_inv (ops : list Lifetime.Op) :
  ∀ m m', inv m → all_initialized m → Lifetime.unbound_run ops m →
          Lifetime.run ops m = Some m' → inv m' ∧ all_initialized m'.
Proof.
  induction ops as [|op ops IH]; intros m m' Hinv Hall Hu E.
  - cbn [Lifetime.run] in E. by injection E as <-.
  - cbn [Lifetime.run Lifetime.unbound_run] in *. destruct Hu as [Hu Hrest].
    destruct (Lifetime.exec op m) as [m1|] eqn:E1; [|done].
    cbn [mbind option_bind] in E.
    pose proof (lifetime_exec_fresh op m m1 Hall Hu E1) as Hfresh.
    apply lifetime_exec_Some in E1 as ->.
    apply (IH (exec (Lifetime.forget op) m) m'); try done.
    + by apply inv_exec.
    + by apply all_initialized_exec.
Qed.

Lemma all_initialized_new : all_initialized new.
Proof.
  intros id s Hs. unfold new in Hs. cbn [sessions_] in Hs.
  by rewrite lookup_empty in Hs.
Qed.

(** *** Concrete runs *)

Lemma lifetime_create_returns (alloc_ok : nat → bool) (env : Env) (ws : Z)
    (m : SessionManager.t) :
  env_vulkan_ok env = true → forallb alloc_ok (seq 0 8) = true →
  sessions_ m !! generateSessionId (env_draws env) = None →
  Lifetime.exec (Lifetime.CreateSession alloc_ok env ws) m
  = Some (createSession env ws m).2.
Proof.
  intros Hok Ha Hs. cbn [Lifetime.exec].
  by rewrite lifetime_createSession_eq, Hok, Ha, Hs.
Qed.

Lemma created_registry (env : Env) (ws : Z) :
  env_vulkan_ok env = true →
  ∃ s, (createSession env ws new).2 =
       {| sessions_ := {[generateSessionId (env_draws env) := s]};
          connectionToSession_ := {[ws := generateSessionId (env_draws env)]};
          sessionToConnection_ :=
            {[generateSessionId (env_draws env) := ws]} |} ∧
       Session.simulation_ s
       = Some (FreshSolver.state (env_junk env) 128 128 128) ∧
       Session.needsUpdate_ s = true ∧
       Session.lastActivity_ s = env_now env.
Proof.
  intros Hok.
  destruct (createSession_state env ws new Hok)
    as (s & E & Hsim & _ & _ & Hnu & Hla).
  exists s. rewrite E. cbn [snd new sessions_ connectionToSession_
    sessionToConnection_]. by rewrite !insert_empty.
Qed.

Lemma unbound_run_no_create (ops : list Lifetime.Op) :
  (∀ op, op ∈ ops → ∀ m, Lifetime.unbound_op op m) →
  ∀ m, Lifetime.unbound_run ops m.
Proof.
  induction ops as [|op ops IH]; intros Hops m; [done|].
  cbn [Lifetime.unbound_run]. split.
  - apply Hops, list_elem_of_here.
  - destruct (Lifetime.exec op m); [|done].
    apply IH. intros op' Hin. apply Hops. by apply list_elem_of_further.
Qed.

Lemma unbound_run_create_first (op : Lifetime.Op)
    (ops : list Lifetime.Op) (m : t) :
  Lifetime.unbound_op op m →
  (∀ op', op' ∈ ops → ∀ m', Lifetime.unbound_op op' m') →
  Lifetime.unbound_run (op :: ops) m.
Proof.
  intros Hop Hops. split; [done|].
  destruct (Lifetime.exec op m); [|done].
  by apply unbound_run_no_create.
Qed.

End lifetime.

(** * The registry with its destructors *)

Section checked_registry.
Import Invariants Registry SessionManager.

Lemma rebound_maps_inconsistent :
  ¬ consistent (run Examples.rebinding_ops new).
Proof.
  intros Hcons. unfold Examples.rebinding_ops in Hcons.
  cbn [run exec] in Hcons.
  destruct (createSession_ok Examples.env_a 7 new eq_refl)
    as (sA & ? & EA & _).
  rewrite EA in Hcons. cbn [snd] in Hcons.
  destruct (createSession_ok Examples.env_b 7
              (createSession Examples.env_a 7 new).2 eq_refl)
    as (sB & ? & EB & _).
  rewrite EA in EB. cbn [snd] in EB. rewrite EB in Hcons. cbn [snd] in Hcons.
  change (generateSessionId (env_draws Examples.env_a))
    with Examples.id_a in Hcons.
  change (generateSessionId (env_draws Examples.env_b))
    with Examples.id_b in Hcons.
  assert (Examples.id_b ≠ Examples.id_a) as Hab by done.
  destruct (proj1 (Hcons Examples.id_a)) as (ws & Hws & _).
  { cbn [sessions_ sessionToConnection_ connectionToSession_ new].
    rewrite !lookup_insert_ne, !lookup_insert_eq by done.
    split; by eexists. }
  cbn [connectionToSession_ new] in Hws.
  destruct (decide (ws = 7)) as [->|Hne].
  - rewrite lookup_insert_eq in Hws. congruence.
  - rewrite !lookup_insert_ne, lookup_empty in Hws by done. done.
Qed.

Lemma rebinding_returns :
  Lifetime.run Samples.rebinding new
  = Some (run Examples.rebinding_ops new).
Proof.
  unfold Samples.rebinding, Examples.rebinding_ops.
  cbn [Lifetime.run run exec].
  rewrite lifetime_create_returns by done. cbn [mbind option_bind].
  rewrite lifetime_create_returns; [done|done|done|].
  destruct (created_registry Examples.env_a 7 eq_refl) as (s & -> & _).
  cbn [sessions_]. by apply lookup_singleton_ne.
Qed.

(** C3, as stated, fails: [createSession] does not look at what is
    already bound.  Called twice for the same connection, both calls
    return, and the first session stays in [sessions_] and
    [sessionToConnection_] with no connection bound to it. *)
Lemma rebinding_breaks_consistency :
  Lifetime.run Samples.rebinding new
  = Some (run Examples.rebinding_ops new) ∧
  ¬ consistent (run Examples.rebinding_ops new).
Proof. split; [apply rebinding_returns|apply rebound_maps_inconsistent]. Qed.

(** C3 (amended).  Start from the empty registry and take any sequence
    of [createSession], [removeSession], [handleInput],
    [handleControl], [updateAll] and [broadcastFrames] in which every
    [createSession] is for a connection that is not bound when it is
    called.  Whenever the calls of the sequence all return, the three
    maps are consistent afterwards: a session id is a key of
    [sessions_] and of [sessionToConnection_] iff some connection is
    bound to it in [connectionToSession_], [sessionToConnection_]
    pointing back to that connection; moreover connections and ids are
    bound one to one.  A call that destroys a session with a solver
    does not return; what happens then is not part of the
    statement. *)
Theorem registry_consistent (ops : list Lifetime.Op)
    (m : SessionManager.t) :
  Lifetime.unbound_run ops new → Lifetime.run ops new = Some m →
  consistent m ∧ inv m.
Proof.
  intros Hu E.
  destruct (lifetime_run_inv ops new m inv_new all_initialized_new Hu E)
    as (Hinv & _).
  split; [by apply inv_consistent|done].
Qed.

Lemma input_after_create (env : Env) (ws : Z) (t : Z)
    (input : ClientInputMessage) :
  env_vulkan_ok env = true →
  ∃ s, handleInput t (generateSessionId (env_draws env)) input
         (createSession env ws new).2 =
       {| sessions_ := {[generateSessionId (env_draws env) := s]};
          connectionToSession_ := {[ws := generateSessionId (env_draws env)]};
          sessionToConnection_ :=
            {[generateSessionId (env_draws env) := ws]} |} ∧
       initialized s = true ∧ Session.needsUpdate_ s = true.
Proof.
  intros Hok.
  destruct (created_registry env ws Hok) as (s & -> & Hsim & Hnu & _).
  unfold handleInput. cbn [sessions_].
  rewrite lookup_singleton_eq.
  cbn [sessions_ connectionToSession_ sessionToConnection_].
  rewrite insert_singleton_eq. eexists. split; [reflexivity|].
  unfold Session.handleInput, initialized. rewrite Hsim.
  cbn [Session.simulation_ Session.needsUpdate_]. done.
Qed.

(** A tick on a registry whose one session still needs its update. *)
Lemma tick_single (now : Z) (id : string) (s : Session.t)
    (c2s : gmap Z string) (s2c : gmap string Z) :
  initialized s = true → Session.needsUpdate_ s = true →
  let m := {| sessions_ := {[id := s]}; connectionToSession_ := c2s;
              sessionToConnection_ := s2c |} in
  Lifetime.updateAll now m = Some (updateAll now m) ∧
  sessions_ (updateAll now m) !! id = Some (Session.update now s).
Proof.
  intros Hi Hnu m.
  assert (Session.isExpired now (Session.update now s) = false) as He.
  { rewrite isExpired_update, Hnu, Hi. apply andb_false_r. }
  split.
  - apply lifetime_updateAll_returns. intros id' s' Hs' He'.
    unfold m in Hs'. cbn [sessions_] in Hs'.
    apply lookup_singleton_Some in Hs' as [_ <-]. congruence.
  - apply updateAll_keeps; [|done]. unfold m. cbn [sessions_].
    apply lookup_singleton_eq.
Qed.

Lemma open_input_tick_close (alloc_ok : nat → bool) (env : Env)
    (ws ws' t now : Z) (input : ClientInputMessage) :
  env_vulkan_ok env = true → forallb alloc_ok (seq 0 8) = true →
  ws ≠ ws' →
  Lifetime.run
    [Lifetime.CreateSession alloc_ok env ws;
     Lifetime.HandleInput t (generateSessionId (env_draws env)) input;
     Lifetime.UpdateAll now; Lifetime.BroadcastFrames;
     Lifetime.RemoveSession ws'] new
  = Some (run [CreateSession env ws;
               HandleInput t (generateSessionId (env_draws env)) input;
               UpdateAll now; BroadcastFrames; RemoveSession ws'] new).
Proof.
  intros Hok Ha Hne.
  cbn [Lifetime.run run exec].
  rewrite lifetime_create_returns by done.
  cbn [mbind option_bind Lifetime.exec].
  destruct (input_after_create env ws t input Hok) as (s & -> & Hi & Hnu).
  destruct (tick_single now (generateSessionId (env_draws env)) s
              {[ws := generateSessionId (env_draws env)]}
              {[generateSessionId (env_draws env) := ws]} Hi Hnu)
    as (-> & _).
  cbn [mbind option_bind].
  rewrite lifetime_removeSession_eq.
  set (m4 := (broadcastFrames _).1).
  assert (connectionToSession_ m4 !! ws' = None) as H8.
  { unfold m4, broadcastFrames. cbn [fst connectionToSession_].
    destruct (updateAll_lookup now
                {| sessions_ := {[generateSessionId (env_draws env) := s]};
                   connectionToSession_ :=
                     {[ws := generateSessionId (env_draws env)]};
                   sessionToConnection_ :=
                     {[generateSessionId (env_draws env) := ws]} |})
      as (_ & _ & Hc).
    rewrite Hc. cbn [connectionToSession_].
    by rewrite lookup_singleton_ne. }
  rewrite H8. unfold removeSession. by rewrite H8.
Qed.

Lemma opening_returns :
  Lifetime.run Samples.opening new
  = Some (run (Lifetime.forget <$> Samples.opening) new).
Proof.
  exact (open_input_tick_close Samples.all_ok Examples.env_a 7 8 1 5
           Examples.input_message eq_refl eq_refl ltac:(done)).
Qed.

Lemma opening_unbound : Lifetime.unbound_run Samples.opening new.
Proof.
  unfold Samples.opening. apply unbound_run_create_first; [done|].
  intros op Hin m.
  repeat (apply elem_of_cons in Hin as [->|Hin]; [done|]).
  by apply elem_of_nil in Hin.
Qed.

Lemma registry_consistent_witness :
  Lifetime.unbound_run Samples.opening new ∧
  Lifetime.run Samples.opening new
  = Some (run (Lifetime.forget <$> Samples.opening) new) ∧
  consistent (run (Lifetime.forget <$> Samples.opening) new).
Proof.
  split; [exact opening_unbound|]. split; [exact opening_returns|].
  exact (proj1 (registry_consistent Samples.opening _ opening_unbound
                  opening_returns)).
Defined.





End checked_registry.

(** * Opening, closing and sweeping with the destructors *)

Section checked_handlers.
Import Invariants Registry SessionManager.

(** X8.  [FDTD3D::initialize] on a solver as constructed, for a grid
    whose [int] products do not overflow.  When Vulkan does not
    initialise it throws and the eight pointers are as the constructor
    left them.  When an allocation fails it throws: the pointers before
    it are set, its own is null, those behind it are as the constructor
    left them.  Otherwise it returns: the material buffer is the vacuum
    pattern for every cell, while the six field buffers and the
    alpha-beta buffer still hold what their allocation held; the time
    is 0.0 and no step has been taken. *)
Theorem solver_initialize_memory (vulkan_ok : bool) (alloc_ok : nat → bool)
    (junk : nat → nat → Byte.byte) (w h d : Z) :
  0 < w → 0 < h → 0 < d → w * h * d * 4 < 2 ^ 31 →
  Lifetime.initialize vulkan_ok alloc_ok junk (FDTD3D.new w h d) =
  if vulkan_ok then
    (if forallb alloc_ok (seq 0 8)
     then Lifetime.Returns (FreshSolver.state junk w h d)
     else Lifetime.Throws "Failed to allocate buffer",
     Lifetime.allocate alloc_ok 0 8)
  else (Lifetime.Throws "Failed to initialize Vulkan",
        replicate 8 Lifetime.Indeterminate).
Proof.
  intros Hw Hh Hd Hc. apply lifetime_initialize_eq. nia.
Qed.

Lemma solver_initialize_memory_witness :
  0 < 1 ∧ 1 * 1 * 1 * 4 < 2 ^ 31 ∧
  Lifetime.initialize true Samples.all_ok (λ _ _, Byte.x00) (FDTD3D.new 1 1 1)
  = (Lifetime.Returns (FreshSolver.state (λ _ _, Byte.x00) 1 1 1),
     replicate 8 Lifetime.Live).
Proof.
  assert (0 < 1) as H1 by lia.
  assert (1 * 1 * 1 * 4 < 2 ^ 31) as H4 by lia.
  split; [exact H1|]. split; [exact H4|].
  exact (solver_initialize_memory true Samples.all_ok (λ _ _, Byte.x00)
           1 1 1 H1 H1 H1 H4).
Defined.

(** X11.  The [.open] handler.  [createSession] returns when Vulkan
    initialises, the eight allocations succeed and the generated id
    does not hold a session with a solver: it returns the id, binds
    the connection to it in both directions and stores an initialised
    session on the 128 x 128 x 128 grid that carries the id, needs its
    update, has no frame and was active at the time of the call; the
    bindings of other connections and the entries of other ids are
    untouched.  When Vulkan does not initialise or an allocation
    fails, the session under construction is destroyed with the
    pointers of its solver as the failed [initialize] left them, which
    is undefined; so is the replacement of a session with a solver
    stored under the id. *)
Theorem createSession_binds (alloc_ok : nat → bool) (env : Env) (ws : Z)
    (m : SessionManager.t) :
  let sessionId := generateSessionId (env_draws env) in
  let m' := (createSession env ws m).2 in
  (env_vulkan_ok env && forallb alloc_ok (seq 0 8) = false →
   Lifetime.createSession alloc_ok env ws m = Lifetime.Undefined ∧
   Server.on_open alloc_ok env ws m = Server.Undefined) ∧
  (∀ s, sessions_ m !! sessionId = Some s → initialized s = true →
        Lifetime.createSession alloc_ok env ws m = Lifetime.Undefined ∧
        Server.on_open alloc_ok env ws m = Server.Undefined) ∧
  (env_vulkan_ok env = true → forallb alloc_ok (seq 0 8) = true →
   (∀ s, sessions_ m !! sessionId = Some s → initialized s = false) →
   Lifetime.createSession alloc_ok env ws m
   = Lifetime.Returns (sessionId, m') ∧
   Server.on_open alloc_ok env ws m
   = Server.Returned m' [Server.ConnectionOpened sessionId] ∧
   getSessionId ws m' = Some sessionId ∧
   sessionToConnection_ m' !! sessionId = Some ws ∧
   (∃ s, sessions_ m' !! sessionId = Some s ∧
         Session.getId s = sessionId ∧
         Session.simulation_ s
         = Some (FreshSolver.state (env_junk env) 128 128 128) ∧
         Session.hasNewFrame s = false ∧ Session.needsUpdate_ s = true ∧
         Session.lastActivity_ s = env_now env) ∧
   (∀ ws', ws' ≠ ws → getSessionId ws' m' = getSessionId ws' m) ∧
   (∀ id, id ≠ sessionId →
          sessions_ m' !! id = sessions_ m !! id ∧
          sessionToConnection_ m' !! id = sessionToConnection_ m !! id)).
Proof.
  cbv zeta. split; [|split].
  - intros Hfail. unfold Server.on_open.
    by rewrite lifetime_createSession_eq, Hfail.
  - intros s Hs Hi. unfold Server.on_open.
    rewrite lifetime_createSession_eq, Hs, Hi.
    by destruct (env_vulkan_ok env && forallb alloc_ok (seq 0 8)).
  - intros Hok Ha Hfree.
    assert (Lifetime.createSession alloc_ok env ws m
            = Lifetime.Returns (generateSessionId (env_draws env),
                                (createSession env ws m).2)) as Ec.
    { rewrite lifetime_createSession_eq, Hok, Ha. cbn [andb].
      destruct (sessions_ m !! generateSessionId (env_draws env))
        as [s0|] eqn:Hs0; [|done].
      by rewrite (Hfree s0 eq_refl). }
    split; [exact Ec|]. split; [unfold Server.on_open; by rewrite Ec|].
    destruct (createSession_state env ws m Hok)
      as (s & E & Hsim & Hid & Hnf & Hnu & Hla).
    unfold getSessionId. rewrite E.
    cbn [fst snd sessions_ connectionToSession_ sessionToConnection_].
    rewrite !lookup_insert_eq.
    split; [done|]. split; [done|].
    split; [by exists s|]. split.
    + intros ws' Hne. by rewrite lookup_insert_ne.
    + intros id Hne. by rewrite !lookup_insert_ne.
Qed.

Lemma createSession_binds_witness :
  env_vulkan_ok Examples.env_a = true ∧
  forallb Samples.all_ok (seq 0 8) = true ∧
  Lifetime.createSession Samples.all_ok Examples.env_a 7 new
  = Lifetime.Returns (Examples.id_a, (createSession Examples.env_a 7 new).2) ∧
  getSessionId 7 (createSession Examples.env_a 7 new).2 = Some Examples.id_a.
Proof.
  split; [reflexivity|]. split; [reflexivity|].
  destruct (createSession_binds Samples.all_ok Examples.env_a 7 new)
    as (_ & _ & H).
  destruct (H eq_refl eq_refl) as (H1 & _ & H2 & _).
  { intros s Hs. unfold new in Hs. cbn [sessions_] in Hs.
    by rewrite lookup_empty in Hs. }
  split; [exact H1|exact H2].
Defined.

(** X12.  A connection that [createSession] has opened cannot be
    closed: [removeSession] erases the session just stored, whose
    destruction frees the eight buffers of its solver twice; the
    [.close] handler is undefined with it. *)
Theorem close_after_open_undefined (alloc_ok : nat → bool) (env : Env)
    (ws : Z) (m m' : SessionManager.t) (sessionId : string) :
  Lifetime.createSession alloc_ok env ws m
  = Lifetime.Returns (sessionId, m') →
  Lifetime.removeSession ws m' = None ∧
  ∀ code message, Server.on_close ws code message m' = Server.Undefined.
Proof.
  intros Ec.
  assert (Lifetime.removeSession ws m' = None) as Er.
  { rewrite lifetime_createSession_eq in Ec.
    destruct (env_vulkan_ok env) eqn:Hok; [|done].
    assert (m' = (createSession env ws m).2) as ->.
    { destruct (forallb alloc_ok (seq 0 8)); [|done]. cbn [andb] in Ec.
      destruct (sessions_ m !! generateSessionId (env_draws env)) as [s0|];
        [destruct (initialized s0); [done|]|]; congruence. }
    destruct (createSession_state env ws m Hok) as (s & E & Hsim & _).
    rewrite lifetime_removeSession_eq, E.
    cbn [snd sessions_ connectionToSession_]. rewrite !lookup_insert_eq.
    unfold initialized. by rewrite Hsim. }
  split; [exact Er|]. intros code message.
  unfold Server.on_close, Server.handleDisconnect. by rewrite Er.
Qed.

Lemma close_after_open_undefined_witness :
  Lifetime.createSession Samples.all_ok Examples.env_a 7 new
  = Lifetime.Returns (Examples.id_a, (createSession Examples.env_a 7 new).2) ∧
  Lifetime.removeSession 7 (createSession Examples.env_a 7 new).2 = None.
Proof.
  assert (Lifetime.createSession Samples.all_ok Examples.env_a 7 new
          = Lifetime.Returns
              (Examples.id_a, (createSession Examples.env_a 7 new).2)) as Ec.
  { rewrite lifetime_createSession_eq. reflexivity. }
  split; [exact Ec|].
  exact (proj1 (close_after_open_undefined Samples.all_ok Examples.env_a 7
                  new _ Examples.id_a Ec)).
Defined.

(** X13.  The [.close] handler.  [removeSession] of a connection that
    is not bound changes nothing.  For a connection bound to an id
    that holds a session with a solver, the erase destroys the session
    and frees the buffers of the solver twice: the call is undefined.
    For a connection bound to an id that holds no such session, the
    connection is unbound and the id is gone from the session map and
    the reverse map, the bindings of other connections and the entries
    of other ids are untouched, and removing again changes nothing. *)
Theorem removeSession_effect (ws : Z) (m : SessionManager.t) :
  (getSessionId ws m = None →
   Lifetime.removeSession ws m = Some m ∧
   ∀ code message,
     Server.on_close ws code message m
     = Server.Returned m [Server.Disconnected code]) ∧
  (∀ id s, getSessionId ws m = Some id → sessions_ m !! id = Some s →
           initialized s = true →
           Lifetime.removeSession ws m = None ∧
           ∀ code message,
             Server.on_close ws code message m = Server.Undefined) ∧
  (∀ id, getSessionId ws m = Some id →
         (∀ s, sessions_ m !! id = Some s → initialized s = false) →
         ∃ m', Lifetime.removeSession ws m = Some m' ∧
               (∀ code message,
                  Server.on_close ws code message m
                  = Server.Returned m' [Server.Disconnected code]) ∧
               getSessionId ws m' = None ∧
               sessions_ m' !! id = None ∧
               sessionToConnection_ m' !! id = None ∧
               (∀ ws', ws' ≠ ws →
                       getSessionId ws' m' = getSessionId ws' m) ∧
               (∀ id', id' ≠ id →
                       sessions_ m' !! id' = sessions_ m !! id' ∧
                       sessionToConnection_ m' !! id'
                       = sessionToConnection_ m !! id') ∧
               Lifetime.removeSession ws m' = Some m').
Proof.
  unfold Server.on_close, Server.handleDisconnect, getSessionId.
  split; [|split].
  - intros Hws. rewrite lifetime_removeSession_eq, Hws. done.
  - intros id s Hws Hs Hi.
    rewrite lifetime_removeSession_eq, Hws, Hs, Hi. done.
  - intros id Hws Hfree. exists (removeSession ws m).
    assert (Lifetime.removeSession ws m = Some (removeSession ws m)) as Er.
    { rewrite lifetime_removeSession_eq, Hws.
      destruct (sessions_ m !! id) as [s|] eqn:Hs; [|done].
      by rewrite (Hfree s eq_refl). }
    rewrite Er. split; [done|]. split; [done|].
    rewrite lifetime_removeSession_eq.
    unfold removeSession. rewrite Hws.
    cbn [sessions_ connectionToSession_ sessionToConnection_].
    rewrite !lookup_delete_eq.
    split; [done|]. split; [done|]. split; [done|]. split.
    { intros ws' Hne. by rewrite lookup_delete_ne. }
    split; [|done].
    intros id' Hne. by rewrite !lookup_delete_ne.
Qed.

Lemma removeSession_effect_witness :
  Lifetime.removeSession 8 new = Some new ∧
  ∃ m', Lifetime.removeSession 7 Examples.idle_registry = Some m' ∧
        getSessionId 7 m' = None ∧ sessions_ m' !! "s" = None.
Proof.
  split.
  - exact (proj1 (proj1 (removeSession_effect 8 new) eq_refl)).
  - destruct (proj2 (proj2 (removeSession_effect 7 Examples.idle_registry))
                "s" eq_refl) as (m' & E & _ & H1 & H2 & _).
    + intros s Hs.
      unfold Examples.idle_registry in Hs. cbn [sessions_] in Hs.
      apply lookup_singleton_Some in Hs as [_ <-]. reflexivity.
    + exists m'. split; [exact E|]. split; [exact H1|exact H2].
Defined.

(** X14.  [cleanupExpiredSessions].  When no expired session has a
    solver the sweep returns and keeps exactly the sessions that are
    not expired, whatever the order in which the loop visits them;
    from the reverse map it removes the ids of the expired sessions,
    and from the connection map every connection bound to one of
    them.  When an expired session has a solver, its erase frees the
    buffers of the solver twice: the sweep is undefined. *)
Theorem cleanup_keeps_exactly_unexpired (now : Z) (m : SessionManager.t) :
  ((∀ id s, sessions_ m !! id = Some s → Session.isExpired now s = true →
            initialized s = false) →
   ∃ m', Lifetime.cleanupExpiredSessions now m = Some m' ∧
         sessions_ m'
         = filter (λ kv, Session.isExpired now kv.2 = false) (sessions_ m) ∧
         sessionToConnection_ m'
         = filter (λ kv, expired_id now (sessions_ m) kv.1 = false)
             (sessionToConnection_ m) ∧
         connectionToSession_ m'
         = filter (λ kv, expired_id now (sessions_ m) kv.2 = false)
             (connectionToSession_ m)) ∧
  (∀ id s, sessions_ m !! id = Some s → Session.isExpired now s = true →
           initialized s = true →
           Lifetime.cleanupExpiredSessions now m = None).
Proof.
  split.
  - intros Hsafe. exists (cleanupExpiredSessions now m).
    split; [by apply lifetime_cleanup_returns|].
    split; [apply cleanup_sessions_filter|].
    split; [apply cleanup_reverse_filter|apply cleanup_connections_filter].
  - intros id s Hs He Hi. by eapply lifetime_cleanup_undefined.
Qed.

Lemma cleanup_keeps_exactly_unexpired_witness :
  Lifetime.cleanupExpiredSessions Examples.after_31_minutes
    (createSession Examples.env_a 7 new).2 = None ∧
  ∃ m', Lifetime.cleanupExpiredSessions Examples.after_31_minutes
          Examples.idle_registry = Some m' ∧
        sessions_ m'
        = filter (λ kv, Session.isExpired Examples.after_31_minutes kv.2
                        = false) (sessions_ Examples.idle_registry).
Proof.
  split.
  - destruct (created_registry Examples.env_a 7 eq_refl)
      as (s & E & Hsim & Hnu & Hla).
    apply (proj2 (cleanup_keeps_exactly_unexpired Examples.after_31_minutes
                    (createSession Examples.env_a 7 new).2)
             (generateSessionId (env_draws Examples.env_a)) s).
    + rewrite E. apply lookup_singleton_eq.
    + unfold Session.isExpired. rewrite Hla. reflexivity.
    + unfold initialized. by rewrite Hsim.
  - destruct (proj1 (cleanup_keeps_exactly_unexpired
                       Examples.after_31_minutes Examples.idle_registry))
      as (m' & E & Hs & _).
    + intros id s Hs _.
      unfold Examples.idle_registry in Hs. cbn [sessions_] in Hs.
      apply lookup_singleton_Some in Hs as [_ <-]. reflexivity.
    + by exists m'.
Defined.

End checked_handlers.

